(** * KaleidoID: the embedding matching engine of [face_recognizer.py]

    A shallow embedding of [KaleidoRecognizer] and proofs about its
    numeric kernel, its in-memory gallery, the matcher and the
    training / synchronisation controller, together with the callers in
    [main_window.py] that train, export and import the gallery and the
    decorators of [error_handler.py].

    Modelling conventions.
    - A one-dimensional numpy array is a [list R]; numpy arithmetic is
      read in exact real arithmetic (rounding of float32/float64 is not
      modelled).
    - The four parallel Python lists of the recognizer are four lists of
      a record; [self._embedding_cache] (a dict keyed by photo id) is a
      [gmap Z].
    - A Python exception is a value of [exn]; code that may raise returns
      a [result].  Where a [try ... except] keeps the mutations made
      before the exception, the model returns the mutated state next to
      the outcome. *)

From Stdlib Require Import Reals Lra Lia ZArith String Ascii.
From stdpp Require Import base option list gmap.

Open Scope R_scope.

(** ** Exceptions and results *)

Inductive exn : Type :=
| UnboundLocalError (name : string)   (* a subclass of NameError *)
| IndexError
| KeyError (key : string)
| ValueError
| TypeError
| OverflowError
| StoreError (msg : string).          (* sqlite3.Error re-raised by the store *)

(** [isinstance(e, NameError)]: [UnboundLocalError] derives from it. *)
Definition is_NameError (e : exn) : bool :=
  match e with
  | UnboundLocalError _ => true
  | _ => false
  end.

Inductive result (A : Type) : Type :=
| Ok (a : A)
| Raise (e : exn).
Arguments Ok {A} a.
Arguments Raise {A} e.

#[global] Instance result_ret : MRet result := fun A a => Ok a.
#[global] Instance result_bind : MBind result := fun A B k r =>
  match r with
  | Ok a => k a
  | Raise e => Raise e
  end.

(** [l[i]] on a Python list. *)
Definition getitem {A : Type} (l : list A) (i : nat) : result A :=
  match l !! i with
  | Some a => Ok a
  | None => Raise IndexError
  end.

(** ** The numeric kernel *)

(** A one-dimensional array. *)
Definition vec : Type := list R.

Module Np.

Definition sum (v : vec) : R := fold_right Rplus 0 v.

(** [np.mean]. *)
Definition mean (v : vec) : R := sum v / INR (length v).

(** [np.std] (population standard deviation, [ddof = 0]):
    [sqrt(mean(abs(x - x.mean())**2))]. *)
Definition std (v : vec) : R :=
  sqrt (mean (map (fun x => Rabs (x - mean v) ^ 2) v)).

(** [np.linalg.norm] of a one-dimensional array. *)
Definition norm (v : vec) : R := sqrt (sum (map (fun x => Rabs x ^ 2) v)).

(** [np.dot] of two one-dimensional arrays; shapes that are not aligned
    raise [ValueError]. *)
Definition dot (a b : vec) : result R :=
  if Nat.eqb (length a) (length b)
  then Ok (sum (zip_with Rmult a b))
  else Raise ValueError.

End Np.

(** [self.embedding_size = 468 * 3]. *)
Definition embedding_size : nat := 468 * 3.

(** [_normalize_embedding]. *)
Definition _normalize_embedding (embedding : vec) : vec :=
  let mean := Np.mean embedding in
  let std := Np.std embedding in
  if Rgt_dec std 0
  then map (fun x => (x - mean) / std) embedding
  else map (fun x => x - mean) embedding.

(** The guard added to a norm before dividing. *)
Definition norm_eps : R := 1e-10.

(** [_calculate_similarity]; an exception inside the [try] block gives
    [0.0]. *)
Definition _calculate_similarity (emb1 emb2 : vec) : R :=
  let emb1_norm := map (fun x => x / (Np.norm emb1 + norm_eps)) emb1 in
  let emb2_norm := map (fun x => x / (Np.norm emb2 + norm_eps)) emb2 in
  match Np.dot emb1_norm emb2_norm with
  | Ok similarity => (similarity + 1) / 2
  | Raise _ => 0
  end.

(** The variance under the square root of [np.std]. *)
Definition variance (v : vec) : R :=
  Np.mean (map (fun x => Rabs (x - Np.mean v) ^ 2) v).

(** [int(x)] on a float: truncation towards zero. *)
Definition py_int (x : R) : Z :=
  if Rlt_dec x 0 then (- Int_part (- x))%Z else Int_part x.

(** ** Display names *)

(** [str.isspace] on the ASCII range. *)
Definition py_isspace (c : ascii) : bool :=
  let n := nat_of_ascii c in
  ((9 <=? n)%nat && (n <=? 13)%nat) || ((28 <=? n)%nat && (n <=? 32)%nat).

Fixpoint py_lstrip (s : list ascii) : list ascii :=
  match s with
  | c :: s' => if py_isspace c then py_lstrip s' else s
  | [] => []
  end.

(** [str.strip()]. *)
Definition py_strip (s : string) : string :=
  string_of_list_ascii
    (rev (py_lstrip (rev (py_lstrip (list_ascii_of_string s))))).

(** A [person_data] / [person] dictionary: a key that is missing is
    [None]. *)
Record person_data : Type := {
  pd_id : option Z;
  pd_last_name : option string;
  pd_first_name : option string;
}.

(** [f"{last_name} {first_name}".strip()] with both names read by
    [.get(key, '')]. *)
Definition display_name_of (person : person_data) : string :=
  let last_name := default EmptyString (pd_last_name person) in
  let first_name := default EmptyString (pd_first_name person) in
  py_strip (String.append last_name (String.append " " first_name)).

(** ** The recognizer *)

(** The attributes of [KaleidoRecognizer] that the engine reads and
    writes. *)
Record KaleidoRecognizer : Type := {
  known_embeddings : list vec;
  known_names : list string;
  known_ids : list Z;
  (** [None] for an embedding added without a photo id *)
  known_photo_ids : list (option Z);
  recognition_threshold : R;
  _embedding_cache : gmap Z vec;
}.

(** The state after [__init__]. *)
Definition init : KaleidoRecognizer :=
  {| known_embeddings := [];
     known_names := [];
     known_ids := [];
     known_photo_ids := [];
     recognition_threshold := 0.6;
     _embedding_cache := ∅ |}.

Definition set_known_embeddings (l : list vec) (self : KaleidoRecognizer) :=
  {| known_embeddings := l;
     known_names := known_names self;
     known_ids := known_ids self;
     known_photo_ids := known_photo_ids self;
     recognition_threshold := recognition_threshold self;
     _embedding_cache := _embedding_cache self |}.

Definition set_known_names (l : list string) (self : KaleidoRecognizer) :=
  {| known_embeddings := known_embeddings self;
     known_names := l;
     known_ids := known_ids self;
     known_photo_ids := known_photo_ids self;
     recognition_threshold := recognition_threshold self;
     _embedding_cache := _embedding_cache self |}.

Definition set_known_ids (l : list Z) (self : KaleidoRecognizer) :=
  {| known_embeddings := known_embeddings self;
     known_names := known_names self;
     known_ids := l;
     known_photo_ids := known_photo_ids self;
     recognition_threshold := recognition_threshold self;
     _embedding_cache := _embedding_cache self |}.

Definition set_known_photo_ids (l : list (option Z))
    (self : KaleidoRecognizer) :=
  {| known_embeddings := known_embeddings self;
     known_names := known_names self;
     known_ids := known_ids self;
     known_photo_ids := l;
     recognition_threshold := recognition_threshold self;
     _embedding_cache := _embedding_cache self |}.

Definition set_embedding_cache (m : gmap Z vec) (self : KaleidoRecognizer) :=
  {| known_embeddings := known_embeddings self;
     known_names := known_names self;
     known_ids := known_ids self;
     known_photo_ids := known_photo_ids self;
     recognition_threshold := recognition_threshold self;
     _embedding_cache := m |}.

(** [_add_embedding_to_memory]: four appends, one per list. *)
Definition _add_embedding_to_memory (self : KaleidoRecognizer)
    (embedding : vec) (person : person_data) (photo_id : option Z)
  : KaleidoRecognizer * bool :=
  let self := set_known_embeddings (known_embeddings self ++ [embedding]) self in
  let display_name := display_name_of person in
  let self := set_known_names (known_names self ++ [display_name]) self in
  let person_id :=
    match pd_id person with
    | Some i => i
    | None => (Z.of_nat (length (known_ids self)) + 1)%Z
    end in
  let self := set_known_ids (known_ids self ++ [person_id]) self in
  let self := set_known_photo_ids (known_photo_ids self ++ [photo_id]) self in
  (self, true).

(** [clear_embeddings]. *)
Definition clear_embeddings (self : KaleidoRecognizer) : KaleidoRecognizer :=
  set_known_photo_ids []
    (set_known_ids [] (set_known_names [] (set_known_embeddings [] self))).

(** [list.index(x)]: the first position holding [x]. *)
Fixpoint list_index {A : Type} `{EqDecision A} (x : A) (l : list A)
  : option nat :=
  match l with
  | [] => None
  | y :: l' => if decide (x = y) then Some 0%nat else S <$> list_index x l'
  end.

(** [list.pop(i)] for [i >= 0]: the list without position [i]. *)
Definition pop {A : Type} (l : list A) (i : nat) : result (list A) :=
  if (i <? length l)%nat then Ok (delete i l) else Raise IndexError.

(** [remove_embedding_by_photo_id].  The pops run one after the other;
    the handler of the [try] returns [False] and keeps what was already
    popped. *)
Definition remove_embedding_by_photo_id (self : KaleidoRecognizer)
    (photo_id : option Z) : KaleidoRecognizer * bool :=
  if bool_decide (photo_id ∈ known_photo_ids self) then
    match list_index photo_id (known_photo_ids self) with
    | None => (self, false)
    | Some index =>
      match pop (known_embeddings self) index with
      | Raise _ => (self, false)
      | Ok l =>
        let self := set_known_embeddings l self in
        match pop (known_names self) index with
        | Raise _ => (self, false)
        | Ok l =>
          let self := set_known_names l self in
          match pop (known_ids self) index with
          | Raise _ => (self, false)
          | Ok l =>
            let self := set_known_ids l self in
            match pop (known_photo_ids self) index with
            | Raise _ => (self, false)
            | Ok l =>
              let self := set_known_photo_ids l self in
              let self :=
                match photo_id with
                | Some p =>
                    if bool_decide (is_Some (_embedding_cache self !! p))
                    then set_embedding_cache
                           (delete p (_embedding_cache self)) self
                    else self
                | None => self
                end in
              (self, true)
            end
          end
        end
      end
    end
  else (self, false).

(** The state [remove_embedding_by_photo_id] leaves when it removes
    index [k]. *)
Definition removed_at (self : KaleidoRecognizer) (photo_id : option Z)
    (k : nat) : KaleidoRecognizer :=
  {| known_embeddings := delete k (known_embeddings self);
     known_names := delete k (known_names self);
     known_ids := delete k (known_ids self);
     known_photo_ids := delete k (known_photo_ids self);
     recognition_threshold := recognition_threshold self;
     _embedding_cache :=
       match photo_id with
       | Some q => delete q (_embedding_cache self)
       | None => _embedding_cache self
       end |}.

(** ** The matcher *)

(** The three locals of the scan: [best_match_id], [best_similarity],
    [best_photo_id]. *)
Definition match_result : Type := option Z * R * option Z.

(** [enumerate(l)], counting from [start]. *)
Fixpoint enumerate_from {A : Type} (start : nat) (l : list A)
  : list (nat * A) :=
  match l with
  | [] => []
  | a :: l' => (start, a) :: enumerate_from (S start) l'
  end.

(** One iteration of the scan of [recognize_face]. *)
Definition recognize_step (self : KaleidoRecognizer) (embedding : vec)
    (best : match_result) (item : nat * vec) : result match_result :=
  let '(i, known_embedding) := item in
  let '(best_match_id, best_similarity, best_photo_id) := best in
  let similarity := _calculate_similarity embedding known_embedding in
  if Rgt_dec similarity best_similarity then
    if Rgt_dec similarity (recognition_threshold self) then
      best_match_id ← getitem (known_ids self) i;
      best_photo_id ← getitem (known_photo_ids self) i;
      Ok (Some best_match_id, similarity, best_photo_id)
    else Ok best
  else Ok best.

Fixpoint recognize_loop (self : KaleidoRecognizer) (embedding : vec)
    (items : list (nat * vec)) (best : match_result) : result match_result :=
  match items with
  | [] => Ok best
  | item :: items' =>
      best' ← recognize_step self embedding best item;
      recognize_loop self embedding items' best'
  end.

(** [recognize_face]. *)
Definition recognize_face (self : KaleidoRecognizer) (embedding : option vec)
  : result match_result :=
  match embedding with
  | None => Ok (None, 0, None)
  | Some embedding =>
      if (length (known_embeddings self) =? 0)%nat then Ok (None, 0, None)
      else
        recognize_loop self embedding
          (enumerate_from 0 (known_embeddings self)) (None, 0, None)
  end.

(** What a scan of the gallery has found after the vectors [seen]:
    either nothing yet, because no vector seen was eligible, ... *)
Definition no_candidate (self : KaleidoRecognizer) (embedding : vec)
    (seen : list vec) : Prop :=
  Forall (fun k =>
            ~ (_calculate_similarity embedding k > 0 /\
               _calculate_similarity embedding k > recognition_threshold self))
         seen.

(** ... or the entry at the first index that attains the greatest
    similarity, which exceeds the threshold. *)
Definition first_best (self : KaleidoRecognizer) (embedding : vec)
    (seen : list vec) (best : match_result) : Prop :=
  exists (i : nat) (k : vec) (id : Z) (p : option Z),
    seen !! i = Some k /\
    known_ids self !! i = Some id /\
    known_photo_ids self !! i = Some p /\
    best = (Some id, _calculate_similarity embedding k, p) /\
    _calculate_similarity embedding k > recognition_threshold self /\
    _calculate_similarity embedding k > 0 /\
    (forall (j : nat) (k' : vec), (j < i)%nat -> seen !! j = Some k' ->
       _calculate_similarity embedding k' < _calculate_similarity embedding k) /\
    (forall (j : nat) (k' : vec), seen !! j = Some k' ->
       _calculate_similarity embedding k' <= _calculate_similarity embedding k).

Definition scan_outcome (self : KaleidoRecognizer) (embedding : vec)
    (seen : list vec) (best : match_result) : Prop :=
  (best = (None, 0, None) /\ no_candidate self embedding seen) \/
  first_best self embedding seen best.

(** ** The landmark detector *)

(** [detection.location_data]. *)
Record location_data : Type := {
  bbox_xmin : R;
  bbox_ymin : R;
  bbox_width : R;
  bbox_height : R;
  relative_keypoints : list (R * R);
}.

(** One element of [results.detections]; a falsy [location_data] is
    [None], an empty [score] is [[]]. *)
Record detection : Type := {
  detection_location_data : option location_data;
  detection_score : list R;
}.

(** The image library and the two MediaPipe models, as the recognizer
    uses them.  The colour conversion that precedes each [process] call
    is part of the call; a call that raises returns [Raise].  A missing
    or empty [multi_face_landmarks] / [detections] is the empty list. *)
Class Vision : Type := {
  Image : Type;
  PILImage : Type;
  shape : Image -> list Z;
  (** [image[y0:y1, x0:x1]] *)
  slice : Image -> Z -> Z -> Z -> Z -> Image;
  face_mesh_process : Image -> result (list (list (R * R * R)));
  face_detection_process : Image -> result (list detection);
  (** [cv2.cvtColor(np.array(pil.convert('RGB')), cv2.COLOR_RGB2BGR)] *)
  pil_to_array : PILImage -> result Image;
}.

(** A [face_info] dictionary; the key ['landmarks'] is absent until
    [recognize_face_in_image] sets it. *)
Record face_info : Type := {
  face_bbox : Z * Z * Z * Z;
  face_confidence : R;
  face_keypoints : list (Z * Z);
  face_landmarks : option (list (Z * Z));
}.

(** One element of the list [recognize_face_in_image] returns. *)
Record recognition : Type := {
  rec_bbox : Z * Z * Z * Z;
  rec_detection_confidence : R;
  rec_person_id : option Z;
  rec_recognition_confidence : R;
  rec_photo_id : option Z;
  rec_landmarks : option (list (Z * Z));
}.

Section Detector.

Context `{Vision}.

(** The flattened landmark coordinates of one face. *)
Definition flatten_landmarks (face : list (R * R * R)) : vec :=
  flat_map (fun '(x, y, z) => [x; y; z]) face.

(** [extract_embedding]: the first face only, and only when it has
    [embedding_size] coordinates. *)
Definition extract_embedding (image : Image) : option vec :=
  match face_mesh_process image with
  | Raise _ => None
  | Ok multi_face_landmarks =>
      match multi_face_landmarks with
      | face_landmarks :: _ =>
          let landmarks_array := flatten_landmarks face_landmarks in
          if (length landmarks_array =? embedding_size)%nat
          then Some (_normalize_embedding landmarks_array)
          else None
      | [] => None
      end
  end.

(** [extract_embedding_with_landmarks]: the same embedding, with the
    pixel coordinates of the landmarks. *)
Definition extract_embedding_with_landmarks (image : Image)
  : option vec * option (list (Z * Z)) :=
  match face_mesh_process image with
  | Raise _ => (None, None)
  | Ok multi_face_landmarks =>
      match multi_face_landmarks with
      | face_landmarks :: _ =>
          let landmarks_array := flatten_landmarks face_landmarks in
          match shape image with
          | h :: w :: _ =>
              let draw_landmarks :=
                map (fun '(x, y, _) => (py_int (x * IZR w), py_int (y * IZR h)))
                    face_landmarks in
              if (length landmarks_array =? embedding_size)%nat
              then (Some (_normalize_embedding landmarks_array),
                    Some draw_landmarks)
              else (None, None)
          | _ => (None, None)
          end
      | [] => (None, None)
      end
  end.

(** [extract_embedding_from_pil]. *)
Definition extract_embedding_from_pil (pil_image : PILImage) : option vec :=
  match pil_to_array pil_image with
  | Raise _ => None
  | Ok image => extract_embedding image
  end.

(** [_extract_keypoints]. *)
Definition _extract_keypoints (loc : location_data) (image_width image_height : Z)
  : list (Z * Z) :=
  map (fun '(kx, ky) => (py_int (kx * IZR image_width),
                         py_int (ky * IZR image_height)))
      (relative_keypoints loc).

(** The body of the loop of [detect_faces] for one detection: [None] is
    the [continue] branch. *)
Definition detect_one (image : Image) (d : detection)
  : result (option face_info) :=
  match detection_location_data d with
  | None => Ok None
  | Some loc =>
      match shape image with
      | [h; w; _] =>
          let x := py_int (bbox_xmin loc * IZR w) in
          let y := py_int (bbox_ymin loc * IZR h) in
          let width := py_int (bbox_width loc * IZR w) in
          let height := py_int (bbox_height loc * IZR h) in
          let padding := 20%Z in
          let x := Z.max 0 (x - padding) in
          let y := Z.max 0 (y - padding) in
          let width := Z.min (w - x) (width + 2 * padding) in
          let height := Z.min (h - y) (height + 2 * padding) in
          let confidence :=
            match detection_score d with
            | c :: _ => c
            | [] => 0
            end in
          Ok (Some {| face_bbox := (x, y, width, height);
                      face_confidence := confidence;
                      face_keypoints := _extract_keypoints loc w h;
                      face_landmarks := None |})
      | _ => Raise ValueError
      end
  end.

Fixpoint detect_loop (image : Image) (detections : list detection)
    (faces : list face_info) : result (list face_info) :=
  match detections with
  | [] => Ok faces
  | d :: detections' =>
      r ← detect_one image d;
      match r with
      | Some face => detect_loop image detections' (faces ++ [face])
      | None => detect_loop image detections' faces
      end
  end.

(** [detect_faces]: any exception gives the empty list. *)
Definition detect_faces (image : Image) : list face_info :=
  match face_detection_process image with
  | Raise _ => []
  | Ok detections =>
      match detect_loop image detections [] with
      | Ok faces => faces
      | Raise _ => []
      end
  end.

(** The [for face in faces] loop of [recognize_face_in_image]: its body
    only unpacks the bounding box, so after the loop the names [face],
    [x], [y], [w], [h] are bound to the values of the last iteration, or
    unbound when there was none. *)
Definition bbox_loop (faces : list face_info)
  : option (face_info * (Z * Z * Z * Z)) :=
  foldl (fun _ face => Some (face, face_bbox face)) None faces.

(** The test [x >= 0 and y >= 0 and x + w <= image.shape[1] and
    y + h <= image.shape[0]], evaluated left to right. *)
Definition roi_in_image (image : Image) (box : Z * Z * Z * Z) : result bool :=
  let '(x, y, w, h) := box in
  if (0 <=? x)%Z then
    if (0 <=? y)%Z then
      cols ← getitem (shape image) 1;
      if (x + w <=? cols)%Z then
        rows ← getitem (shape image) 0;
        Ok (y + h <=? rows)%Z
      else Ok false
    else Ok false
  else Ok false.

(** The statements of [recognize_face_in_image] that follow the call of
    [detect_faces]. *)
Definition recognize_detected (self : KaleidoRecognizer) (image : Image)
    (extract_landmarks : bool) (faces : list face_info)
  : result (list recognition) :=
  let results := [] in
  match bbox_loop faces with
  | None => Raise (UnboundLocalError "x")
  | Some (face, (x, y, w, h)) =>
      inside ← roi_in_image image (x, y, w, h);
      if inside : bool then
        let face_roi := slice image y (y + h) x (x + w) in
        let '(embedding, landmarks) :=
          if extract_landmarks
          then extract_embedding_with_landmarks face_roi
          else (extract_embedding face_roi, face_landmarks face) in
        '(person_id, confidence, photo_id) ← recognize_face self embedding;
        Ok (results ++
            [ {| rec_bbox := face_bbox face;
                 rec_detection_confidence := face_confidence face;
                 rec_person_id := person_id;
                 rec_recognition_confidence := confidence;
                 rec_photo_id := photo_id;
                 rec_landmarks := landmarks |} ])
      else Ok results
  end.

(** [recognize_face_in_image]. *)
Definition recognize_face_in_image (self : KaleidoRecognizer) (image : Image)
    (extract_landmarks : bool) : result (list recognition) :=
  recognize_detected self image extract_landmarks (detect_faces image).

(** ** Training *)

(** [train_from_image]. *)
Definition train_from_image (self : KaleidoRecognizer) (image : Image)
    (person : person_data) (photo_id : option Z) : KaleidoRecognizer * bool :=
  match extract_embedding image with
  | Some embedding => _add_embedding_to_memory self embedding person photo_id
  | None => (self, false)
  end.

(** [train_from_pil]. *)
Definition train_from_pil (self : KaleidoRecognizer) (pil_image : PILImage)
    (person : person_data) (photo_id : option Z) : KaleidoRecognizer * bool :=
  match extract_embedding_from_pil pil_image with
  | Some embedding => _add_embedding_to_memory self embedding person photo_id
  | None => (self, false)
  end.

End Detector.

(** [add_existing_embedding]: the one insertion path that checks the
    length. *)
Definition add_existing_embedding (self : KaleidoRecognizer)
    (embedding : option vec) (person : person_data) (photo_id : option Z)
  : KaleidoRecognizer * bool :=
  match embedding with
  | Some e =>
      if (length e =? embedding_size)%nat
      then _add_embedding_to_memory self e person photo_id
      else (self, false)
  | None => (self, false)
  end.

(** ** The persistent store *)

(** A row of [get_person_photos]: its id and the stored blob of the
    column [face_embedding] ([None] for NULL). *)
Record photo : Type := {
  photo_id : Z;
  photo_face_embedding : option string;
}.

(** Truth value of [photo.get('face_embedding')]. *)
Definition has_face_embedding (p : photo) : bool :=
  match photo_face_embedding p with
  | Some (String _ _) => true
  | _ => false
  end.

(** The [database] argument of the batch operations.  The reading
    methods open a connection and re-raise its errors;
    [update_photo_embedding] catches every exception itself and answers
    with a boolean. *)
Class Database `{Vision} (DB : Type) : Type := {
  get_all_people : DB -> result (list person_data);
  get_person_photos : DB -> Z -> result (list photo);
  get_photo_embedding : DB -> Z -> result (option vec);
  get_photo_as_image : DB -> Z -> result (option PILImage);
  update_photo_embedding : DB -> Z -> vec -> DB * bool;
}.

Section Controller.

Context `{Vision} {DB : Type} `{!Database DB}.

(** The body of the loop of [batch_train_person] for one photo: the new
    recognizer and store, and whether the photo was counted. *)
Definition batch_train_photo (person_id : Z) (person_name : string)
    (ph : photo) (self : KaleidoRecognizer) (database : DB)
  : KaleidoRecognizer * DB * result bool :=
  let person := {| pd_id := Some person_id;
                   pd_last_name := Some person_name;
                   pd_first_name := None |} in
  match _embedding_cache self !! photo_id ph with
  | Some embedding =>
      let '(self, ok) :=
        add_existing_embedding self (Some embedding) person
          (Some (photo_id ph)) in
      (self, database, Ok ok)
  | None =>
      if has_face_embedding ph then
        match get_photo_embedding database (photo_id ph) with
        | Raise e => (self, database, Raise e)
        | Ok None => (self, database, Ok false)
        | Ok (Some embedding) =>
            let '(self, ok) :=
              add_existing_embedding self (Some embedding) person
                (Some (photo_id ph)) in
            if ok then
              (set_embedding_cache
                 (<[photo_id ph := embedding]> (_embedding_cache self)) self,
               database, Ok true)
            else (self, database, Ok false)
        end
      else
        match get_photo_as_image database (photo_id ph) with
        | Raise e => (self, database, Raise e)
        | Ok None => (self, database, Ok false)
        | Ok (Some pil_image) =>
            let '(self, ok) :=
              train_from_pil self pil_image person (Some (photo_id ph)) in
            if ok then
              match extract_embedding_from_pil pil_image with
              | Some embedding =>
                  let '(database, _) :=
                    update_photo_embedding database (photo_id ph) embedding in
                  (set_embedding_cache
                     (<[photo_id ph := embedding]> (_embedding_cache self))
                     self,
                   database, Ok true)
              | None => (self, database, Ok true)
              end
            else (self, database, Ok false)
        end
  end.

Fixpoint batch_train_loop (person_id : Z) (person_name : string)
    (photos : list photo) (self : KaleidoRecognizer) (database : DB)
    (trained_count : nat) : KaleidoRecognizer * DB * result nat :=
  match photos with
  | [] => (self, database, Ok trained_count)
  | ph :: photos' =>
      match batch_train_photo person_id person_name ph self database with
      | (self, database, Ok counted) =>
          batch_train_loop person_id person_name photos' self database
            (if counted then trained_count + 1 else trained_count)%nat
      | (self, database, Raise e) => (self, database, Raise e)
      end
  end.

(** [batch_train_person]: one [try] around the whole body, whose handler
    returns [0]. *)
Definition batch_train_person (self : KaleidoRecognizer) (person_id : Z)
    (person_name : string) (database : DB) : KaleidoRecognizer * DB * nat :=
  match get_person_photos database person_id with
  | Raise _ => (self, database, 0%nat)
  | Ok photos =>
      match batch_train_loop person_id person_name photos self database 0 with
      | (self, database, Ok trained_count) => (self, database, trained_count)
      | (self, database, Raise _) => (self, database, 0%nat)
      end
  end.

(** The inner loop of [load_embeddings_from_database], over the photos
    of one person. *)
Fixpoint load_photos (database : DB) (person : person_data) (person_id : Z)
    (photos : list photo) (self : KaleidoRecognizer) (loaded_count : nat)
  : KaleidoRecognizer * result nat :=
  match photos with
  | [] => (self, Ok loaded_count)
  | ph :: photos' =>
      match get_photo_embedding database (photo_id ph) with
      | Raise e => (self, Raise e)
      | Ok None => load_photos database person person_id photos' self loaded_count
      | Ok (Some embedding) =>
          if (length embedding =? embedding_size)%nat then
            let self :=
              set_known_embeddings (known_embeddings self ++ [embedding]) self in
            let display_name := display_name_of person in
            let self :=
              set_known_names (known_names self ++ [display_name]) self in
            let self := set_known_ids (known_ids self ++ [person_id]) self in
            let self :=
              set_known_photo_ids
                (known_photo_ids self ++ [Some (photo_id ph)]) self in
            let self :=
              set_embedding_cache
                (<[photo_id ph := embedding]> (_embedding_cache self)) self in
            load_photos database person person_id photos' self
              (loaded_count + 1)
          else load_photos database person person_id photos' self loaded_count
      end
  end.

(** The outer loop, over the people. *)
Fixpoint load_people (database : DB) (people : list person_data)
    (self : KaleidoRecognizer) (loaded_count : nat)
  : KaleidoRecognizer * result nat :=
  match people with
  | [] => (self, Ok loaded_count)
  | person :: people' =>
      match pd_id person with
      | None => (self, Raise (KeyError "id"))
      | Some person_id =>
          match get_person_photos database person_id with
          | Raise e => (self, Raise e)
          | Ok photos =>
              match load_photos database person person_id photos self
                      loaded_count with
              | (self, Ok loaded_count) =>
                  load_people database people' self loaded_count
              | (self, Raise e) => (self, Raise e)
              end
          end
      end
  end.

(** [load_embeddings_from_database]: one [try] around the whole body,
    whose handler returns [0]. *)
Definition load_embeddings_from_database (self : KaleidoRecognizer)
    (database : DB) : KaleidoRecognizer * nat :=
  let self := clear_embeddings self in
  let self := set_embedding_cache ∅ self in
  match get_all_people database with
  | Raise _ => (self, 0%nat)
  | Ok people =>
      match load_people database people self 0 with
      | (self, Ok loaded_count) => (self, loaded_count)
      | (self, Raise _) => (self, 0%nat)
      end
  end.

End Controller.

(** Every reading call that a reload of the store makes answers. *)
Definition store_readable `{Vision} {DB : Type} `{!Database DB}
    (database : DB) : Prop :=
  exists people,
    get_all_people database = Ok people /\
    Forall (fun person =>
              exists person_id photos,
                pd_id person = Some person_id /\
                get_person_photos database person_id = Ok photos /\
                Forall (fun ph =>
                          exists r,
                            get_photo_embedding database (photo_id ph) = Ok r)
                       photos)
           people.

(** ** The gallery as one sequence of entries *)

(** Index alignment of the four parallel lists. *)
Definition aligned (self : KaleidoRecognizer) : Prop :=
  length (known_names self) = length (known_embeddings self) /\
  length (known_ids self) = length (known_embeddings self) /\
  length (known_photo_ids self) = length (known_embeddings self).

(** What one index of the gallery holds. *)
Record entry : Type := {
  entry_embedding : vec;
  entry_name : string;
  entry_id : Z;
  entry_photo_id : option Z;
}.

(** The entries read index by index off four lists, up to the shortest. *)
Fixpoint entries_of (es : list vec) (ns : list string) (ids : list Z)
    (ps : list (option Z)) : list entry :=
  match es, ns, ids, ps with
  | e :: es', n :: ns', i :: ids', p :: ps' =>
      {| entry_embedding := e; entry_name := n; entry_id := i;
         entry_photo_id := p |} :: entries_of es' ns' ids' ps'
  | _, _, _, _ => []
  end.

Definition gallery (self : KaleidoRecognizer) : list entry :=
  entries_of (known_embeddings self) (known_names self) (known_ids self)
    (known_photo_ids self).

(** The gallery operations of the design, on a single sequence of
    entries: insert appends one entry, removal deletes the first entry of
    a photo id, clear empties, and a reload appends one entry per stored
    embedding of the right length. *)
Module Gallery.

Definition insert (g : list entry) (vector : vec) (person : person_data)
    (photoId : option Z) : list entry :=
  g ++ [ {| entry_embedding := vector;
            entry_name := display_name_of person;
            entry_id := match pd_id person with
                        | Some i => i
                        | None => (Z.of_nat (length g) + 1)%Z
                        end;
            entry_photo_id := photoId |} ].

Fixpoint removeByPhotoId (g : list entry) (photoId : option Z) : list entry :=
  match g with
  | [] => []
  | e :: g' =>
      if decide (photoId = entry_photo_id e) then g'
      else e :: removeByPhotoId g' photoId
  end.

Definition clear : list entry := [].

Section Load.

Context `{Vision} {DB : Type} `{!Database DB}.

Fixpoint loadPhotos (store : DB) (person : person_data) (identityId : Z)
    (photos : list photo) (g : list entry) : list entry * bool :=
  match photos with
  | [] => (g, true)
  | ph :: photos' =>
      match get_photo_embedding store (photo_id ph) with
      | Raise _ => (g, false)
      | Ok (Some vector) =>
          if (length vector =? embedding_size)%nat then
            loadPhotos store person identityId photos'
              (g ++ [ {| entry_embedding := vector;
                         entry_name := display_name_of person;
                         entry_id := identityId;
                         entry_photo_id := Some (photo_id ph) |} ])
          else loadPhotos store person identityId photos' g
      | Ok None => loadPhotos store person identityId photos' g
      end
  end.

Fixpoint loadPeople (store : DB) (people : list person_data) (g : list entry)
  : list entry :=
  match people with
  | [] => g
  | person :: people' =>
      match pd_id person with
      | None => g
      | Some identityId =>
          match get_person_photos store identityId with
          | Raise _ => g
          | Ok photos =>
              match loadPhotos store person identityId photos g with
              | (g, true) => loadPeople store people' g
              | (g, false) => g
              end
          end
      end
  end.

Definition loadAll (store : DB) : list entry :=
  match get_all_people store with
  | Raise _ => []
  | Ok people => loadPeople store people []
  end.

End Load.

End Gallery.

Section Mutations.

Context `{Vision} {DB : Type} `{!Database DB}.

(** The operations that change the gallery. *)
Inductive mutation : Type :=
| Insert (embedding : vec) (person : person_data) (photo_id : option Z)
| RemoveByPhotoId (photo_id : option Z)
| Clear
| LoadAll (database : DB).

Definition apply_mutation (self : KaleidoRecognizer) (m : mutation)
  : KaleidoRecognizer :=
  match m with
  | Insert embedding person photo_id =>
      fst (_add_embedding_to_memory self embedding person photo_id)
  | RemoveByPhotoId photo_id => fst (remove_embedding_by_photo_id self photo_id)
  | Clear => clear_embeddings self
  | LoadAll database => fst (load_embeddings_from_database self database)
  end.

Definition gallery_mutation (g : list entry) (m : mutation) : list entry :=
  match m with
  | Insert embedding person photo_id =>
      Gallery.insert g embedding person photo_id
  | RemoveByPhotoId photo_id => Gallery.removeByPhotoId g photo_id
  | Clear => Gallery.clear
  | LoadAll database => Gallery.loadAll database
  end.

End Mutations.

(** The state [load_embeddings_from_database] starts its loops from. *)
Definition fresh (self : KaleidoRecognizer) : KaleidoRecognizer :=
  {| known_embeddings := [];
     known_names := [];
     known_ids := [];
     known_photo_ids := [];
     recognition_threshold := recognition_threshold self;
     _embedding_cache := ∅ |}.

(** What the loops of [load_embeddings_from_database] maintain: the
    lists stay aligned, the threshold is untouched, every vector added
    has [embedding_size] coordinates, and the count grows with the
    gallery. *)
Definition load_invariant (self self' : KaleidoRecognizer)
    (n : nat) (r : result nat) : Prop :=
  aligned self' /\
  recognition_threshold self' = recognition_threshold self /\
  (Forall (fun e => length e = embedding_size) (known_embeddings self) ->
   Forall (fun e => length e = embedding_size) (known_embeddings self')) /\
  (forall n', r = Ok n' ->
     (n' + length (known_embeddings self)
      = n + length (known_embeddings self'))%nat).

(** ** Concrete collaborators for examples *)

(** An image that carries what the two models report on it. *)
Record sample_image : Type := {
  sample_shape : list Z;
  sample_mesh : result (list (list (R * R * R)));
  sample_detections : result (list detection);
}.

#[export] Instance sample_vision : Vision := {|
  Image := sample_image;
  PILImage := sample_image;
  shape := sample_shape;
  slice := fun image _ _ _ _ => image;
  face_mesh_process := sample_mesh;
  face_detection_process := sample_detections;
  pil_to_array := fun image => Ok image;
|}.

(** A store given by its tables; a reading call may raise. *)
Record sample_store : Type := {
  store_people : result (list person_data);
  store_photos : Z -> result (list photo);
  store_embedding : Z -> result (option vec);
  store_image : Z -> result (option sample_image);
}.

#[export] Instance sample_database : Database sample_store := {|
  get_all_people := store_people;
  get_person_photos := store_photos;
  get_photo_embedding := store_embedding;
  get_photo_as_image := store_image;
  update_photo_embedding := fun db p v =>
    ({| store_people := store_people db;
        store_photos := store_photos db;
        store_embedding := fun q =>
          if decide (q = p) then Ok (Some v) else store_embedding db q;
        store_image := store_image db |}, true);
|}.

(** A vector of [embedding_size] coordinates, the first one [1]. *)
Definition unit_vec : vec := 1 :: replicate 1403 0.

(** A vector of [embedding_size] equal coordinates. *)
Definition flat_vec : vec := replicate 1404 0.

(** A vector orthogonal to [unit_vec]. *)
Definition unit_vec2 : vec := 0 :: 1 :: replicate 1402 0.


(** A gallery of one entry. *)
Definition sample_one : KaleidoRecognizer :=
  {| known_embeddings := [unit_vec];
     known_names := ["Ivanov Ivan"%string];
     known_ids := [7%Z];
     known_photo_ids := [Some 101%Z];
     recognition_threshold := 0.6;
     _embedding_cache := ∅ |}.

(** The same vector enrolled twice, for two identities. *)
Definition sample_two : KaleidoRecognizer :=
  {| known_embeddings := [unit_vec; unit_vec];
     known_names := ["Ivanov Ivan"%string; "Petrov Petr"%string];
     known_ids := [7%Z; 9%Z];
     known_photo_ids := [Some 101%Z; Some 102%Z];
     recognition_threshold := 0.6;
     _embedding_cache := ∅ |}.


(** A store with one person and three photos; every call answers.  The
    stored embedding of photo 11 has the wrong length. *)
Definition ivanov : person_data :=
  {| pd_id := Some 7%Z;
     pd_last_name := Some "Ivanov"%string;
     pd_first_name := Some "Ivan"%string |}.

Definition ivanov_photos : list photo :=
  [ {| photo_id := 10; photo_face_embedding := Some "blob"%string |};
    {| photo_id := 11; photo_face_embedding := Some "blob"%string |};
    {| photo_id := 12; photo_face_embedding := Some "blob"%string |} ].

Definition readable_store : sample_store :=
  {| store_people := Ok [ivanov];
     store_photos := fun person_id =>
       if decide (person_id = 7%Z) then Ok ivanov_photos else Ok [];
     store_embedding := fun p =>
       if decide (p = 10%Z) then Ok (Some unit_vec)
       else if decide (p = 11%Z) then Ok (Some [1; 2; 3])
       else if decide (p = 12%Z) then Ok (Some unit_vec2)
       else Ok None;
     store_image := fun _ => Ok None |}.

(** The same store when reading the embedding of photo 11 raises. *)
Definition faulty_store : sample_store :=
  {| store_people := Ok [ivanov];
     store_photos := fun person_id =>
       if decide (person_id = 7%Z) then Ok ivanov_photos else Ok [];
     store_embedding := fun p =>
       if decide (p = 10%Z) then Ok (Some unit_vec)
       else if decide (p = 11%Z) then Raise (StoreError "database is locked")
       else if decide (p = 12%Z) then Ok (Some unit_vec2)
       else Ok None;
     store_image := fun _ => Ok None |}.



(** Two detections of a 640 x 480 frame on which the mesh model finds no
    landmarks, and the same frame without detections. *)
Definition left_detection : detection :=
  {| detection_location_data :=
       Some {| bbox_xmin := 0.1; bbox_ymin := 0.2; bbox_width := 0.2;
               bbox_height := 0.3; relative_keypoints := [] |};
     detection_score := [0.9] |}.

Definition right_detection : detection :=
  {| detection_location_data :=
       Some {| bbox_xmin := 0.6; bbox_ymin := 0.2; bbox_width := 0.2;
               bbox_height := 0.3; relative_keypoints := [] |};
     detection_score := [0.8] |}.

Definition two_face_frame : sample_image :=
  {| sample_shape := [480%Z; 640%Z; 3%Z];
     sample_mesh := Ok [];
     sample_detections := Ok [left_detection; right_detection] |}.

Definition empty_frame : sample_image :=
  {| sample_shape := [480%Z; 640%Z; 3%Z];
     sample_mesh := Ok [];
     sample_detections := Ok [] |}.

(** Two faces as [detect_faces] reports them. *)
Definition left_face : face_info :=
  {| face_bbox := (44, 76, 168, 184)%Z;
     face_confidence := 0.9;
     face_keypoints := [];
     face_landmarks := None |}.

Definition right_face : face_info :=
  {| face_bbox := (364, 76, 168, 184)%Z;
     face_confidence := 0.8;
     face_keypoints := [];
     face_landmarks := None |}.

(** A sequence of gallery mutations. *)
Definition sample_mutations : list (@mutation sample_store) :=
  [ Insert unit_vec ivanov (Some 101%Z);
    Insert unit_vec2 ivanov None;
    RemoveByPhotoId (Some 101%Z);
    LoadAll readable_store;
    Insert unit_vec ivanov (Some 10%Z);
    RemoveByPhotoId (Some 10%Z);
    Clear;
    Insert unit_vec2 ivanov (Some 102%Z) ].

(** A box lies inside an image of [rows] x [cols] pixels. *)
Definition box_inside (rows cols : Z) (box : Z * Z * Z * Z) : Prop :=
  let '(x, y, w, h) := box in
  (0 <= x /\ 0 <= y /\ x + w <= cols /\ y + h <= rows)%Z.

(** A frame on which the mesh model finds one face of 468 landmarks. *)
Definition mesh_frame : sample_image :=
  {| sample_shape := [480%Z; 640%Z; 3%Z];
     sample_mesh := Ok [replicate 468 (0.5, 0.25, 0)];
     sample_detections := Ok [] |}.

(** What one training step may do to the gallery: append [added], all
    of whose entries satisfy [Q]. *)
Definition grows_by (Q : entry -> Prop) (self self' : KaleidoRecognizer)
    (added : list entry) : Prop :=
  aligned self' /\ gallery self' = gallery self ++ added /\ Forall Q added.

(** The entries a batch step adds for [person_id] under [person_name]. *)
Definition batch_entry (person_id : Z) (person_name : string) (en : entry)
  : Prop :=
  entry_id en = person_id /\
  entry_name en
  = display_name_of {| pd_id := Some person_id;
                       pd_last_name := Some person_name;
                       pd_first_name := None |} /\
  is_Some (entry_photo_id en) /\
  length (entry_embedding en) = embedding_size.

(** A second person, and a store with both people in which reading the
    embedding of photo 11 raises. *)
Definition petrov : person_data :=
  {| pd_id := Some 9%Z;
     pd_last_name := Some "Petrov"%string;
     pd_first_name := Some "Petr"%string |}.

Definition two_people_store : sample_store :=
  {| store_people := Ok [ivanov; petrov];
     store_photos := fun person_id =>
       if decide (person_id = 7%Z) then Ok ivanov_photos
       else if decide (person_id = 9%Z)
            then Ok [ {| photo_id := 20;
                         photo_face_embedding := Some "blob"%string |} ]
            else Ok [];
     store_embedding := fun p =>
       if decide (p = 10%Z) then Ok (Some unit_vec)
       else if decide (p = 11%Z) then Raise (StoreError "database is locked")
       else if decide (p = 12%Z) then Ok (Some unit_vec2)
       else if decide (p = 20%Z) then Ok (Some unit_vec2)
       else Ok None;
     store_image := fun _ => Ok None |}.

(** The cache agrees with the gallery: a cached photo id has the cached
    vector at one of its entries, and a photo id that is not cached has
    no entry. *)
Definition cache_synced (self : KaleidoRecognizer) : Prop :=
  forall p : Z,
    match _embedding_cache self !! p with
    | Some e =>
        exists i : nat,
          known_photo_ids self !! i = Some (Some p) /\
          known_embeddings self !! i = Some e
    | None => Some p ∉ known_photo_ids self
    end.

(** ** Configuration and introspection *)

(** A Python float: a number, an infinity or NaN. *)
Inductive py_float : Type :=
| Finite (x : R)
| Inf (negative : bool)
| NaN.

(** [a < b] on floats: every comparison with NaN is false. *)
Definition py_lt (a b : py_float) : bool :=
  match a, b with
  | Finite x, Finite y => if Rlt_dec x y then true else false
  | Inf true, Finite _ | Inf true, Inf false | Finite _, Inf false => true
  | _, _ => false
  end.

(** The builtins [min(a, b)] and [max(a, b)]: the first argument is
    kept unless the second is strictly smaller (larger). *)
Definition py_min (a b : py_float) : py_float := if py_lt b a then b else a.
Definition py_max (a b : py_float) : py_float := if py_lt a b then b else a.

(** The argument of [safe_float], by what [float(value)] does with it. *)
Inductive float_arg : Type :=
| ArgNone                    (* [None] *)
| ArgFloat (x : py_float)    (* [float(value)] returns [x] *)
| ArgRaises (e : exn).       (* [float(value)] raises [e] *)

(** [isinstance(e, (TypeError, ValueError))], the exceptions that
    [safe_float] handles. *)
Definition is_TypeError_or_ValueError (e : exn) : bool :=
  match e with
  | TypeError | ValueError => true
  | _ => false
  end.

(** [safe_float]: any other exception of [float(value)] leaves the
    function. *)
Definition safe_float (value : float_arg) (default : R) : result py_float :=
  match value with
  | ArgNone => Ok (Finite default)
  | ArgFloat x => Ok x
  | ArgRaises e =>
      if is_TypeError_or_ValueError e then Ok (Finite default) else Raise e
  end.

(** [max(0.1, min(1.0, x))] on a float [x], which is always a number:
    [min(1.0, inf)] and [min(1.0, nan)] are [1.0], and
    [max(0.1, -inf)] is [0.1]. *)
Definition clamp_threshold (x : py_float) : R :=
  match x with
  | Finite x => Rmax 0.1 (Rmin 1.0 x)
  | Inf false => 1.0
  | Inf true => 0.1
  | NaN => 1.0
  end.

(** [set_recognition_threshold]:
    [max(0.1, min(1.0, self.safe_float(threshold, 0.6)))].  An exception
    of [safe_float] is raised before the attribute is assigned. *)
Definition set_recognition_threshold (self : KaleidoRecognizer)
    (threshold : float_arg) : result KaleidoRecognizer :=
  x ← safe_float threshold 0.6;
  Ok {| known_embeddings := known_embeddings self;
        known_names := known_names self;
        known_ids := known_ids self;
        known_photo_ids := known_photo_ids self;
        recognition_threshold := clamp_threshold x;
        _embedding_cache := _embedding_cache self |}.

(** The dictionary [get_model_info] returns. *)
Record model_info : Type := {
  info_loaded_embeddings : nat;
  info_unique_people : nat;
  info_recognition_threshold : R;
  info_min_detection_confidence : R;
  info_embedding_size : nat;
  info_cache_size : nat;
  info_show_landmarks : bool;
  info_status : string;
}.

(** [get_model_info]; [min_detection_confidence] and [show_landmarks]
    are the two attributes it reads besides those of the engine. *)
Definition get_model_info (self : KaleidoRecognizer)
    (min_detection_confidence : R) (show_landmarks : bool) : model_info :=
  let unique_people :=
    match known_ids self with
    | [] => 0%nat
    | _ => size (list_to_set (known_ids self) : gset Z)
    end in
  {| info_loaded_embeddings := length (known_embeddings self);
     info_unique_people := unique_people;
     info_recognition_threshold := recognition_threshold self;
     info_min_detection_confidence := min_detection_confidence;
     info_embedding_size := embedding_size;
     info_cache_size := size (_embedding_cache self);
     info_show_landmarks := show_landmarks;
     info_status :=
       if (0 <? length (known_embeddings self))%nat
       then "ready"%string else "needs_training"%string |}.

(** [recognize_face] with another threshold in place. *)
Definition with_threshold (t : R) (self : KaleidoRecognizer)
  : KaleidoRecognizer :=
  {| known_embeddings := known_embeddings self;
     known_names := known_names self;
     known_ids := known_ids self;
     known_photo_ids := known_photo_ids self;
     recognition_threshold := t;
     _embedding_cache := _embedding_cache self |}.

(** What the public operations keep true of the recognizer: aligned
    lists, and only vectors of [embedding_size] coordinates in the
    gallery and in the cache. *)
Definition well_formed (self : KaleidoRecognizer) : Prop :=
  aligned self /\
  Forall (fun e => length e = embedding_size) (known_embeddings self) /\
  map_Forall (fun (_ : Z) (e : vec) => length e = embedding_size)
             (_embedding_cache self).

(** ** Export and import of the gallery ([main_window.py]) *)

(** One dictionary of the exported list. *)
Record export_row : Type := {
  row_person_id : Z;
  row_photo_id : option Z;
  row_embedding : vec;
  row_name : string;
}.

(** The loop of [export_embeddings] that builds [embeddings_data]: one
    row per index of [known_embeddings], read off the four lists. *)
Fixpoint export_rows (self : KaleidoRecognizer) (indices : list nat)
  : result (list export_row) :=
  match indices with
  | [] => Ok []
  | i :: indices' =>
      person_id ← getitem (known_ids self) i;
      photo_id ← getitem (known_photo_ids self) i;
      embedding ← getitem (known_embeddings self) i;
      name ← getitem (known_names self) i;
      rows ← export_rows self indices';
      Ok ({| row_person_id := person_id; row_photo_id := photo_id;
             row_embedding := embedding; row_name := name |} :: rows)
  end.

Definition export_embeddings_data (self : KaleidoRecognizer)
  : result (list export_row) :=
  export_rows self (seq 0 (length (known_embeddings self))).

(** [' ' in name]. *)
Fixpoint has_space (s : string) : bool :=
  match s with
  | EmptyString => false
  | String c s' => if Ascii.eqb c " " then true else has_space s'
  end.

(** [name.split(' ')[0]]: the characters before the first space. *)
Fixpoint split_head (s : string) : string :=
  match s with
  | EmptyString => EmptyString
  | String c s' =>
      if Ascii.eqb c " " then EmptyString else String c (split_head s')
  end.

(** The ['last_name'] that [import_embeddings] derives from a row. *)
Definition import_last_name (name : string) : string :=
  if has_space name then split_head name else name.

(** The loop of [import_embeddings] over the rows read from the file. *)
Fixpoint import_rows (self : KaleidoRecognizer) (rows : list export_row)
    (imported_count : nat) : KaleidoRecognizer * nat :=
  match rows with
  | [] => (self, imported_count)
  | data :: rows' =>
      let embedding := row_embedding data in
      let person := {| pd_id := Some (row_person_id data);
                       pd_last_name := Some (import_last_name (row_name data));
                       pd_first_name := None |} in
      let '(self, ok) :=
        add_existing_embedding self (Some embedding) person
          (row_photo_id data) in
      import_rows self rows'
        (if ok then imported_count + 1 else imported_count)%nat
  end.

Definition import_embeddings_data (self : KaleidoRecognizer)
    (rows : list export_row) : KaleidoRecognizer * nat :=
  import_rows self rows 0.

(** The name an exported entry carries after it has been imported. *)
Definition imported_name (name : string) : string :=
  py_strip (String.append (import_last_name name) (String.append " " "")).

(** The exported row of a gallery entry, and the entry an imported row
    becomes. *)
Definition row_of_entry (en : entry) : export_row :=
  {| row_person_id := entry_id en;
     row_photo_id := entry_photo_id en;
     row_embedding := entry_embedding en;
     row_name := entry_name en |}.

Definition entry_of_row (data : export_row) : entry :=
  {| entry_embedding := row_embedding data;
     entry_name := imported_name (row_name data);
     entry_id := row_person_id data;
     entry_photo_id := row_photo_id data |}.

Section MainWindow.

Context `{Vision} {DB : Type} `{!Database DB}.

(** The loop of [batch_train_all] ([main_window.py]), once the user has
    confirmed: neither [get_all_people] nor [person['id']] is guarded. *)
Fixpoint batch_train_all_loop (people : list person_data)
    (self : KaleidoRecognizer) (database : DB) (total_trained : nat)
  : KaleidoRecognizer * DB * result nat :=
  match people with
  | [] => (self, database, Ok total_trained)
  | person :: people' =>
      match pd_id person with
      | None => (self, database, Raise (KeyError "id"))
      | Some person_id =>
          let person_name :=
            String.append (default EmptyString (pd_last_name person))
              (String.append " " (default EmptyString (pd_first_name person))) in
          let '(self, database, trained_count) :=
            batch_train_person self person_id person_name database in
          batch_train_all_loop people' self database
            (total_trained + trained_count)
      end
  end.

Definition batch_train_all (self : KaleidoRecognizer) (database : DB)
  : KaleidoRecognizer * DB * result nat :=
  match get_all_people database with
  | Raise e => (self, database, Raise e)
  | Ok people => batch_train_all_loop people self database 0
  end.

(** The operations the presentation layer performs on the engine. *)
Inductive operation : Type :=
| OpTrainFromImage (image : Image) (person : person_data) (photo_id : option Z)
| OpTrainFromPil (pil_image : PILImage) (person : person_data)
    (photo_id : option Z)
| OpAddExisting (embedding : option vec) (person : person_data)
    (photo_id : option Z)
| OpBatchTrainPerson (person_id : Z) (person_name : string)
| OpBatchTrainAll
| OpLoad
| OpImport (rows : list export_row)
| OpRemove (photo_id : option Z)
| OpClear
| OpSetThreshold (threshold : float_arg).

(** The recognizer and the store after one operation, whatever it
    returned; a setter that raises has assigned nothing. *)
Definition apply_operation (state : KaleidoRecognizer * DB) (op : operation)
  : KaleidoRecognizer * DB :=
  let '(self, database) := state in
  match op with
  | OpTrainFromImage image person photo_id =>
      (fst (train_from_image self image person photo_id), database)
  | OpTrainFromPil pil_image person photo_id =>
      (fst (train_from_pil self pil_image person photo_id), database)
  | OpAddExisting embedding person photo_id =>
      (fst (add_existing_embedding self embedding person photo_id), database)
  | OpBatchTrainPerson person_id person_name =>
      fst (batch_train_person self person_id person_name database)
  | OpBatchTrainAll => fst (batch_train_all self database)
  | OpLoad => (fst (load_embeddings_from_database self database), database)
  | OpImport rows => (fst (import_embeddings_data self rows), database)
  | OpRemove photo_id =>
      (fst (remove_embedding_by_photo_id self photo_id), database)
  | OpClear => (clear_embeddings self, database)
  | OpSetThreshold threshold =>
      match set_recognition_threshold self threshold with
      | Ok self => (self, database)
      | Raise _ => (self, database)
      end
  end.

End MainWindow.

(** ** Stores that can be read for a person *)

(** The name that [batch_train_all] passes for a person:
    [f"{person.get('last_name', '')} {person.get('first_name', '')}"]. *)
Definition full_name_of (person : person_data) : string :=
  String.append (default EmptyString (pd_last_name person))
    (String.append " " (default EmptyString (pd_first_name person))).

(** The stores reached from [database] by the write-backs of batch
    training: calls of [update_photo_embedding] with a vector of
    [embedding_size] coordinates. *)
Inductive store_after `{Vision} {DB : Type} `{!Database DB} (database : DB)
  : DB -> Prop :=
| store_after_refl : store_after database database
| store_after_update (d : DB) (p : Z) (embedding : vec) :
    store_after database d ->
    length embedding = embedding_size ->
    store_after database (fst (update_photo_embedding d p embedding)).

(** A photo that the store [d] lets [batch_train_person] train on: its
    stored embedding, or else its image, is read without an exception
    and gives a vector of [embedding_size] coordinates. *)
Definition photo_trainable `{Vision} {DB : Type} `{!Database DB} (d : DB)
    (ph : photo) : Prop :=
  if has_face_embedding ph
  then exists embedding,
         get_photo_embedding d (photo_id ph) = Ok (Some embedding) /\
         length embedding = embedding_size
  else exists pil_image,
         get_photo_as_image d (photo_id ph) = Ok (Some pil_image) /\
         is_Some (extract_embedding_from_pil pil_image).

(** The store answers for the photos of a person, whose ids are [ids],
    now and after any write-back. *)
Definition person_trainable `{Vision} {DB : Type} `{!Database DB}
    (database : DB) (person_id : Z) (ids : list Z) : Prop :=
  forall d, store_after database d ->
    exists photos,
      get_person_photos d person_id = Ok photos /\
      map photo_id photos = ids /\
      Forall (fun ph => forall d', store_after d d' -> photo_trainable d' ph)
             photos.

(** The gallery [g] holds an entry that batch training made of the
    photo [p] of a person. *)
Definition trained_on (g : list entry) (person_id : Z) (person_name : string)
    (p : Z) : Prop :=
  exists en,
    en ∈ g /\ batch_entry person_id person_name en /\
    entry_photo_id en = Some p.

(** ** The decorators of [error_handler.py] *)

Module ErrorHandler.

(** The Python values the decorators handle. *)
#[local] Unset Elimination Schemes.
Inductive py_value : Type :=
| PyNone
| PyFloat (x : R)
| PyInt (z : Z)
| PyStr (s : string)
| PyTuple (items : list py_value).
#[local] Set Elimination Schemes.

(** An exception with the text [str(e)] gives. *)
Inductive py_exception : Type :=
| PyValueError (msg : string)
| PyException (kind msg : string).   (* any other subclass of Exception *)

(** What a call of the wrapped function does. *)
Inductive outcome : Type :=
| Returns (v : py_value)
| Raises (e : py_exception).

(** [len(v)]; [None] where it raises TypeError. *)
Definition py_len (v : py_value) : option nat :=
  match v with
  | PyStr s => Some (String.length s)
  | PyTuple items => Some (length items)
  | _ => None
  end.

(** [pattern in text] on strings. *)
Definition contains (pattern text : string) : bool :=
  match String.index 0 pattern text with
  | Some _ => true
  | None => false
  end.

(** [handle_unpacking_errors], applied to what the call of [func] did. *)
Definition handle_unpacking_errors (call : outcome) : outcome :=
  match call with
  | Returns v => Returns v
  | Raises (PyValueError msg) =>
      if contains "not enough values to unpack" msg then
        if contains "expected 3" msg
        then Returns (PyTuple [PyNone; PyFloat 0; PyNone])
        else if contains "expected 2" msg
             then Returns (PyTuple [PyNone; PyNone])
             else Raises (PyValueError msg)
      else Raises (PyValueError msg)
  | Raises e => Raises e
  end.

(** The wrapper of [safe_unpack_three] and [safe_unpack_two] for a
    wanted length [n]: the [len] of a result without length raises inside
    the [try]. *)
Definition safe_unpack (n : nat) (defaults : py_value) (call : outcome)
  : py_value :=
  match call with
  | Returns result =>
      match py_len result with
      | Some len => if (len =? n)%nat then result else defaults
      | None => defaults
      end
  | Raises _ => defaults
  end.

(** [safe_unpack_three(defaults)]. *)
Definition safe_unpack_three (defaults : py_value) (call : outcome) : py_value :=
  safe_unpack 3 defaults call.

(** [safe_unpack_two(defaults)]. *)
Definition safe_unpack_two (defaults : py_value) (call : outcome) : py_value :=
  safe_unpack 2 defaults call.

Definition default_three : py_value := PyTuple [PyNone; PyFloat 0; PyNone].
Definition default_two : py_value := PyTuple [PyNone; PyNone].

End ErrorHandler.

(** ** Facts about sums, means and deviations *)

Section NumericFacts.

Lemma sum_cons (x : R) (v : vec) : Np.sum (x :: v) = x + Np.sum v.
Proof. reflexivity. Qed.

Lemma sum_replicate (n : nat) (c : R) : Np.sum (replicate n c) = INR n * c.
Proof.
  induction n as [|n IH].
  - simpl. lra.
  - rewrite S_INR. cbn [replicate]. rewrite sum_cons, IH. lra.
Qed.

Lemma sum_map_affine (a b : R) (v : vec) :
  Np.sum (map (fun x => a * x + b) v) = a * Np.sum v + INR (length v) * b.
Proof.
  induction v as [|x v IH].
  - simpl. lra.
  - cbn [map length]. rewrite S_INR, !sum_cons, IH. lra.
Qed.

Lemma sum_map_scale (a : R) (f : R -> R) (v : vec) :
  Np.sum (map (fun x => a * f x) v) = a * Np.sum (map f v).
Proof.
  induction v as [|x v IH].
  - simpl. lra.
  - cbn [map]. rewrite !sum_cons, IH. lra.
Qed.

Lemma sum_map_ext (f g : R -> R) (v : vec) :
  (forall x, f x = g x) -> Np.sum (map f v) = Np.sum (map g v).
Proof.
  intros Hfg. induction v as [|x v IH]; [reflexivity|].
  cbn [map]. rewrite !sum_cons, IH, Hfg. reflexivity.
Qed.

Lemma sum_sq_nonneg (f : R -> R) (v : vec) :
  0 <= Np.sum (map (fun x => f x ^ 2) v).
Proof.
  induction v as [|x v IH].
  - simpl. lra.
  - cbn [map]. rewrite sum_cons. pose proof (pow2_ge_0 (f x)). lra.
Qed.

Lemma sum_sq_zero (f : R -> R) (v : vec) :
  Np.sum (map (fun x => f x ^ 2) v) = 0 -> Forall (fun x => f x = 0) v.
Proof.
  induction v as [|x v IH]; intros Hs.
  - constructor.
  - cbn [map] in Hs. rewrite sum_cons in Hs.
    pose proof (pow2_ge_0 (f x)) as Hx.
    pose proof (sum_sq_nonneg f v) as Hv.
    constructor.
    + assert (Hz : f x ^ 2 = 0) by lra.
      destruct (Req_dec (f x) 0) as [E|E]; [exact E|].
      exfalso. apply (pow_nonzero _ 2) in E. contradiction.
    + apply IH. lra.
Qed.

Lemma sum_sq_pos (f : R -> R) (v : vec) (x : R) :
  x ∈ v -> f x <> 0 -> 0 < Np.sum (map (fun x => f x ^ 2) v).
Proof.
  intros Hin Hne.
  destruct (Rle_lt_dec (Np.sum (map (fun x => f x ^ 2) v)) 0) as [Hle|Hlt];
    [|exact Hlt].
  exfalso. apply Hne.
  pose proof (sum_sq_nonneg f v) as Hge.
  assert (Hz : Np.sum (map (fun x => f x ^ 2) v) = 0) by lra.
  apply sum_sq_zero in Hz.
  rewrite Forall_forall in Hz. apply Hz, Hin.
Qed.

Lemma std_variance (v : vec) : Np.std v = sqrt (variance v).
Proof. reflexivity. Qed.

Lemma variance_eq (v : vec) :
  variance v = Np.sum (map (fun x => (x - Np.mean v) ^ 2) v) / INR (length v).
Proof.
  unfold variance, Np.mean at 1. rewrite length_map. f_equal.
  apply sum_map_ext. intros x. apply pow2_abs.
Qed.

Lemma variance_nonneg (v : vec) : 0 <= variance v.
Proof.
  rewrite variance_eq. destruct v as [|x v].
  - simpl. unfold Rdiv. rewrite Rinv_0. lra.
  - apply Rmult_le_pos; [apply sum_sq_nonneg|].
    left. apply Rinv_0_lt_compat, lt_0_INR. simpl. lia.
Qed.

Lemma std_nonneg (v : vec) : 0 <= Np.std v.
Proof. apply sqrt_pos. Qed.

Lemma std_sqr (v : vec) : Np.std v * Np.std v = variance v.
Proof. rewrite std_variance. apply sqrt_sqrt, variance_nonneg. Qed.

Lemma std_pos_of_elem (v : vec) (x : R) :
  x ∈ v -> x <> Np.mean v -> 0 < Np.std v.
Proof.
  intros Hin Hne. rewrite std_variance. apply sqrt_lt_R0.
  rewrite variance_eq. apply Rmult_lt_0_compat.
  - apply (sum_sq_pos (fun x => x - Np.mean v) v x Hin). lra.
  - apply Rinv_0_lt_compat, lt_0_INR.
    destruct v; [inversion Hin | simpl; lia].
Qed.

Lemma std_zero_all_mean (v : vec) :
  v <> [] -> Np.std v = 0 -> Forall (fun x => x = Np.mean v) v.
Proof.
  intros Hne Hs. rewrite std_variance in Hs.
  apply sqrt_eq_0 in Hs; [|apply variance_nonneg].
  rewrite variance_eq in Hs.
  assert (Hlen : 0 < INR (length v)).
  { apply lt_0_INR. destruct v; [congruence | simpl; lia]. }
  assert (Hsum : Np.sum (map (fun x => (x - Np.mean v) ^ 2) v) = 0).
  { apply (Rmult_eq_compat_r (INR (length v))) in Hs.
    unfold Rdiv in Hs. rewrite Rmult_assoc, Rinv_l, Rmult_1_r, Rmult_0_l in Hs
      by lra. exact Hs. }
  apply (sum_sq_zero (fun x => x - Np.mean v)) in Hsum.
  eapply Forall_impl; [exact Hsum|]. simpl. intros x Hx. lra.
Qed.

Lemma map_const_replicate (c : R) (f : R -> R) (v : vec) :
  Forall (fun x => f x = c) v -> map f v = replicate (length v) c.
Proof.
  induction 1 as [|x v Hx _ IH]; [reflexivity|].
  cbn [map length replicate]. rewrite Hx, IH. reflexivity.
Qed.

(** Standardising with a positive deviation centres the vector. *)
Lemma mean_standardized (v : vec) (s : R) :
  v <> [] -> s <> 0 ->
  Np.mean (map (fun x => (x - Np.mean v) / s) v) = 0.
Proof.
  intros Hne Hs.
  assert (Hlen : INR (length v) <> 0).
  { apply not_0_INR. destruct v; [congruence | simpl; lia]. }
  unfold Np.mean at 1. rewrite length_map.
  rewrite (sum_map_ext _ (fun x => / s * x + - (Np.mean v / s))) by
    (intros x; field; exact Hs).
  rewrite sum_map_affine. unfold Np.mean. field. split; assumption.
Qed.

(** ... and scales its deviation to one. *)
Lemma std_standardized (v : vec) :
  v <> [] -> 0 < Np.std v ->
  Np.std (map (fun x => (x - Np.mean v) / Np.std v) v) = 1.
Proof.
  intros Hne Hs.
  assert (Hs0 : Np.std v <> 0) by lra.
  assert (Hlen : INR (length v) <> 0).
  { apply not_0_INR. destruct v; [congruence | simpl; lia]. }
  rewrite std_variance, variance_eq, mean_standardized by assumption.
  rewrite length_map, map_map.
  rewrite (sum_map_ext _
             (fun x => / (Np.std v * Np.std v) * (x - Np.mean v) ^ 2)) by
    (intros x; field; exact Hs0).
  rewrite (sum_map_scale _ (fun x => (x - Np.mean v) ^ 2)).
  replace (/ (Np.std v * Np.std v) *
           Np.sum (map (fun x => (x - Np.mean v) ^ 2) v) / INR (length v))
    with (variance v / (Np.std v * Np.std v)) by
    (rewrite variance_eq; field; split; assumption).
  rewrite std_sqr.
  assert (Hv : variance v <> 0) by (rewrite <- std_sqr; nra).
  unfold Rdiv. rewrite Rinv_r by exact Hv. apply sqrt_1.
Qed.

End NumericFacts.

(** ** Standardisation *)

Section Standardize.

Lemma embedding_size_eq : embedding_size = 1404%nat.
Proof. reflexivity. Qed.

Lemma nonempty_of_size (v : vec) : length v = embedding_size -> v <> [].
Proof. intros Hlen ->. discriminate Hlen. Qed.

Lemma normalize_pos (v : vec) :
  0 < Np.std v ->
  _normalize_embedding v = map (fun x => (x - Np.mean v) / Np.std v) v.
Proof.
  intros Hs. unfold _normalize_embedding.
  destruct (Rgt_dec (Np.std v) 0) as [_|Hn]; [reflexivity|].
  exfalso. apply Hn. exact Hs.
Qed.

Lemma normalize_zero (v : vec) :
  Np.std v = 0 -> _normalize_embedding v = map (fun x => x - Np.mean v) v.
Proof.
  intros Hs. unfold _normalize_embedding.
  destruct (Rgt_dec (Np.std v) 0) as [Hp|_]; [|reflexivity].
  exfalso. unfold Rgt in Hp. lra.
Qed.

Lemma unit_vec_length : length unit_vec = embedding_size.
Proof. unfold unit_vec. cbn [length]. rewrite length_replicate. reflexivity. Qed.

Lemma flat_vec_length : length flat_vec = embedding_size.
Proof. unfold flat_vec. rewrite length_replicate. reflexivity. Qed.

Lemma unit_vec_mean : Np.mean unit_vec = 1 / 1404.
Proof.
  unfold Np.mean. rewrite unit_vec_length, embedding_size_eq.
  unfold unit_vec. rewrite sum_cons, sum_replicate, Rmult_0_r, INR_IZR_INZ.
  change (Z.of_nat 1404) with 1404%Z. lra.
Qed.

Lemma unit_vec_std : Np.std unit_vec <> 0.
Proof.
  assert (H : 0 < Np.std unit_vec); [|lra].
  apply (std_pos_of_elem unit_vec 1).
  - unfold unit_vec. apply list_elem_of_here.
  - rewrite unit_vec_mean. lra.
Qed.

Lemma flat_vec_std : Np.std flat_vec = 0.
Proof.
  assert (Hm : Np.mean flat_vec = 0).
  { unfold Np.mean, flat_vec. rewrite sum_replicate. lra. }
  rewrite std_variance, variance_eq, Hm.
  replace (Np.sum (map (fun x => (x - 0) ^ 2) flat_vec)) with 0.
  - unfold Rdiv. rewrite Rmult_0_l. apply sqrt_0.
  - unfold flat_vec.
    rewrite (map_const_replicate 0 (fun x => (x - 0) ^ 2)).
    + rewrite sum_replicate. lra.
    + apply Forall_forall. intros x Hx.
      apply elem_of_replicate in Hx as [-> _]. lra.
Qed.

(** C4.  For a vector of [embedding_size] coordinates:
    when its standard deviation is nonzero, [_normalize_embedding]
    subtracts the mean and divides by the deviation, and the outcome has
    mean 0 and standard deviation 1; when the deviation is zero, only
    the mean is subtracted and the outcome is the zero vector. *)
Theorem normalize_embedding_standardizes (v : vec) :
  length v = embedding_size ->
  (Np.std v <> 0 ->
     _normalize_embedding v = map (fun x => (x - Np.mean v) / Np.std v) v /\
     Np.mean (_normalize_embedding v) = 0 /\
     Np.std (_normalize_embedding v) = 1) /\
  (Np.std v = 0 ->
     _normalize_embedding v = map (fun x => x - Np.mean v) v /\
     _normalize_embedding v = replicate embedding_size 0).
Proof.
  intros Hlen. pose proof (nonempty_of_size v Hlen) as Hne.
  split.
  - intros Hs.
    assert (Hpos : 0 < Np.std v) by (pose proof (std_nonneg v); lra).
    rewrite (normalize_pos v Hpos). split; [reflexivity|]. split.
    + apply mean_standardized; assumption.
    + apply std_standardized; assumption.
  - intros Hs. rewrite (normalize_zero v Hs). split; [reflexivity|].
    rewrite <- Hlen. apply map_const_replicate.
    eapply Forall_impl; [apply (std_zero_all_mean v Hne Hs)|].
    simpl. intros x Hx. lra.
Qed.

Lemma normalize_embedding_standardizes_witness :
  (Np.mean (_normalize_embedding unit_vec) = 0 /\
   Np.std (_normalize_embedding unit_vec) = 1) /\
  _normalize_embedding flat_vec = replicate embedding_size 0.
Proof.
  split.
  - apply (proj1 (normalize_embedding_standardizes unit_vec unit_vec_length)
             unit_vec_std).
  - apply (proj2 (normalize_embedding_standardizes flat_vec flat_vec_length)
             flat_vec_std).
Defined.

End Standardize.

(** ** The matcher: the scan of [recognize_face] *)

Section Matcher.

Variable self : KaleidoRecognizer.
Variable embedding : vec.

Let sim := _calculate_similarity embedding.
Let tau := recognition_threshold self.

Lemma getitem_lookup {A : Type} (l : list A) (i : nat) (a : A) :
  l !! i = Some a -> getitem l i = Ok a.
Proof. intros E. unfold getitem. rewrite E. reflexivity. Qed.

Lemma recognize_step_keep (best : match_result) (i : nat) (k : vec) :
  ~ (sim k > snd (fst best) /\ sim k > tau) ->
  recognize_step self embedding best (i, k) = Ok best.
Proof.
  intros Hn. destruct best as [[bid bsim] bp]. cbn [fst snd] in Hn.
  unfold recognize_step.
  destruct (Rgt_dec _ bsim) as [H1|H1]; [|reflexivity].
  destruct (Rgt_dec _ _) as [H2|H2]; [|reflexivity].
  exfalso. apply Hn. split; assumption.
Qed.

Lemma recognize_step_replace (best : match_result) (i : nat) (k : vec)
    (id : Z) (p : option Z) :
  sim k > snd (fst best) -> sim k > tau ->
  known_ids self !! i = Some id -> known_photo_ids self !! i = Some p ->
  recognize_step self embedding best (i, k) = Ok (Some id, sim k, p).
Proof.
  intros H1 H2 Hid Hp. destruct best as [[bid bsim] bp]. cbn [fst snd] in H1.
  unfold recognize_step.
  destruct (Rgt_dec _ bsim) as [_|N]; [|contradiction].
  destruct (Rgt_dec _ _) as [_|N]; [|contradiction].
  rewrite (getitem_lookup _ _ _ Hid), (getitem_lookup _ _ _ Hp). reflexivity.
Qed.

(** A scan over vectors none of which beats the threshold leaves the
    running best as it was. *)
Lemma recognize_loop_below (items : list (nat * vec)) (best : match_result) :
  Forall (fun item => sim (snd item) <= tau) items ->
  recognize_loop self embedding items best = Ok best.
Proof.
  induction 1 as [|[i k] items Hk _ IH]; [reflexivity|].
  cbn [recognize_loop]. rewrite recognize_step_keep.
  - exact IH.
  - cbn [snd] in Hk. intros [_ Hgt]. unfold Rgt in Hgt. lra.
Qed.

Lemma enumerate_from_snd {A : Type} (P : A -> Prop) (l : list A) (n : nat) :
  Forall P l -> Forall (fun item => P (snd item)) (enumerate_from n l).
Proof.
  intros Hl. revert n. induction Hl as [|a l Ha _ IH]; intros n.
  - constructor.
  - cbn [enumerate_from]. constructor; [exact Ha | apply IH].
Qed.

Hypothesis Haligned : aligned self.

Lemma aligned_lookup (pre suf : list vec) (k : vec) :
  pre ++ k :: suf = known_embeddings self ->
  exists id p, known_ids self !! length pre = Some id /\
               known_photo_ids self !! length pre = Some p.
Proof.
  intros Hsplit. destruct Haligned as (_ & Hids & Hps).
  assert (Hlt : (length pre < length (known_embeddings self))%nat).
  { rewrite <- Hsplit, length_app. cbn [length]. lia. }
  destruct (lookup_lt_is_Some_2 (known_ids self) (length pre)) as [id Hid];
    [lia|].
  destruct (lookup_lt_is_Some_2 (known_photo_ids self) (length pre))
    as [p Hp]; [lia|].
  eauto.
Qed.

Local Ltac scan_arith :=
  cbn [fst snd] in *; unfold sim, tau, Rgt in *; lra.

(** One iteration extends what the scan has established by one vector. *)
Lemma recognize_step_outcome (pre suf : list vec) (k : vec)
    (best : match_result) :
  pre ++ k :: suf = known_embeddings self ->
  scan_outcome self embedding pre best ->
  exists best',
    recognize_step self embedding best (length pre, k) = Ok best' /\
    scan_outcome self embedding (pre ++ [k]) best'.
Proof.
  intros Hsplit Hout.
  destruct (aligned_lookup pre suf k Hsplit) as (id & p & Hid & Hp).
  destruct (Rgt_dec (sim k) (snd (fst best))) as [Hgt|Hle];
    [destruct (Rgt_dec (sim k) tau) as [Htau|Htau]|].
  - (* the candidate replaces the running best *)
    exists (Some id, sim k, p). split.
    { apply recognize_step_replace; assumption. }
    right. exists (length pre), k, id, p.
    assert (Hprev : forall j k', pre !! j = Some k' -> sim k' < sim k).
    { intros j k' Hj. destruct Hout as [[-> Hnone]|Hbest].
      - unfold no_candidate in Hnone. rewrite Forall_forall in Hnone.
        specialize (Hnone k' (list_elem_of_lookup_2 _ _ _ Hj)).
        destruct (Rle_lt_dec (sim k') 0); [scan_arith|].
        destruct (Rle_lt_dec (sim k') tau); [scan_arith|].
        exfalso. apply Hnone. split; assumption.
      - destruct Hbest as (i & k0 & id0 & p0 & _ & _ & _ & -> & _ & _ & _ & Hmax).
        specialize (Hmax j k' Hj). scan_arith. }
    assert (Hpos : sim k > 0).
    { destruct Hout as [[-> _]|Hbest].
      - exact Hgt.
      - destruct Hbest as (i & k0 & id0 & p0 & _ & _ & _ & -> & _ & H0 & _).
        scan_arith. }
    repeat split; try assumption.
    + rewrite lookup_app_r, Nat.sub_diag by lia. reflexivity.
    + intros j k' Hj Hlook. rewrite lookup_app_l in Hlook by lia.
      eapply Hprev, Hlook.
    + intros j k' Hlook.
      destruct (decide (j < length pre)%nat) as [Hlt|Hge].
      * rewrite lookup_app_l in Hlook by lia. left. eapply Hprev, Hlook.
      * rewrite lookup_app_r in Hlook by lia.
        destruct (j - length pre)%nat as [|n] eqn:E; cbn in Hlook.
        -- injection Hlook as <-. scan_arith.
        -- discriminate.
  - (* above the running best but not above the threshold *)
    exists best. split.
    { apply recognize_step_keep. intros [_ H2]. contradiction. }
    destruct Hout as [[-> Hnone]|Hbest].
    + left. split; [reflexivity|]. unfold no_candidate.
      apply Forall_app. split; [exact Hnone|]. constructor; [|constructor].
      intros [_ H2]. contradiction.
    + exfalso.
      destruct Hbest as (i & k0 & id0 & p0 & _ & _ & _ & -> & Hk0 & _).
      scan_arith.
  - (* not above the running best *)
    exists best. split.
    { apply recognize_step_keep. intros [H1 _]. contradiction. }
    destruct Hout as [[-> Hnone]|Hbest].
    + left. split; [reflexivity|]. unfold no_candidate.
      apply Forall_app. split; [exact Hnone|]. constructor; [|constructor].
      intros [H1 _]. contradiction.
    + right.
      destruct Hbest as (i & k0 & id0 & p0 & Hi & Hid0 & Hp0 & -> & Hk0 & H0
                         & Hbefore & Hmax).
      exists i, k0, id0, p0.
      assert (Hlt : (i < length pre)%nat) by (eapply lookup_lt_Some, Hi).
      repeat split; try assumption.
      * rewrite lookup_app_l by lia. exact Hi.
      * intros j k' Hj Hlook. rewrite lookup_app_l in Hlook by lia.
        eapply Hbefore; eassumption.
      * intros j k' Hlook.
        destruct (decide (j < length pre)%nat) as [Hj|Hj].
        -- rewrite lookup_app_l in Hlook by lia. eapply Hmax, Hlook.
        -- rewrite lookup_app_r in Hlook by lia.
           destruct (j - length pre)%nat as [|n] eqn:E; cbn in Hlook.
           ++ injection Hlook as <-. scan_arith.
           ++ discriminate.
Qed.

Lemma recognize_loop_outcome (suf pre : list vec) (best : match_result) :
  pre ++ suf = known_embeddings self ->
  scan_outcome self embedding pre best ->
  exists r,
    recognize_loop self embedding (enumerate_from (length pre) suf) best = Ok r /\
    scan_outcome self embedding (known_embeddings self) r.
Proof.
  revert pre best. induction suf as [|k suf IH]; intros pre best Hsplit Hout.
  - exists best. split; [reflexivity|].
    rewrite <- Hsplit, app_nil_r. exact Hout.
  - destruct (recognize_step_outcome pre suf k best Hsplit Hout)
      as (best' & Hstep & Hout').
    destruct (IH (pre ++ [k]) best') as (r & Hloop & Hr).
    + rewrite <- app_assoc. exact Hsplit.
    + exact Hout'.
    + exists r. split; [|exact Hr].
      cbn [enumerate_from recognize_loop]. rewrite Hstep.
      rewrite length_app in Hloop. cbn [length] in Hloop.
      replace (length pre + 1)%nat with (S (length pre)) in Hloop by lia.
      exact Hloop.
Qed.

(** On an aligned gallery [recognize_face] returns, and what it returns
    is described by [scan_outcome] over the whole gallery. *)
Lemma recognize_face_outcome :
  exists r,
    recognize_face self (Some embedding) = Ok r /\
    scan_outcome self embedding (known_embeddings self) r.
Proof.
  unfold recognize_face.
  destruct (known_embeddings self) as [|k ks] eqn:E.
  - exists (None, 0, None). split; [reflexivity|].
    left. split; [reflexivity | constructor].
  - cbn [length Nat.eqb]. rewrite <- E.
    apply (recognize_loop_outcome (known_embeddings self) []).
    + reflexivity.
    + left. split; [reflexivity | constructor].
Qed.

End Matcher.

(** ** The matcher: what [recognize_face] returns *)

Section Recognition.

(** C1.  One iteration of the scan replaces the running best only when
    the candidate's similarity is strictly above both the running best
    similarity and the threshold, and then records the candidate's id
    and photo id.  Hence, on an aligned gallery, [recognize_face]
    returns either the no-match triple, when no candidate is above the
    threshold, or the entry at the first index attaining the greatest
    similarity: its similarity is above the threshold, every earlier
    entry is strictly less similar (an equal later candidate does not
    displace it), and a single candidate at or below the threshold does
    not win. *)
Theorem recognize_face_strict_first_best (self : KaleidoRecognizer)
    (embedding : vec) :
  aligned self ->
  (forall (best : match_result) (i : nat) (k : vec),
     (~ (_calculate_similarity embedding k > snd (fst best) /\
         _calculate_similarity embedding k > recognition_threshold self) ->
      recognize_step self embedding best (i, k) = Ok best) /\
     (forall best', recognize_step self embedding best (i, k) = Ok best' ->
        best' <> best ->
        _calculate_similarity embedding k > snd (fst best) /\
        _calculate_similarity embedding k > recognition_threshold self /\
        exists id p, known_ids self !! i = Some id /\
                     known_photo_ids self !! i = Some p /\
                     best' = (Some id, _calculate_similarity embedding k, p))) /\
  exists r,
    recognize_face self (Some embedding) = Ok r /\
    ((r = (None, 0, None) /\
      no_candidate self embedding (known_embeddings self)) \/
     first_best self embedding (known_embeddings self) r) /\
    (forall k, known_embeddings self = [k] ->
       _calculate_similarity embedding k <= recognition_threshold self ->
       r = (None, 0, None)).
Proof.
  intros Hal. split.
  - intros best i k. split.
    + apply recognize_step_keep.
    + intros best' Hstep Hne.
      destruct best as [[bid bsim] bp]. cbn [fst snd].
      unfold recognize_step in Hstep.
      destruct (Rgt_dec _ bsim) as [H1|H1]; [|congruence].
      destruct (Rgt_dec _ _) as [H2|H2]; [|congruence].
      split; [exact H1|]. split; [exact H2|].
      unfold getitem in Hstep.
      destruct (known_ids self !! i) as [id|]; [|discriminate].
      destruct (known_photo_ids self !! i) as [p|]; [|discriminate].
      exists id, p. cbn in Hstep. injection Hstep as <-. auto.
  - destruct (recognize_face_outcome self embedding Hal) as (r & Hr & Hout).
    exists r. split; [exact Hr|]. split; [exact Hout|].
    intros k Hk Hle. destruct Hout as [[-> _]|Hbest]; [reflexivity|].
    exfalso.
    destruct Hbest as (i & k0 & id & p & Hi & _ & _ & _ & Hgt & _).
    rewrite Hk in Hi. destruct i as [|i]; cbn in Hi; [|discriminate].
    injection Hi as <-. unfold Rgt in Hgt. lra.
Qed.

(** C2.  [recognize_face] returns exactly [(None, 0.0, None)] when the
    query embedding is absent, when the gallery is empty, and when every
    gallery entry's similarity to the query is at most the threshold. *)
Theorem recognize_face_no_match (self : KaleidoRecognizer) :
  recognize_face self None = Ok (None, 0, None) /\
  (known_embeddings self = [] ->
   forall embedding, recognize_face self embedding = Ok (None, 0, None)) /\
  (forall embedding,
     Forall (fun k => _calculate_similarity embedding k
                      <= recognition_threshold self)
            (known_embeddings self) ->
     recognize_face self (Some embedding) = Ok (None, 0, None)).
Proof.
  split; [reflexivity|]. split.
  - intros E [embedding|]; [|reflexivity].
    unfold recognize_face. rewrite E. reflexivity.
  - intros embedding Hall. unfold recognize_face.
    destruct (length (known_embeddings self) =? 0)%nat; [reflexivity|].
    apply recognize_loop_below.
    apply (enumerate_from_snd
             (fun k => _calculate_similarity embedding k
                       <= recognition_threshold self)).
    exact Hall.
Qed.

End Recognition.

(** ** Similarity of a vector with itself and with an orthogonal one *)

Section Similarity.

Lemma norm_nonneg (v : vec) : 0 <= Np.norm v.
Proof. apply sqrt_pos. Qed.

Lemma norm_sqr (v : vec) :
  Np.norm v * Np.norm v = Np.sum (map (fun x => Rabs x ^ 2) v).
Proof. unfold Np.norm. apply sqrt_sqrt, (sum_sq_nonneg Rabs). Qed.

Lemma norm_pos (v : vec) : Exists (fun x => x <> 0) v -> 0 < Np.norm v.
Proof.
  intros Hex. unfold Np.norm. apply sqrt_lt_R0.
  apply Exists_exists in Hex as (x & Hin & Hx).
  apply (sum_sq_pos Rabs v x Hin). apply Rabs_no_R0, Hx.
Qed.

Lemma guarded_norm_pos (v : vec) : 0 < Np.norm v + norm_eps.
Proof. pose proof (norm_nonneg v). unfold norm_eps. lra. Qed.

Lemma sum_zip_scaled (c d : R) (a b : vec) :
  Np.sum (zip_with Rmult (map (fun x => x / c) a) (map (fun x => x / d) b))
  = Np.sum (zip_with Rmult a b) / (c * d).
Proof.
  revert b. induction a as [|x a IH]; intros [|y b]; cbn [map zip_with].
  1-3: cbn; unfold Rdiv; ring.
  rewrite !sum_cons, IH.
  destruct (Req_dec c 0) as [->|Hc].
  { unfold Rdiv. rewrite !Rmult_0_l, Rinv_0. ring. }
  destruct (Req_dec d 0) as [->|Hd].
  { unfold Rdiv. rewrite !Rmult_0_r, Rinv_0. ring. }
  field. split; assumption.
Qed.

Lemma sum_zip_self (v : vec) :
  Np.sum (zip_with Rmult v v) = Np.sum (map (fun x => Rabs x ^ 2) v).
Proof.
  induction v as [|x v IH]; [reflexivity|].
  cbn [map zip_with]. rewrite !sum_cons, IH, pow2_abs. ring.
Qed.

(** The similarity of two vectors of the same length. *)
Lemma similarity_same_length (a b : vec) :
  length a = length b ->
  _calculate_similarity a b =
  (Np.sum (zip_with Rmult a b)
   / ((Np.norm a + norm_eps) * (Np.norm b + norm_eps)) + 1) / 2.
Proof.
  intros Hlen. unfold _calculate_similarity, Np.dot.
  rewrite !length_map, Hlen, Nat.eqb_refl, sum_zip_scaled. reflexivity.
Qed.

(** The similarity of a vector with itself. *)
Lemma similarity_self (v : vec) :
  _calculate_similarity v v =
  ((Np.norm v / (Np.norm v + norm_eps)) ^ 2 + 1) / 2.
Proof.
  rewrite similarity_same_length by reflexivity.
  rewrite sum_zip_self, <- norm_sqr.
  pose proof (guarded_norm_pos v). field. lra.
Qed.

(** For a nonzero vector it lies strictly between [1 - norm_eps / norm]
    and [1]. *)
Lemma similarity_self_bounds (v : vec) :
  Exists (fun x => x <> 0) v ->
  1 - norm_eps / Np.norm v < _calculate_similarity v v < 1.
Proof.
  intros Hex. pose proof (norm_pos v Hex) as Hn.
  rewrite similarity_self.
  set (n := Np.norm v) in *.
  assert (He : 0 < norm_eps) by (unfold norm_eps; lra).
  assert (Hq1 : n / (n + norm_eps) < 1).
  { apply (Rmult_lt_reg_r (n + norm_eps)); [lra|].
    unfold Rdiv. rewrite Rmult_assoc, Rinv_l by lra. lra. }
  assert (Hq0 : 0 < n / (n + norm_eps)).
  { apply Rdiv_lt_0_compat; lra. }
  assert (Hq2 : 1 - norm_eps / n < n / (n + norm_eps)).
  { apply (Rmult_lt_reg_r (n * (n + norm_eps))); [nra|].
    replace ((1 - norm_eps / n) * (n * (n + norm_eps)))
      with ((n - norm_eps) * (n + norm_eps)) by (field; lra).
    replace (n / (n + norm_eps) * (n * (n + norm_eps)))
      with (n * n) by (field; lra).
    nra. }
  set (q := n / (n + norm_eps)) in *.
  split; nra.
Qed.

Lemma sum_map_zero (f : R -> R) (n : nat) :
  f 0 = 0 -> Np.sum (map f (replicate n 0)) = 0.
Proof.
  intros Hf. rewrite (map_const_replicate 0 f).
  - rewrite sum_replicate. lra.
  - apply Forall_forall. intros x Hx.
    apply elem_of_replicate in Hx as [-> _]. exact Hf.
Qed.

Lemma norm_head (c : R) (n : nat) : 0 <= c -> Np.norm (c :: replicate n 0) = c.
Proof.
  intros Hc. unfold Np.norm. cbn [map]. rewrite sum_cons, sum_map_zero.
  - rewrite Rplus_0_r, pow2_abs.
    replace (c ^ 2) with (c * c) by ring. apply sqrt_square, Hc.
  - rewrite Rabs_R0. ring.
Qed.

Lemma unit_vec_nonzero : Exists (fun x => x <> 0) unit_vec.
Proof. unfold unit_vec. apply Exists_cons_hd. lra. Qed.



Lemma unit_vec2_length : length unit_vec2 = embedding_size.
Proof.
  unfold unit_vec2. cbn [length]. rewrite length_replicate. reflexivity.
Qed.

Lemma unit_vec_similarity_self : 0.9 < _calculate_similarity unit_vec unit_vec.
Proof.
  pose proof (similarity_self_bounds unit_vec unit_vec_nonzero) as [Hlo _].
  unfold unit_vec in Hlo at 1. rewrite norm_head in Hlo by lra.
  unfold norm_eps in Hlo. lra.
Qed.


Lemma sum_zip_zero_tail (n : nat) :
  Np.sum (zip_with Rmult (replicate n 0) (replicate n 0)) = 0.
Proof.
  induction n as [|n IH]; [reflexivity|].
  cbn [replicate zip_with]. rewrite sum_cons, IH. ring.
Qed.

Lemma unit_vec_orthogonal : _calculate_similarity unit_vec2 unit_vec = 0.5.
Proof.
  rewrite similarity_same_length
    by (rewrite unit_vec_length, unit_vec2_length; reflexivity).
  unfold unit_vec2 at 1, unit_vec at 1.
  change (replicate 1403 0) with (0 :: replicate 1402 0).
  cbn [zip_with]. rewrite !sum_cons, sum_zip_zero_tail.
  unfold Rdiv. rewrite !Rmult_0_l, !Rmult_0_r, !Rplus_0_l, Rmult_0_l. lra.
Qed.

End Similarity.

(** ** Self-match *)

Section SelfMatch.

Lemma sample_one_aligned : aligned sample_one.
Proof. repeat split. Qed.

Lemma sample_two_aligned : aligned sample_two.
Proof. repeat split. Qed.

Lemma recognize_face_strict_first_best_witness :
  exists r,
    recognize_face sample_two (Some unit_vec) = Ok r /\
    ((r = (None, 0, None) /\
      no_candidate sample_two unit_vec (known_embeddings sample_two)) \/
     first_best sample_two unit_vec (known_embeddings sample_two) r).
Proof.
  destruct (proj2 (recognize_face_strict_first_best sample_two unit_vec
                     sample_two_aligned)) as (r & Hr & Hout & _).
  exists r. split; [exact Hr | exact Hout].
Defined.

Lemma recognize_face_no_match_witness :
  recognize_face init (Some unit_vec) = Ok (None, 0, None) /\
  recognize_face sample_one (Some unit_vec2) = Ok (None, 0, None).
Proof.
  split.
  - apply (proj1 (proj2 (recognize_face_no_match init))). reflexivity.
  - apply (proj2 (proj2 (recognize_face_no_match sample_one))).
    constructor; [|constructor].
    rewrite unit_vec_orthogonal. cbn [recognition_threshold sample_one]. lra.
Defined.







End SelfMatch.

(** ** The gallery: four lists read as one sequence of entries *)

Section GalleryFacts.

Lemma entries_of_length (es : list vec) (ns : list string) (ids : list Z)
    (ps : list (option Z)) :
  length ns = length es -> length ids = length es -> length ps = length es ->
  length (entries_of es ns ids ps) = length es.
Proof.
  revert ns ids ps.
  induction es as [|e es IH]; intros [|n ns] [|i ids] [|p ps] Hn Hi Hp;
    cbn in *; try discriminate; try reflexivity.
  f_equal. apply IH; lia.
Qed.

Lemma entries_of_snoc (es : list vec) (ns : list string) (ids : list Z)
    (ps : list (option Z)) (e : vec) (n : string) (i : Z) (p : option Z) :
  length ns = length es -> length ids = length es -> length ps = length es ->
  entries_of (es ++ [e]) (ns ++ [n]) (ids ++ [i]) (ps ++ [p])
  = entries_of es ns ids ps
    ++ [ {| entry_embedding := e; entry_name := n; entry_id := i;
            entry_photo_id := p |} ].
Proof.
  revert ns ids ps.
  induction es as [|e0 es IH]; intros [|n0 ns] [|i0 ids] [|p0 ps] Hn Hi Hp;
    cbn in *; try discriminate; try reflexivity.
  f_equal. apply IH; lia.
Qed.

Lemma entries_of_delete (k : nat) (es : list vec) (ns : list string)
    (ids : list Z) (ps : list (option Z)) :
  length ns = length es -> length ids = length es -> length ps = length es ->
  entries_of (delete k es) (delete k ns) (delete k ids) (delete k ps)
  = delete k (entries_of es ns ids ps).
Proof.
  revert k ns ids ps.
  induction es as [|e es IH]; intros k [|n ns] [|i ids] [|p ps] Hn Hi Hp;
    cbn in *; try discriminate.
  - destruct k; reflexivity.
  - destruct k as [|k]; cbn; [reflexivity|].
    f_equal. apply IH; lia.
Qed.

(** [list.index] returns the first position of the value, and fails only
    when the value is not in the list. *)
Lemma list_index_first {A : Type} `{EqDecision A} (x : A) (l : list A) :
  match list_index x l with
  | Some k => l !! k = Some x /\ forall j, (j < k)%nat -> l !! j <> Some x
  | None => x ∉ l
  end.
Proof.
  induction l as [|y l IH]; cbn.
  - apply not_elem_of_nil.
  - destruct (decide (x = y)) as [->|Hne].
    + split; [reflexivity|]. intros j Hj. lia.
    + destruct (list_index x l) as [k|]; cbn.
      * destruct IH as [Hk Hfirst]. split; [exact Hk|].
        intros [|j] Hj; cbn; [congruence|]. apply Hfirst. lia.
      * apply not_elem_of_cons. split; assumption.
Qed.

Lemma list_index_elem {A : Type} `{EqDecision A} (x : A) (l : list A) :
  x ∈ l -> exists k, list_index x l = Some k.
Proof.
  intros Hin. pose proof (list_index_first x l) as Hspec.
  destruct (list_index x l) as [k|]; [eauto | contradiction].
Qed.

Lemma entries_of_remove (p : option Z) (es : list vec) (ns : list string)
    (ids : list Z) (ps : list (option Z)) :
  length ns = length es -> length ids = length es -> length ps = length es ->
  Gallery.removeByPhotoId (entries_of es ns ids ps) p
  = match list_index p ps with
    | Some k => delete k (entries_of es ns ids ps)
    | None => entries_of es ns ids ps
    end.
Proof.
  revert ns ids ps.
  induction es as [|e es IH]; intros [|n ns] [|i ids] [|q ps] Hn Hi Hp;
    cbn in *; try discriminate.
  - reflexivity.
  - destruct (decide (p = q)) as [->|Hne]; [reflexivity|].
    rewrite IH by lia.
    destruct (list_index p ps) as [k|]; reflexivity.
Qed.

Lemma pop_lt {A : Type} (l : list A) (k : nat) :
  (k < length l)%nat -> pop l k = Ok (delete k l).
Proof.
  intros Hlt. unfold pop.
  destruct (Nat.ltb_spec k (length l)); [reflexivity | lia].
Qed.

Lemma remove_found (self : KaleidoRecognizer) (p : option Z) (k : nat) :
  aligned self ->
  list_index p (known_photo_ids self) = Some k ->
  remove_embedding_by_photo_id self p = (removed_at self p k, true).
Proof.
  intros (Hn & Hi & Hp) Hk.
  pose proof (list_index_first p (known_photo_ids self)) as Hspec.
  rewrite Hk in Hspec. destruct Hspec as [Hlook _].
  assert (Hlt : (k < length (known_photo_ids self))%nat)
    by (eapply lookup_lt_Some, Hlook).
  unfold remove_embedding_by_photo_id.
  rewrite bool_decide_eq_true_2 by (eapply list_elem_of_lookup_2, Hlook).
  rewrite Hk.
  rewrite (pop_lt (known_embeddings self)) by lia.
  cbn [known_names set_known_embeddings].
  rewrite (pop_lt (known_names self)) by lia.
  cbn [known_ids set_known_names].
  rewrite (pop_lt (known_ids self)) by lia.
  cbn [known_photo_ids set_known_ids].
  rewrite (pop_lt (known_photo_ids self)) by lia.
  unfold removed_at. destruct p as [q|]; [|reflexivity].
  cbn [_embedding_cache set_known_photo_ids].
  f_equal.
  case_bool_decide as Hq; [reflexivity|].
  unfold set_embedding_cache, set_known_photo_ids. cbn.
  rewrite delete_id; [reflexivity|].
  destruct (_embedding_cache self !! q) eqn:E; [|reflexivity].
  exfalso. apply Hq. eauto.
Qed.

Lemma remove_absent (self : KaleidoRecognizer) (p : option Z) :
  p ∉ known_photo_ids self ->
  remove_embedding_by_photo_id self p = (self, false).
Proof.
  intros Hnot. unfold remove_embedding_by_photo_id.
  rewrite bool_decide_eq_false_2 by exact Hnot. reflexivity.
Qed.

Lemma removed_at_aligned (self : KaleidoRecognizer) (p : option Z) (k : nat) :
  aligned self -> (k < length (known_embeddings self))%nat ->
  aligned (removed_at self p k).
Proof.
  intros (Hn & Hi & Hp) Hlt. unfold aligned, removed_at. cbn.
  rewrite !length_delete by (apply lookup_lt_is_Some_2; lia). lia.
Qed.

Lemma add_aligned (self : KaleidoRecognizer) (e : vec) (person : person_data)
    (p : option Z) :
  aligned self -> aligned (fst (_add_embedding_to_memory self e person p)).
Proof.
  intros (Hn & Hi & Hp). unfold aligned. cbn. rewrite !length_app. cbn. lia.
Qed.

Lemma add_gallery (self : KaleidoRecognizer) (e : vec) (person : person_data)
    (p : option Z) :
  aligned self ->
  gallery (fst (_add_embedding_to_memory self e person p))
  = Gallery.insert (gallery self) e person p.
Proof.
  intros (Hn & Hi & Hp). unfold gallery, Gallery.insert. cbn.
  rewrite entries_of_snoc by assumption.
  rewrite entries_of_length by assumption. rewrite Hi. reflexivity.
Qed.

Lemma remove_aligned_gallery (self : KaleidoRecognizer) (p : option Z) :
  aligned self ->
  aligned (fst (remove_embedding_by_photo_id self p)) /\
  gallery (fst (remove_embedding_by_photo_id self p))
  = Gallery.removeByPhotoId (gallery self) p.
Proof.
  intros Hal. pose proof Hal as (Hn & Hi & Hp).
  pose proof (list_index_first p (known_photo_ids self)) as Hspec.
  unfold gallery at 2. rewrite entries_of_remove by assumption.
  destruct (list_index p (known_photo_ids self)) as [k|] eqn:Hk.
  - rewrite (remove_found self p k Hal Hk). cbn [fst].
    destruct Hspec as [Hlook _].
    assert (Hlt : (k < length (known_embeddings self))%nat).
    { rewrite <- Hp. eapply lookup_lt_Some, Hlook. }
    split; [apply removed_at_aligned; assumption|].
    unfold gallery, removed_at. cbn. apply entries_of_delete; assumption.
  - rewrite (remove_absent self p Hspec). cbn [fst].
    split; [exact Hal | reflexivity].
Qed.

Lemma clear_aligned_gallery (self : KaleidoRecognizer) :
  aligned (clear_embeddings self) /\
  gallery (clear_embeddings self) = Gallery.clear.
Proof. split; [repeat split | reflexivity]. Qed.

End GalleryFacts.

(** ** Reloading the gallery from the store *)

Section LoadFacts.

Context `{Vision} {DB : Type} `{!Database DB}.

Variable database : DB.

Lemma load_invariant_refl (self : KaleidoRecognizer) (n : nat)
    (r : result nat) :
  aligned self -> (forall n', r = Ok n' -> n' = n) ->
  load_invariant self self n r.
Proof.
  intros Hal Hr. split; [exact Hal|]. split; [reflexivity|].
  split; [auto|]. intros n' Hn'. rewrite (Hr n' Hn'). reflexivity.
Qed.

Lemma load_photos_refines (person : person_data) (person_id : Z)
    (photos : list photo) (self : KaleidoRecognizer) (n : nat) :
  aligned self ->
  load_invariant self
    (fst (load_photos database person person_id photos self n)) n
    (snd (load_photos database person person_id photos self n)) /\
  gallery (fst (load_photos database person person_id photos self n))
  = fst (Gallery.loadPhotos database person person_id photos (gallery self)) /\
  (snd (Gallery.loadPhotos database person person_id photos (gallery self))
   = true <->
   exists n', snd (load_photos database person person_id photos self n)
              = Ok n').
Proof.
  revert self n. induction photos as [|ph photos IH]; intros self n Hal.
  - cbn. split; [|split; [reflexivity|]].
    + apply load_invariant_refl; [exact Hal|]. intros n' [= <-]. reflexivity.
    + split; eauto.
  - cbn [load_photos Gallery.loadPhotos].
    destruct (get_photo_embedding database (photo_id ph)) as [[e|]|err].
    + destruct (length e =? embedding_size)%nat eqn:Hlen.
      * set (self1 := set_embedding_cache _ _).
        assert (Hal1 : aligned self1).
        { destruct Hal as (Hn & Hi & Hp). unfold aligned, self1. cbn.
          rewrite !length_app. cbn. lia. }
        assert (Hg1 : gallery self1
                      = gallery self
                        ++ [ {| entry_embedding := e;
                                entry_name := display_name_of person;
                                entry_id := person_id;
                                entry_photo_id := Some (photo_id ph) |} ]).
        { destruct Hal as (Hn & Hi & Hp). unfold gallery, self1. cbn.
          apply entries_of_snoc; assumption. }
        destruct (IH self1 (n + 1)%nat Hal1) as ((Ha & Ht & Hd & Hc) & Hg & Hs).
        rewrite <- Hg1. split; [|split; assumption].
        split; [exact Ha|]. split; [exact Ht|]. split.
        -- intros Hall. apply Hd. unfold self1. cbn.
           apply Forall_app. split; [exact Hall|].
           constructor; [|constructor]. apply Nat.eqb_eq, Hlen.
        -- intros n' Hn'. specialize (Hc n' Hn').
           assert (Hl1 : length (known_embeddings self1)
                         = S (length (known_embeddings self))).
           { unfold self1. cbn. rewrite length_app. cbn. lia. }
           rewrite Hl1 in Hc. lia.
      * apply IH, Hal.
    + apply IH, Hal.
    + cbn. split; [|split; [reflexivity|]].
      * apply load_invariant_refl; [exact Hal|]. intros n' [=].
      * split; [discriminate | intros [n' [=]]].
Qed.

Lemma load_people_refines (people : list person_data)
    (self : KaleidoRecognizer) (n : nat) :
  aligned self ->
  load_invariant self (fst (load_people database people self n)) n
    (snd (load_people database people self n)) /\
  gallery (fst (load_people database people self n))
  = Gallery.loadPeople database people (gallery self).
Proof.
  revert self n. induction people as [|person people IH]; intros self n Hal.
  - cbn. split; [|reflexivity].
    apply load_invariant_refl; [exact Hal|]. intros n' [= <-]. reflexivity.
  - cbn [load_people Gallery.loadPeople].
    destruct (pd_id person) as [person_id|].
    2:{ cbn. split; [|reflexivity].
        apply load_invariant_refl; [exact Hal|]. intros n' [=]. }
    destruct (get_person_photos database person_id) as [photos|err].
    2:{ cbn. split; [|reflexivity].
        apply load_invariant_refl; [exact Hal|]. intros n' [=]. }
    destruct (load_photos_refines person person_id photos self n Hal)
      as ((Ha & Ht & Hd & Hc) & Hg & Hs).
    destruct (load_photos database person person_id photos self n)
      as [self1 [n1|err]] eqn:Hload; cbn [fst snd] in *.
    + destruct (Gallery.loadPhotos database person person_id photos
                  (gallery self)) as [g1 ok] eqn:Hspec; cbn [fst snd] in *.
      assert (ok = true) as -> by (apply Hs; eauto).
      subst g1.
      destruct (IH self1 n1 Ha) as ((Ha' & Ht' & Hd' & Hc') & Hg').
      split; [|exact Hg'].
      split; [exact Ha'|]. split; [congruence|]. split; [auto|].
      intros n' Hn'. specialize (Hc' n' Hn'). specialize (Hc n1 eq_refl). lia.
    + destruct (Gallery.loadPhotos database person person_id photos
                  (gallery self)) as [g1 ok] eqn:Hspec; cbn [fst snd] in *.
      assert (ok = false) as ->.
      { destruct ok; [|reflexivity].
        destruct (proj1 Hs eq_refl) as [n' [=]]. }
      split; [|exact Hg].
      split; [exact Ha|]. split; [exact Ht|]. split; [exact Hd|].
      intros n' [=].
Qed.

Lemma load_from_fresh (self : KaleidoRecognizer) :
  load_embeddings_from_database self database
  = match get_all_people database with
    | Raise _ => (fresh self, 0%nat)
    | Ok people =>
        match load_people database people (fresh self) 0 with
        | (self', Ok loaded_count) => (self', loaded_count)
        | (self', Raise _) => (self', 0%nat)
        end
    end.
Proof. reflexivity. Qed.

Lemma fresh_aligned (self : KaleidoRecognizer) : aligned (fresh self).
Proof. repeat split. Qed.

Lemma load_threshold (self : KaleidoRecognizer) :
  recognition_threshold (fst (load_embeddings_from_database self database))
  = recognition_threshold self.
Proof.
  rewrite load_from_fresh.
  destruct (get_all_people database) as [people|err]; [|reflexivity].
  destruct (load_people_refines people (fresh self) 0 (fresh_aligned self))
    as ((_ & Ht & _) & _).
  destruct (load_people database people (fresh self) 0) as [self' [n|e]];
    exact Ht.
Qed.

Lemma load_refines (self : KaleidoRecognizer) :
  aligned (fst (load_embeddings_from_database self database)) /\
  gallery (fst (load_embeddings_from_database self database))
  = Gallery.loadAll database.
Proof.
  rewrite load_from_fresh. unfold Gallery.loadAll.
  destruct (get_all_people database) as [people|err].
  - destruct (load_people_refines people (fresh self) 0 (fresh_aligned self))
      as ((Ha & _) & Hg).
    destruct (load_people database people (fresh self) 0) as [self' [n|e]];
      split; assumption.
  - split; [apply fresh_aligned | reflexivity].
Qed.

(** A readable store makes the loops run to their end. *)
Lemma load_photos_readable (person : person_data) (person_id : Z)
    (photos : list photo) (self : KaleidoRecognizer) (n : nat) :
  Forall (fun ph => exists r, get_photo_embedding database (photo_id ph) = Ok r)
         photos ->
  exists n', snd (load_photos database person person_id photos self n) = Ok n'.
Proof.
  intros Hall. revert self n.
  induction Hall as [|ph photos [r Hr] _ IH]; intros self n.
  - cbn. eauto.
  - cbn [load_photos]. rewrite Hr. destruct r as [e|]; [|apply IH].
    destruct (length e =? embedding_size)%nat; apply IH.
Qed.

Lemma load_people_readable (people : list person_data)
    (self : KaleidoRecognizer) (n : nat) :
  Forall (fun person =>
            exists person_id photos,
              pd_id person = Some person_id /\
              get_person_photos database person_id = Ok photos /\
              Forall (fun ph =>
                        exists r,
                          get_photo_embedding database (photo_id ph) = Ok r)
                     photos)
         people ->
  exists n', snd (load_people database people self n) = Ok n'.
Proof.
  intros Hall. revert self n.
  induction Hall as [|person people (pid & photos & Hid & Hph & Hread) _ IH];
    intros self n.
  - cbn. eauto.
  - cbn [load_people]. rewrite Hid, Hph.
    destruct (load_photos_readable person pid photos self n Hread) as [n1 Hn1].
    destruct (load_photos database person pid photos self n) as [self1 r].
    cbn [snd] in Hn1. subst r. apply IH.
Qed.

End LoadFacts.

(** ** Alignment is an invariant of the gallery *)

Section GalleryInvariant.

Context `{Vision} {DB : Type} `{!Database DB}.

Lemma apply_mutation_refines (self : KaleidoRecognizer) (m : mutation) :
  aligned self ->
  aligned (apply_mutation self m) /\
  gallery (apply_mutation self m) = gallery_mutation (gallery self) m.
Proof.
  intros Hal. destruct m as [e person p|p| |database]; cbn [apply_mutation
    gallery_mutation].
  - split; [apply add_aligned, Hal | apply add_gallery, Hal].
  - apply remove_aligned_gallery, Hal.
  - apply clear_aligned_gallery.
  - apply load_refines.
Qed.

Lemma gallery_covers (self : KaleidoRecognizer) :
  aligned self -> length (gallery self) = length (known_embeddings self).
Proof. intros (Hn & Hi & Hp). apply entries_of_length; assumption. Qed.

(** C6.  Every sequence of insertions, removals by photo id, clears and
    reloads keeps the four lists of the same length, and the entries read
    index by index off the four lists are exactly the sequence obtained
    by applying the same operations to one list of whole entries: what
    was inserted together stays together at one index. *)
Theorem gallery_alignment_invariant (ms : list mutation)
    (self : KaleidoRecognizer) :
  aligned self ->
  aligned (foldl apply_mutation self ms) /\
  length (gallery (foldl apply_mutation self ms))
  = length (known_embeddings (foldl apply_mutation self ms)) /\
  gallery (foldl apply_mutation self ms)
  = foldl gallery_mutation (gallery self) ms.
Proof.
  revert self. induction ms as [|m ms IH]; intros self Hal.
  - cbn. split; [exact Hal|]. split; [apply gallery_covers, Hal | reflexivity].
  - cbn [foldl].
    destruct (apply_mutation_refines self m Hal) as [Hal' Hg].
    rewrite <- Hg. apply IH, Hal'.
Qed.

End GalleryInvariant.

Lemma init_aligned : aligned init.
Proof. repeat split. Qed.

Lemma gallery_alignment_invariant_witness :
  aligned (foldl apply_mutation init sample_mutations) /\
  length (gallery (foldl apply_mutation init sample_mutations))
  = length (known_embeddings (foldl apply_mutation init sample_mutations)) /\
  gallery (foldl apply_mutation init sample_mutations)
  = foldl gallery_mutation (gallery init) sample_mutations.
Proof. apply (gallery_alignment_invariant sample_mutations init init_aligned). Defined.

(** ** Removal by photo id *)

Section Removal.

(** C7.  On an aligned gallery [remove_embedding_by_photo_id] finds the
    first index holding the photo id, deletes that one index from each of
    the four lists, drops the photo id from the cache and returns
    [True]; when no entry holds the photo id it returns [False] and
    changes nothing.  Each call shortens the lists by exactly one
    entry, whatever the number of entries sharing the photo id. *)
Theorem remove_embedding_by_photo_id_first (self : KaleidoRecognizer)
    (photo_id : option Z) :
  aligned self ->
  (photo_id ∉ known_photo_ids self ->
   remove_embedding_by_photo_id self photo_id = (self, false)) /\
  (photo_id ∈ known_photo_ids self ->
   exists index : nat,
     known_photo_ids self !! index = Some photo_id /\
     (forall j, (j < index)%nat -> known_photo_ids self !! j <> Some photo_id) /\
     remove_embedding_by_photo_id self photo_id
     = (removed_at self photo_id index, true) /\
     gallery (removed_at self photo_id index) = delete index (gallery self) /\
     S (length (gallery (removed_at self photo_id index)))
     = length (gallery self) /\
     aligned (removed_at self photo_id index) /\
     (forall q, photo_id = Some q ->
        _embedding_cache (removed_at self photo_id index) !! q = None)).
Proof.
  intros Hal. split; [apply remove_absent|].
  intros Hin. destruct (list_index_elem _ _ Hin) as [k Hk].
  pose proof (list_index_first photo_id (known_photo_ids self)) as Hspec.
  rewrite Hk in Hspec. destruct Hspec as [Hlook Hfirst].
  pose proof Hal as (Hn & Hi & Hp).
  assert (Hlt : (k < length (known_embeddings self))%nat).
  { rewrite <- Hp. eapply lookup_lt_Some, Hlook. }
  assert (Hg : gallery (removed_at self photo_id k) = delete k (gallery self)).
  { unfold gallery, removed_at. cbn. apply entries_of_delete; assumption. }
  exists k. split; [exact Hlook|]. split; [exact Hfirst|].
  split; [apply remove_found; assumption|]. split; [exact Hg|].
  split; [|split].
  - rewrite Hg, length_delete, (gallery_covers self Hal).
    + lia.
    + apply lookup_lt_is_Some_2. rewrite (gallery_covers self Hal). exact Hlt.
  - apply removed_at_aligned; assumption.
  - intros q ->. cbn. apply lookup_delete_eq.
Qed.

Lemma remove_embedding_by_photo_id_first_witness :
  remove_embedding_by_photo_id sample_two (Some 55%Z) = (sample_two, false) /\
  exists index : nat,
    known_photo_ids sample_two !! index = Some (Some 102%Z) /\
    remove_embedding_by_photo_id sample_two (Some 102%Z)
    = (removed_at sample_two (Some 102%Z) index, true).
Proof.
  split.
  - apply (proj1 (remove_embedding_by_photo_id_first sample_two (Some 55%Z)
                    sample_two_aligned)).
    cbn. intros Hin. repeat (apply elem_of_cons in Hin as [Hin|Hin];
                             [discriminate Hin|]).
    apply elem_of_nil in Hin. exact Hin.
  - destruct (proj2 (remove_embedding_by_photo_id_first sample_two
                       (Some 102%Z) sample_two_aligned))
      as (index & Hlook & _ & Hrem & _).
    + cbn. apply list_elem_of_further, list_elem_of_here.
    + exists index. split; assumption.
Defined.

End Removal.

(** ** Reloading twice *)

Section Reload.

Context `{Vision} {DB : Type} `{!Database DB}.

(** C8.  [load_embeddings_from_database] starts from an empty gallery
    and an empty cache, whatever they held before, and adds one entry
    per stored embedding of [embedding_size] coordinates, as
    [Gallery.loadAll] does; when the store answers every call the count
    returned is the size of the gallery.
    Calling it a second time on the same store returns the same count
    and leaves the same state, so the gallery is not doubled. *)
Theorem load_embeddings_idempotent (self : KaleidoRecognizer) (database : DB) :
  let once := load_embeddings_from_database self database in
  let twice := load_embeddings_from_database (fst once) database in
  snd twice = snd once /\
  fst twice = fst once /\
  length (known_embeddings (fst twice)) = length (known_embeddings (fst once)) /\
  (forall self', recognition_threshold self' = recognition_threshold self ->
     load_embeddings_from_database self' database = once) /\
  gallery (fst once) = Gallery.loadAll database /\
  Forall (fun e => length e = embedding_size) (known_embeddings (fst once)) /\
  (store_readable database ->
   snd once = length (known_embeddings (fst once))).
Proof.
  intros once twice.
  assert (Hindep : forall self',
             recognition_threshold self' = recognition_threshold self ->
             load_embeddings_from_database self' database = once).
  { intros self' Ht. unfold once. rewrite !load_from_fresh.
    unfold fresh. rewrite Ht. reflexivity. }
  assert (Htwice : twice = once).
  { apply Hindep. apply load_threshold. }
  rewrite Htwice. repeat split; try reflexivity; try exact Hindep.
  - apply load_refines.
  - unfold once. rewrite load_from_fresh.
    destruct (get_all_people database) as [people|err]; [|constructor].
    destruct (load_people_refines database people (fresh self) 0
                (fresh_aligned self)) as ((_ & _ & Hd & _) & _).
    destruct (load_people database people (fresh self) 0) as [self' [n|e]];
      apply Hd; constructor.
  - intros (people & Hpeople & Hread). unfold once.
    rewrite load_from_fresh, Hpeople.
    destruct (load_people_readable database people (fresh self) 0 Hread)
      as [n Hn].
    destruct (load_people_refines database people (fresh self) 0
                (fresh_aligned self)) as ((_ & _ & _ & Hc) & _).
    destruct (load_people database people (fresh self) 0) as [self' r].
    cbn [fst snd] in *. subst r. specialize (Hc n eq_refl). cbn in Hc.
    cbn. lia.
Qed.

End Reload.

Lemma readable_store_readable : store_readable readable_store.
Proof.
  exists [ivanov]. split; [reflexivity|].
  constructor; [|constructor].
  exists 7%Z, ivanov_photos. split; [reflexivity|]. split; [reflexivity|].
  repeat constructor; eexists; reflexivity.
Qed.

Lemma load_embeddings_idempotent_witness :
  snd (load_embeddings_from_database init readable_store)
  = length (known_embeddings
              (fst (load_embeddings_from_database init readable_store))).
Proof.
  apply (proj2 (proj2 (proj2 (proj2 (proj2 (proj2
           (load_embeddings_idempotent init readable_store))))))).
  exact readable_store_readable.
Defined.

(** The reload of [readable_store]: two of its three embeddings have the
    right length. *)
Example load_readable_store :
  snd (load_embeddings_from_database init readable_store) = 2%nat /\
  known_photo_ids (fst (load_embeddings_from_database init readable_store))
  = [Some 10%Z; Some 12%Z].
Proof. split; reflexivity. Qed.

(** ** A failing store call inside a batch *)

Section StoreFailure.

Context `{Vision} {DB : Type} `{!Database DB}.






End StoreFailure.



(** ** Recognition of the faces of an image *)

Section InImage.

Context `{Vision}.

Lemma bbox_loop_last (faces : list face_info) :
  bbox_loop faces = (fun face => (face, face_bbox face)) <$> last faces.
Proof.
  unfold bbox_loop.
  induction faces as [|face faces _] using rev_ind; [reflexivity|].
  rewrite foldl_snoc, last_snoc. reflexivity.
Qed.

Lemma recognize_face_total (self : KaleidoRecognizer) (q : option vec) :
  aligned self -> exists r, recognize_face self q = Ok r.
Proof.
  intros Hal. destruct q as [e|].
  - destruct (recognize_face_outcome self e Hal) as (r & Hr & _). eauto.
  - cbn. eauto.
Qed.

Lemma roi_in_image_total (image : Image) (box : Z * Z * Z * Z) :
  (2 <= length (shape image))%nat -> exists b, roi_in_image image box = Ok b.
Proof.
  intros Hdim. destruct box as [[[x y] w] h]. unfold roi_in_image, getitem.
  destruct (shape image) as [|rows [|cols rest]]; cbn in Hdim; try lia.
  cbn. destruct (0 <=? x)%Z; [|eauto]. destruct (0 <=? y)%Z; [|eauto].
  destruct (x + w <=? cols)%Z; eauto.
Qed.

(** After the loop only its last face is left to work on. *)
Lemma recognize_detected_last (self : KaleidoRecognizer) (image : Image)
    (extract_landmarks : bool) (faces : list face_info) (face : face_info) :
  last faces = Some face ->
  recognize_detected self image extract_landmarks faces
  = recognize_detected self image extract_landmarks [face].
Proof.
  intros Hlast. unfold recognize_detected.
  rewrite !bbox_loop_last, Hlast. reflexivity.
Qed.

Lemma recognize_detected_single (self : KaleidoRecognizer) (image : Image)
    (extract_landmarks : bool) (face : face_info) (results : list recognition) :
  recognize_detected self image extract_landmarks [face] = Ok results ->
  (length results <= 1)%nat /\
  Forall (fun r => rec_bbox r = face_bbox face /\
                   rec_detection_confidence r = face_confidence face)
         results.
Proof.
  unfold recognize_detected. cbn [bbox_loop foldl].
  destruct (face_bbox face) as [[[x y] w] h] eqn:Hbox.
  destruct (roi_in_image image (x, y, w, h)) as [[|]|e]; cbn [mbind result_bind].
  - destruct (if extract_landmarks
              then extract_embedding_with_landmarks
                     (slice image y (y + h) x (x + w))
              else (extract_embedding (slice image y (y + h) x (x + w)),
                    face_landmarks face)) as [embedding landmarks].
    destruct (recognize_face self embedding) as [[[pid conf] photo]|e];
      cbn [mbind result_bind]; [|discriminate].
    intros [= <-]. cbn. split; [lia|].
    constructor; [|constructor]. cbn. split; reflexivity.
  - intros [= <-]. cbn. split; [lia | constructor].
  - discriminate.
Qed.

(** C5.  When [detect_faces] reports at least one face,
    [recognize_face_in_image] does for the whole list what it does for
    the last face alone: the loop only unpacks bounding boxes and the
    recognition steps run once after it.  The list returned therefore
    has at most one element, and that element carries the bounding box
    and detection confidence of the last face.  On an aligned gallery
    and an image with at least two dimensions the call does return. *)
Theorem recognize_face_in_image_last_only (self : KaleidoRecognizer)
    (image : Image) (extract_landmarks : bool) :
  detect_faces image <> [] ->
  exists face,
    last (detect_faces image) = Some face /\
    recognize_face_in_image self image extract_landmarks
    = recognize_detected self image extract_landmarks [face] /\
    (forall results,
       recognize_face_in_image self image extract_landmarks = Ok results ->
       (length results <= 1)%nat /\
       Forall (fun r => rec_bbox r = face_bbox face /\
                        rec_detection_confidence r = face_confidence face)
              results) /\
    (aligned self -> (2 <= length (shape image))%nat ->
     exists results,
       recognize_face_in_image self image extract_landmarks = Ok results).
Proof.
  intros Hne. unfold recognize_face_in_image.
  destruct (last (detect_faces image)) as [face|] eqn:Hlast.
  2:{ apply last_None in Hlast. contradiction. }
  exists face. split; [reflexivity|].
  rewrite (recognize_detected_last _ _ _ _ _ Hlast).
  split; [reflexivity|]. split.
  - apply recognize_detected_single.
  - intros Hal Hdim. unfold recognize_detected. cbn [bbox_loop foldl].
    destruct (face_bbox face) as [[[x y] w] h].
    destruct (roi_in_image_total image (x, y, w, h) Hdim) as [b ->].
    cbn [mbind result_bind]. destruct b; [|eauto].
    destruct (if extract_landmarks
              then extract_embedding_with_landmarks
                     (slice image y (y + h) x (x + w))
              else (extract_embedding (slice image y (y + h) x (x + w)),
                    face_landmarks face)) as [embedding landmarks].
    destruct (recognize_face_total self embedding Hal) as [[[pid conf] photo] ->].
    cbn [mbind result_bind]. eauto.
Qed.

Lemma detect_faces_none (image : Image) :
  face_detection_process image = Ok [] -> detect_faces image = [].
Proof. intros Hd. unfold detect_faces. rewrite Hd. reflexivity. Qed.

(** C10.  When face detection reports no face, [detect_faces] returns
    the empty list and [recognize_face_in_image] raises: the name [x] is
    read after a loop that never bound it.  The exception is an
    [UnboundLocalError], which is a [NameError], and nothing in the
    function catches it. *)
Theorem recognize_face_in_image_no_face (self : KaleidoRecognizer)
    (image : Image) (extract_landmarks : bool) :
  (face_detection_process image = Ok [] -> detect_faces image = []) /\
  (detect_faces image = [] ->
   recognize_face_in_image self image extract_landmarks
   = Raise (UnboundLocalError "x") /\
   is_NameError (UnboundLocalError "x") = true).
Proof.
  split; [apply detect_faces_none|].
  intros Hnone. unfold recognize_face_in_image. rewrite Hnone.
  split; reflexivity.
Qed.

End InImage.

Lemma two_face_frame_detected : @detect_faces sample_vision two_face_frame <> [].
Proof. unfold detect_faces. cbn. discriminate. Qed.

Lemma recognize_face_in_image_last_only_witness :
  exists face,
    last (@detect_faces sample_vision two_face_frame) = Some face /\
    @recognize_face_in_image sample_vision sample_two two_face_frame false
    = @recognize_detected sample_vision sample_two two_face_frame false [face].
Proof.
  destruct (@recognize_face_in_image_last_only sample_vision sample_two two_face_frame false
              two_face_frame_detected) as (face & Hlast & Heq & _).
  exists face. split; assumption.
Defined.

Lemma recognize_face_in_image_no_face_witness :
  @recognize_face_in_image sample_vision sample_two empty_frame true
  = Raise (UnboundLocalError "x").
Proof.
  apply (proj2 (@recognize_face_in_image_no_face sample_vision sample_two empty_frame true)).
  apply (proj1 (@recognize_face_in_image_no_face sample_vision sample_two empty_frame true)).
  reflexivity.
Defined.

(** Two detected faces, one result: the one of the last face. *)
Example recognize_two_faces :
  @recognize_detected sample_vision sample_two two_face_frame false [left_face; right_face]
  = Ok [ {| rec_bbox := (364, 76, 168, 184)%Z;
            rec_detection_confidence := 0.8;
            rec_person_id := None;
            rec_recognition_confidence := 0;
            rec_photo_id := None;
            rec_landmarks := None |} ].
Proof. reflexivity. Qed.

Lemma py_int_floor (x : R) (z : Z) :
  0 <= x -> IZR z <= x < IZR z + 1 -> py_int x = z.
Proof.
  intros Hx Hz. unfold py_int. destruct (Rlt_dec x 0) as [Hneg|_]; [lra|].
  symmetry. apply Int_part_spec. lra.
Qed.

Example detect_two_faces :
  @detect_faces sample_vision two_face_frame = [left_face; right_face].
Proof.
  unfold detect_faces, detect_loop, detect_one, _extract_keypoints.
  cbn -[py_int Z.max Z.min Z.sub Z.add Z.mul].
  rewrite (py_int_floor (0.1 * 640) 64), (py_int_floor (0.2 * 480) 96),
    (py_int_floor (0.2 * 640) 128), (py_int_floor (0.3 * 480) 144),
    (py_int_floor (0.6 * 640) 384) by lra.
  reflexivity.
Qed.

(** ** More about standardisation *)

Section StandardizeMore.

Lemma normalize_length (v : vec) : length (_normalize_embedding v) = length v.
Proof.
  unfold _normalize_embedding.
  destruct (Rgt_dec (Np.std v) 0); apply length_map.
Qed.

Lemma normalize_nil : _normalize_embedding [] = [].
Proof. unfold _normalize_embedding. destruct (Rgt_dec _ _); reflexivity. Qed.

Lemma map_self (f : R -> R) (v : vec) :
  (forall x, f x = x) -> map f v = v.
Proof.
  intros Hf. induction v as [|x v IH]; [reflexivity|].
  cbn [map]. rewrite Hf, IH. reflexivity.
Qed.

Lemma mean_replicate_zero (n : nat) : Np.mean (replicate n 0) = 0.
Proof. unfold Np.mean. rewrite sum_replicate. lra. Qed.

Lemma std_replicate_zero (n : nat) : Np.std (replicate n 0) = 0.
Proof.
  rewrite std_variance, variance_eq, mean_replicate_zero.
  rewrite (sum_map_zero (fun x => (x - 0) ^ 2)) by lra.
  unfold Rdiv. rewrite Rmult_0_l. apply sqrt_0.
Qed.

Lemma normalize_flat (v : vec) :
  Np.std v = 0 -> _normalize_embedding v = replicate (length v) 0.
Proof.
  intros Hs. rewrite (normalize_zero v Hs).
  destruct v as [|x v]; [reflexivity|].
  apply map_const_replicate.
  eapply Forall_impl; [apply (std_zero_all_mean (x :: v)); [discriminate|exact Hs]|].
  simpl. intros y Hy. lra.
Qed.

(** X1.  Standardising twice is standardising once. *)
Theorem normalize_embedding_idempotent (v : vec) :
  _normalize_embedding (_normalize_embedding v) = _normalize_embedding v.
Proof.
  destruct v as [|x0 v0] eqn:Ev.
  { rewrite !normalize_nil. reflexivity. }
  rewrite <- Ev. assert (Hne : v <> []) by (rewrite Ev; discriminate).
  clear Ev. pose proof (std_nonneg v) as Hge.
  destruct (Req_dec (Np.std v) 0) as [Hz|Hnz].
  - rewrite (normalize_flat v Hz).
    rewrite (normalize_flat _ (std_replicate_zero _)), length_replicate.
    reflexivity.
  - assert (Hpos : 0 < Np.std v) by lra.
    rewrite (normalize_pos v Hpos).
    set (w := map (fun x => (x - Np.mean v) / Np.std v) v).
    assert (Hm : Np.mean w = 0) by (apply mean_standardized; assumption).
    assert (Hs : Np.std w = 1) by (apply std_standardized; assumption).
    rewrite (normalize_pos w) by lra.
    rewrite Hm, Hs. apply map_self. intros x. field.
Qed.

Lemma mean_affine (a b : R) (v : vec) :
  v <> [] -> Np.mean (map (fun x => a * x + b) v) = a * Np.mean v + b.
Proof.
  intros Hne.
  assert (Hlen : INR (length v) <> 0).
  { apply not_0_INR. destruct v; [congruence | simpl; lia]. }
  unfold Np.mean. rewrite length_map, sum_map_affine. field. exact Hlen.
Qed.

Lemma variance_affine (a b : R) (v : vec) :
  v <> [] ->
  variance (map (fun x => a * x + b) v) = a * a * variance v.
Proof.
  intros Hne.
  assert (Hlen : INR (length v) <> 0).
  { apply not_0_INR. destruct v; [congruence | simpl; lia]. }
  rewrite !variance_eq, mean_affine, length_map, map_map by exact Hne.
  rewrite (sum_map_ext _ (fun x => a * a * (x - Np.mean v) ^ 2)) by
    (intros x; ring).
  rewrite (sum_map_scale (a * a) (fun x => (x - Np.mean v) ^ 2)).
  field. exact Hlen.
Qed.

Lemma std_affine (a b : R) (v : vec) :
  v <> [] -> 0 < a -> Np.std (map (fun x => a * x + b) v) = a * Np.std v.
Proof.
  intros Hne Ha. rewrite !std_variance, variance_affine by exact Hne.
  rewrite sqrt_mult by (try apply variance_nonneg; nra).
  rewrite sqrt_square by lra. reflexivity.
Qed.

(** X2.  The embedding does not change when every coordinate goes
    through the same map [x => a * x + b] with [a > 0]: it is invariant
    under a change of scale and origin of the landmark coordinates. *)
Theorem normalize_embedding_affine_invariant (a b : R) (v : vec) :
  0 < a ->
  _normalize_embedding (map (fun x => a * x + b) v) = _normalize_embedding v.
Proof.
  intros Ha. destruct v as [|x0 v0] eqn:Ev.
  { cbn [map]. reflexivity. }
  rewrite <- Ev. assert (Hne : v <> []) by (rewrite Ev; discriminate).
  clear Ev. pose proof (std_nonneg v) as Hge.
  pose proof (std_affine a b v Hne Ha) as Hstd.
  pose proof (mean_affine a b v Hne) as Hmean.
  destruct (Req_dec (Np.std v) 0) as [Hz|Hnz].
  - rewrite (normalize_flat v Hz), normalize_flat by (rewrite Hstd, Hz; lra).
    rewrite length_map. reflexivity.
  - assert (Hpos : 0 < Np.std v) by lra.
    rewrite (normalize_pos v Hpos), normalize_pos by (rewrite Hstd; nra).
    rewrite Hstd, Hmean, map_map.
    apply map_ext. intros x. field. lra.
Qed.

Lemma normalize_embedding_affine_invariant_witness :
  _normalize_embedding (map (fun x => 2 * x + 3) unit_vec)
  = _normalize_embedding unit_vec.
Proof. apply normalize_embedding_affine_invariant. lra. Defined.

End StandardizeMore.

(** ** Range and symmetry of the similarity *)

Section SimilarityRange.

Lemma sum_zip_comm (a b : vec) :
  Np.sum (zip_with Rmult a b) = Np.sum (zip_with Rmult b a).
Proof.
  revert b. induction a as [|x a IH]; intros [|y b]; try reflexivity.
  cbn [zip_with]. rewrite !sum_cons, IH. ring.
Qed.

(** The Cauchy-Schwarz inequality on the sums [np.dot] and
    [np.linalg.norm] compute. *)
Lemma sum_zip_cauchy_schwarz (a b : vec) :
  Np.sum (zip_with Rmult a b) * Np.sum (zip_with Rmult a b)
  <= Np.sum (map (fun x => Rabs x ^ 2) a) * Np.sum (map (fun x => Rabs x ^ 2) b).
Proof.
  revert b. induction a as [|x a IH]; intros b.
  - cbn. pose proof (sum_sq_nonneg Rabs b). lra.
  - destruct b as [|y b].
    + cbn [zip_with]. pose proof (sum_sq_nonneg Rabs (x :: a)).
      cbn in *. lra.
    + cbn [zip_with map]. rewrite !sum_cons, !pow2_abs.
      specialize (IH b).
      pose proof (sum_sq_nonneg Rabs a) as HA.
      pose proof (sum_sq_nonneg Rabs b) as HB.
      set (S := Np.sum (zip_with Rmult a b)) in *.
      set (A := Np.sum (map (fun x => Rabs x ^ 2) a)) in *.
      set (B := Np.sum (map (fun x => Rabs x ^ 2) b)) in *.
      assert (Hcross : 2 * (x * y * S) <= x * x * B + y * y * A).
      { destruct (Req_dec B 0) as [HB0|HB0].
        - assert (HS : S = 0) by nra. rewrite HS, HB0.
          pose proof (pow2_ge_0 y). nra.
        - assert (HBpos : 0 < B) by lra.
          pose proof (pow2_ge_0 (x * B - y * S)) as Hsq.
          assert (Hy : 0 <= y * y * (A * B - S * S)) by
            (apply Rmult_le_pos; nra).
          assert (Hprod : 0 <= B * (x * x * B + y * y * A - 2 * (x * y * S)))
            by nra.
          destruct (Rle_lt_dec (2 * (x * y * S)) (x * x * B + y * y * A))
            as [Hok|Hbad]; [exact Hok|].
          exfalso. nra. }
      nra.
Qed.

Lemma sum_zip_abs_le (a b : vec) :
  Rabs (Np.sum (zip_with Rmult a b)) <= Np.norm a * Np.norm b.
Proof.
  pose proof (sum_zip_cauchy_schwarz a b) as Hcs.
  rewrite <- !norm_sqr in Hcs.
  pose proof (norm_nonneg a) as Ha. pose proof (norm_nonneg b) as Hb.
  set (S := Np.sum (zip_with Rmult a b)) in *.
  assert (Hnn : 0 <= Np.norm a * Np.norm b) by nra.
  unfold Rabs. destruct (Rcase_abs S) as [Hneg|Hpos]; nra.
Qed.

Lemma similarity_same_length_bounds (a b : vec) :
  length a = length b -> 0 < _calculate_similarity a b < 1.
Proof.
  intros Hlen. rewrite (similarity_same_length a b Hlen).
  pose proof (sum_zip_abs_le a b) as Habs.
  pose proof (norm_nonneg a) as Ha. pose proof (norm_nonneg b) as Hb.
  assert (He : 0 < norm_eps) by (unfold norm_eps; lra).
  set (S := Np.sum (zip_with Rmult a b)) in *.
  set (d := (Np.norm a + norm_eps) * (Np.norm b + norm_eps)).
  assert (Hd : Np.norm a * Np.norm b < d) by (unfold d; nra).
  assert (Hdpos : 0 < d) by nra.
  assert (HS : - d < S < d).
  { unfold Rabs in Habs. destruct (Rcase_abs S); lra. }
  assert (Hq : -1 < S / d < 1).
  { split.
    - apply (Rmult_lt_reg_r d); [exact Hdpos|].
      unfold Rdiv. rewrite Rmult_assoc, Rinv_l by lra. lra.
    - apply (Rmult_lt_reg_r d); [exact Hdpos|].
      unfold Rdiv. rewrite Rmult_assoc, Rinv_l by lra. lra. }
  lra.
Qed.

Lemma similarity_length_mismatch (a b : vec) :
  length a <> length b -> _calculate_similarity a b = 0.
Proof.
  intros Hne. unfold _calculate_similarity, Np.dot.
  rewrite !length_map.
  destruct (Nat.eqb_spec (length a) (length b)); [contradiction|reflexivity].
Qed.

Lemma similarity_below_one (a b : vec) : 0 <= _calculate_similarity a b < 1.
Proof.
  destruct (Nat.eq_dec (length a) (length b)) as [E|N].
  - pose proof (similarity_same_length_bounds a b E). lra.
  - rewrite (similarity_length_mismatch a b N). lra.
Qed.

(** X3.  In exact arithmetic the similarity of two vectors of the same
    length lies strictly between 0 and 1, and the similarity of vectors
    of different lengths is exactly 0: the score is 0 only when the
    shapes do not match, and never reaches 1. *)
Theorem similarity_range (a b : vec) :
  (length a = length b -> 0 < _calculate_similarity a b < 1) /\
  (length a <> length b -> _calculate_similarity a b = 0) /\
  0 <= _calculate_similarity a b < 1.
Proof.
  split; [apply similarity_same_length_bounds|].
  split; [apply similarity_length_mismatch | apply similarity_below_one].
Qed.

Lemma similarity_range_witness :
  0 < _calculate_similarity unit_vec2 unit_vec < 1 /\
  _calculate_similarity [1; 2; 3] unit_vec = 0.
Proof.
  split.
  - apply (proj1 (similarity_range unit_vec2 unit_vec)).
    rewrite unit_vec_length, unit_vec2_length. reflexivity.
  - apply (proj1 (proj2 (similarity_range [1; 2; 3] unit_vec))).
    rewrite unit_vec_length. cbn. discriminate.
Defined.

(** X4.  The similarity does not depend on the order of its two
    arguments. *)
Theorem similarity_symmetric (a b : vec) :
  _calculate_similarity a b = _calculate_similarity b a.
Proof.
  destruct (Nat.eq_dec (length a) (length b)) as [E|N].
  - rewrite (similarity_same_length a b E),
      (similarity_same_length b a (eq_sym E)), sum_zip_comm.
    f_equal. f_equal. f_equal. ring.
  - rewrite (similarity_length_mismatch a b N).
    symmetry. apply similarity_length_mismatch. congruence.
Qed.

End SimilarityRange.

(** ** The acceptance threshold *)

Section Threshold.

Lemma clamp_range (x : R) : 0.1 <= Rmax 0.1 (Rmin 1.0 x) <= 1.
Proof.
  unfold Rmax, Rmin.
  destruct (Rle_dec 1.0 x); destruct (Rle_dec 0.1 _); lra.
Qed.

Lemma clamp_fixed (x : R) : 0.1 <= x <= 1 -> Rmax 0.1 (Rmin 1.0 x) = x.
Proof.
  intros Hx. unfold Rmax, Rmin.
  destruct (Rle_dec 1.0 x); destruct (Rle_dec 0.1 _); lra.
Qed.

Lemma clamp_monotone (x y : R) :
  x <= y -> Rmax 0.1 (Rmin 1.0 x) <= Rmax 0.1 (Rmin 1.0 y).
Proof.
  intros Hxy. unfold Rmax, Rmin.
  destruct (Rle_dec 1.0 x); destruct (Rle_dec 1.0 y);
    repeat destruct (Rle_dec 0.1 _); lra.
Qed.

Lemma clamp_high (x : R) : 1 <= x -> Rmax 0.1 (Rmin 1.0 x) = 1.
Proof.
  intros Hx. unfold Rmax, Rmin.
  destruct (Rle_dec 1.0 x); destruct (Rle_dec 0.1 _); lra.
Qed.

Lemma clamp_low (x : R) : x <= 0.1 -> Rmax 0.1 (Rmin 1.0 x) = 0.1.
Proof.
  intros Hx. unfold Rmax, Rmin.
  destruct (Rle_dec 1.0 x); destruct (Rle_dec 0.1 _); lra.
Qed.

(** The table of [clamp_threshold] is what the builtins compute. *)
Lemma clamp_threshold_builtin (x : py_float) :
  py_max (Finite 0.1) (py_min (Finite 1.0) x) = Finite (clamp_threshold x).
Proof.
  destruct x as [x|[|]|]; try reflexivity.
  - unfold py_min, py_max, py_lt. cbn [clamp_threshold]. unfold Rmax, Rmin.
    destruct (Rlt_dec x 1.0); destruct (Rle_dec 1.0 x); try lra.
    + destruct (Rlt_dec 0.1 x); destruct (Rle_dec 0.1 x); try lra;
        try reflexivity.
      f_equal. lra.
    + destruct (Rlt_dec 0.1 1.0); destruct (Rle_dec 0.1 1.0); try lra.
      reflexivity.
  - unfold py_min, py_max, py_lt. cbn [clamp_threshold].
    destruct (Rlt_dec 0.1 1.0); [reflexivity | lra].
  - unfold py_min, py_max, py_lt. cbn [clamp_threshold].
    destruct (Rlt_dec 0.1 1.0); [reflexivity | lra].
Qed.

Lemma clamp_threshold_range (x : py_float) : 0.1 <= clamp_threshold x <= 1.
Proof. destruct x as [x|[|]|]; cbn; [apply clamp_range | lra..]. Qed.

Lemma set_threshold_with (self : KaleidoRecognizer) (x : py_float) :
  set_recognition_threshold self (ArgFloat x)
  = Ok (with_threshold (clamp_threshold x) self).
Proof. reflexivity. Qed.

(** X5.  [set_recognition_threshold] raises exactly when
    [float(threshold)] raises something other than [TypeError] or
    [ValueError] ([OverflowError] for a huge integer), and the exception
    is that of [float].  In every other case it returns and leaves a
    threshold between 0.1 and 1.0: a number inside that range is taken
    as it is, a smaller one and [-inf] become 0.1, a larger one, [inf]
    and NaN become 1.0, and [None] or a value for which [float] raises
    [TypeError] or [ValueError] becomes 0.6.  The gallery and the cache
    are not touched. *)
Theorem set_recognition_threshold_clamps (self : KaleidoRecognizer)
    (threshold : float_arg) :
  (forall e, threshold = ArgRaises e -> is_TypeError_or_ValueError e = false ->
     set_recognition_threshold self threshold = Raise e) /\
  ((forall e, threshold = ArgRaises e -> is_TypeError_or_ValueError e = true) ->
   exists self',
     set_recognition_threshold self threshold = Ok self' /\
     0.1 <= recognition_threshold self' <= 1 /\
     (forall x, threshold = ArgFloat (Finite x) -> 0.1 <= x <= 1 ->
        recognition_threshold self' = x) /\
     (forall x, threshold = ArgFloat (Finite x) -> x <= 0.1 ->
        recognition_threshold self' = 0.1) /\
     (forall x, threshold = ArgFloat (Finite x) -> 1 <= x ->
        recognition_threshold self' = 1) /\
     (threshold = ArgFloat (Inf true) -> recognition_threshold self' = 0.1) /\
     (threshold = ArgFloat (Inf false) \/ threshold = ArgFloat NaN ->
      recognition_threshold self' = 1) /\
     (threshold = ArgNone \/ (exists e, threshold = ArgRaises e) ->
      recognition_threshold self' = 0.6) /\
     gallery self' = gallery self /\
     _embedding_cache self' = _embedding_cache self).
Proof.
  split.
  - intros e -> He. unfold set_recognition_threshold. cbn [safe_float].
    rewrite He. reflexivity.
  - intros Hcaught.
    assert (Hsafe : exists x, safe_float threshold 0.6 = Ok x /\
              (threshold = ArgNone \/ (exists e, threshold = ArgRaises e) ->
               x = Finite 0.6) /\
              (forall y, threshold = ArgFloat y -> x = y)).
    { destruct threshold as [|y|e]; cbn [safe_float].
      - exists (Finite 0.6). split; [reflexivity|]. split; [reflexivity|].
        intros y [=].
      - exists y. split; [reflexivity|]. split.
        + intros [[=]|[e [=]]].
        + intros y' [= <-]. reflexivity.
      - rewrite (Hcaught e eq_refl). exists (Finite 0.6).
        split; [reflexivity|]. split; [reflexivity|]. intros y [=]. }
    destruct Hsafe as (x & Hx & Hdefault & Hfloat).
    unfold set_recognition_threshold. rewrite Hx. cbn [mbind result_bind].
    eexists. split; [reflexivity|]. cbn [recognition_threshold].
    split; [apply clamp_threshold_range|].
    split; [intros y Hy Hr; rewrite (Hfloat _ Hy); apply clamp_fixed, Hr|].
    split; [intros y Hy Hr; rewrite (Hfloat _ Hy); apply clamp_low, Hr|].
    split; [intros y Hy Hr; rewrite (Hfloat _ Hy); apply clamp_high, Hr|].
    split; [intros Hy; rewrite (Hfloat _ Hy); reflexivity|].
    split; [intros [Hy|Hy]; rewrite (Hfloat _ Hy); cbn; lra|].
    split; [|split; reflexivity].
    intros Hd. rewrite (Hdefault Hd). apply clamp_fixed. lra.
Qed.

Lemma set_recognition_threshold_clamps_witness :
  set_recognition_threshold sample_one (ArgRaises OverflowError)
  = Raise OverflowError /\
  (exists self',
     set_recognition_threshold sample_one (ArgFloat (Finite 7)) = Ok self' /\
     recognition_threshold self' = 1) /\
  (exists self',
     set_recognition_threshold sample_one (ArgRaises ValueError) = Ok self' /\
     recognition_threshold self' = 0.6).
Proof.
  split; [|split].
  - apply (proj1 (set_recognition_threshold_clamps sample_one
                    (ArgRaises OverflowError)) OverflowError eq_refl).
    reflexivity.
  - destruct (proj2 (set_recognition_threshold_clamps sample_one
                       (ArgFloat (Finite 7))))
      as (self' & Hset & _ & _ & _ & Hhigh & _).
    + intros e [=].
    + exists self'. split; [exact Hset|]. apply (Hhigh 7 eq_refl). lra.
  - destruct (proj2 (set_recognition_threshold_clamps sample_one
                       (ArgRaises ValueError)))
      as (self' & Hset & _ & _ & _ & _ & _ & _ & Hdefault & _).
    + intros e [= <-]. reflexivity.
    + exists self'. split; [exact Hset|]. apply Hdefault. right. eauto.
Defined.

Lemma with_threshold_aligned (t : R) (self : KaleidoRecognizer) :
  aligned self -> aligned (with_threshold t self).
Proof. intros Hal. exact Hal. Qed.

(** The threshold only gates the scan: a match found under a threshold
    is the match found under every lower one. *)
Lemma recognize_face_gated (self : KaleidoRecognizer) (t1 t2 : R)
    (q : option vec) (id : Z) (c : R) (p : option Z) :
  aligned self -> t1 <= t2 ->
  recognize_face (with_threshold t2 self) q = Ok (Some id, c, p) ->
  recognize_face (with_threshold t1 self) q = Ok (Some id, c, p).
Proof.
  intros Hal Ht Hr2. destruct q as [e|]; [|discriminate Hr2].
  destruct (recognize_face_outcome (with_threshold t2 self) e
              (with_threshold_aligned t2 self Hal)) as (r2 & Hr2' & Hout2).
  rewrite Hr2 in Hr2'. injection Hr2' as <-.
  destruct Hout2 as [[Hnone _]|Hbest2]; [discriminate Hnone|].
  destruct Hbest2 as (i2 & k2 & id2 & p2 & Hk2 & Hid2 & Hp2 & Heq2 & Hgt2 & Hpos2
                      & Hfirst2 & Hmax2).
  cbn [known_embeddings known_ids known_photo_ids recognition_threshold
         with_threshold] in *.
  destruct (recognize_face_outcome (with_threshold t1 self) e
              (with_threshold_aligned t1 self Hal)) as (r1 & Hr1 & Hout1).
  rewrite Hr1. f_equal.
  destruct Hout1 as [[_ Hnone]|Hbest1].
  - exfalso. unfold no_candidate in Hnone. rewrite Forall_forall in Hnone.
    cbn [known_embeddings recognition_threshold with_threshold] in Hnone.
    apply (Hnone k2 (list_elem_of_lookup_2 _ _ _ Hk2)).
    unfold Rgt in *. split; lra.
  - destruct Hbest1 as (i1 & k1 & id1 & p1 & Hk1 & Hid1 & Hp1 & -> & Hgt1 & Hpos1
                        & Hfirst1 & Hmax1).
    cbn [known_embeddings known_ids known_photo_ids recognition_threshold
           with_threshold] in *.
    pose proof (Hmax1 i2 k2 Hk2) as H12. pose proof (Hmax2 i1 k1 Hk1) as H21.
    assert (Hi : i1 = i2).
    { destruct (lt_eq_lt_dec i1 i2) as [[Hlt|E]|Hgt]; [|exact E|].
      - pose proof (Hfirst2 i1 k1 Hlt Hk1). lra.
      - pose proof (Hfirst1 i2 k2 Hgt Hk2). lra. }
    subst i2. congruence.
Qed.

(** X6.  Lowering the threshold never changes who is recognised: on an
    aligned gallery, a match returned after the threshold was set to
    [t2] is returned unchanged after it was set to any [t1 <= t2]. *)
Theorem recognize_face_threshold_monotone (self : KaleidoRecognizer)
    (t1 t2 : R) (q : option vec) (id : Z) (c : R) (p : option Z) :
  aligned self -> t1 <= t2 ->
  (self2 ← set_recognition_threshold self (ArgFloat (Finite t2));
   recognize_face self2 q)
  = Ok (Some id, c, p) ->
  (self1 ← set_recognition_threshold self (ArgFloat (Finite t1));
   recognize_face self1 q)
  = Ok (Some id, c, p).
Proof.
  intros Hal Ht. rewrite !set_threshold_with. cbn [mbind result_bind].
  apply recognize_face_gated; [exact Hal | apply clamp_monotone, Ht].
Qed.

Lemma sample_one_recognize_at (t : R) :
  t < 0.9 ->
  recognize_face (with_threshold t sample_one) (Some unit_vec)
  = Ok (Some 7%Z, _calculate_similarity unit_vec unit_vec, Some 101%Z).
Proof.
  intros Ht. pose proof unit_vec_similarity_self as Hs.
  unfold recognize_face.
  cbn [with_threshold sample_one known_embeddings length Nat.eqb
         enumerate_from recognize_loop].
  rewrite (recognize_step_replace _ _ _ _ _ 7%Z (Some 101%Z)); try reflexivity.
  - cbn [fst snd]. unfold Rgt. lra.
  - cbn [recognition_threshold with_threshold]. unfold Rgt. lra.
Qed.

Lemma recognize_face_threshold_monotone_witness :
  (self1 ← set_recognition_threshold sample_one (ArgFloat (Finite 0.3));
   recognize_face self1 (Some unit_vec))
  = Ok (Some 7%Z, _calculate_similarity unit_vec unit_vec, Some 101%Z).
Proof.
  apply (recognize_face_threshold_monotone sample_one 0.3 0.8).
  - exact sample_one_aligned.
  - lra.
  - rewrite set_threshold_with. cbn [mbind result_bind clamp_threshold].
    rewrite clamp_fixed by lra.
    apply sample_one_recognize_at. lra.
Defined.

(** X7.  In exact arithmetic, once the threshold has been set to 1.0 or
    more, which the setter clamps to 1.0, [recognize_face] matches
    nothing, whatever the gallery holds: no similarity reaches 1. *)
Theorem recognize_face_threshold_one (self : KaleidoRecognizer) (t : R)
    (q : option vec) :
  1 <= t ->
  (self' ← set_recognition_threshold self (ArgFloat (Finite t));
   recognize_face self' q)
  = Ok (None, 0, None).
Proof.
  intros Ht. rewrite set_threshold_with. cbn [mbind result_bind].
  destruct q as [e|]; [|reflexivity].
  unfold recognize_face.
  destruct (length _ =? 0)%nat; [reflexivity|].
  apply recognize_loop_below.
  apply (enumerate_from_snd
           (fun k => _calculate_similarity e k
                     <= recognition_threshold
                          (with_threshold (clamp_threshold (Finite t)) self))).
  apply Forall_forall. intros k _.
  cbn [recognition_threshold with_threshold clamp_threshold].
  rewrite clamp_high by exact Ht.
  pose proof (similarity_below_one e k). lra.
Qed.

Lemma recognize_face_threshold_one_witness :
  (self' ← set_recognition_threshold sample_one (ArgFloat (Finite 1));
   recognize_face self' (Some unit_vec))
  = Ok (None, 0, None).
Proof. apply recognize_face_threshold_one. lra. Defined.

End Threshold.

(** ** The extractor and the face detector *)

Section Extraction.

Context `{Vision}.

Lemma flatten_landmarks_length (face : list (R * R * R)) :
  length (flatten_landmarks face) = (3 * length face)%nat.
Proof.
  unfold flatten_landmarks.
  induction face as [|[[x y] z] face IH]; [reflexivity|].
  cbn [flat_map length app]. cbn [length] in IH. rewrite IH. lia.
Qed.

Lemma extract_embedding_some (image : Image) (v : vec) :
  extract_embedding image = Some v <->
  exists face rest,
    face_mesh_process image = Ok (face :: rest) /\
    length face = 468%nat /\
    v = _normalize_embedding (flatten_landmarks face).
Proof.
  unfold extract_embedding. split.
  - destruct (face_mesh_process image) as [[|face rest]|e]; try discriminate.
    destruct (Nat.eqb_spec (length (flatten_landmarks face)) embedding_size)
      as [Hlen|Hlen]; [|discriminate].
    intros [= <-]. exists face, rest. split; [reflexivity|].
    split; [|reflexivity].
    rewrite flatten_landmarks_length, embedding_size_eq in Hlen. lia.
  - intros (face & rest & -> & Hlen & ->).
    rewrite (proj2 (Nat.eqb_eq _ _)); [reflexivity|].
    rewrite flatten_landmarks_length, Hlen. reflexivity.
Qed.

Lemma extract_embedding_length (image : Image) (v : vec) :
  extract_embedding image = Some v -> length v = embedding_size.
Proof.
  intros Hv. apply extract_embedding_some in Hv as (face & rest & _ & Hlen & ->).
  rewrite normalize_length, flatten_landmarks_length, Hlen. reflexivity.
Qed.

Lemma extract_embedding_from_pil_length (pil_image : PILImage) (v : vec) :
  extract_embedding_from_pil pil_image = Some v -> length v = embedding_size.
Proof.
  unfold extract_embedding_from_pil.
  destruct (pil_to_array pil_image) as [image|e]; [|discriminate].
  apply extract_embedding_length.
Qed.

(** X8.  [extract_embedding] returns an embedding exactly when the mesh
    model answers with at least one face and the first face has 468
    landmarks; the embedding is then [_normalize_embedding] of the
    flattened coordinates of that first face and has [embedding_size]
    coordinates.  Faces after the first play no part, and in every other
    case, an exception of the mesh model included, the result is
    [None]. *)
Theorem extract_embedding_first_face (image : Image) :
  (forall v,
     extract_embedding image = Some v <->
     exists face rest,
       face_mesh_process image = Ok (face :: rest) /\
       length face = 468%nat /\
       v = _normalize_embedding (flatten_landmarks face)) /\
  (forall v, extract_embedding image = Some v -> length v = embedding_size) /\
  ((forall face rest, face_mesh_process image = Ok (face :: rest) ->
      length face <> 468%nat) ->
   extract_embedding image = None).
Proof.
  split; [apply extract_embedding_some|]. split.
  - intros v Hv. eapply extract_embedding_length, Hv.
  - intros Hno. destruct (extract_embedding image) as [v|] eqn:E; [|reflexivity].
    apply extract_embedding_some in E as (face & rest & Hp & Hlen & _).
    exfalso. exact (Hno face rest Hp Hlen).
Qed.

(** X9.  On an image with at least two dimensions
    [extract_embedding_with_landmarks] computes the same embedding as
    [extract_embedding], and returns pixel landmarks, one per landmark of
    the first face, exactly when it returns an embedding.  On an image
    with fewer dimensions it returns [(None, None)]. *)
Theorem extract_embedding_with_landmarks_agrees (image : Image) :
  ((2 <= length (shape image))%nat ->
   fst (extract_embedding_with_landmarks image) = extract_embedding image /\
   (forall v, fst (extract_embedding_with_landmarks image) = Some v ->
      exists points,
        snd (extract_embedding_with_landmarks image) = Some points /\
        length points = 468%nat) /\
   (fst (extract_embedding_with_landmarks image) = None ->
    snd (extract_embedding_with_landmarks image) = None)) /\
  ((length (shape image) < 2)%nat ->
   extract_embedding_with_landmarks image = (None, None)).
Proof.
  unfold extract_embedding_with_landmarks, extract_embedding. split.
  - intros Hdim.
    destruct (face_mesh_process image) as [[|face rest]|e];
      try (cbn; repeat split; try reflexivity; discriminate).
    destruct (shape image) as [|h [|w dims]]; cbn in Hdim; try lia.
    destruct (Nat.eqb_spec (length (flatten_landmarks face)) embedding_size)
      as [Hlen|Hlen]; cbn [fst snd].
    + split; [reflexivity|]. split; [|discriminate].
      intros v _. eexists. split; [reflexivity|].
      rewrite length_map.
      rewrite flatten_landmarks_length, embedding_size_eq in Hlen. lia.
    + split; [reflexivity|]. split; [discriminate | reflexivity].
  - intros Hdim.
    destruct (face_mesh_process image) as [[|face rest]|e]; try reflexivity.
    destruct (shape image) as [|h [|w dims]]; cbn in Hdim; try reflexivity.
    lia.
Qed.

Lemma detect_one_inside (image : Image) (d : detection) (face : face_info) :
  detect_one image d = Ok (Some face) ->
  exists rows cols channels,
    shape image = [rows; cols; channels] /\
    box_inside rows cols (face_bbox face) /\
    face_landmarks face = None.
Proof.
  unfold detect_one.
  destruct (detection_location_data d) as [loc|]; [|discriminate].
  destruct (shape image) as [|h [|w [|c [|? ?]]]]; try discriminate.
  intros [= <-]. exists h, w, c. split; [reflexivity|].
  cbn [face_bbox face_landmarks box_inside]. split; [|reflexivity]. lia.
Qed.

Lemma detect_loop_inside (image : Image) (detections : list detection)
    (faces faces' : list face_info) (P : face_info -> Prop) :
  (forall d face, detect_one image d = Ok (Some face) -> P face) ->
  Forall P faces ->
  detect_loop image detections faces = Ok faces' ->
  Forall P faces' /\
  (length faces' <= length faces + length detections)%nat.
Proof.
  intros Hone. revert faces.
  induction detections as [|d detections IH]; intros faces Hall.
  - cbn. intros [= <-]. split; [exact Hall | lia].
  - cbn [detect_loop]. destruct (detect_one image d) as [[face|]|e] eqn:Hd;
      cbn [mbind result_bind]; [| |discriminate].
    + intros Hloop. apply IH in Hloop as [Hp Hlen].
      * split; [exact Hp|]. rewrite length_app in Hlen. cbn in *. lia.
      * apply Forall_app. split; [exact Hall|].
        constructor; [eapply Hone, Hd | constructor].
    + intros Hloop. apply IH in Hloop as [Hp Hlen]; [|exact Hall].
      split; [exact Hp|]. cbn. lia.
Qed.

Lemma detect_faces_inside (image : Image) (face : face_info) :
  face ∈ detect_faces image ->
  exists rows cols channels,
    shape image = [rows; cols; channels] /\
    box_inside rows cols (face_bbox face) /\
    face_landmarks face = None.
Proof.
  unfold detect_faces.
  destruct (face_detection_process image) as [detections|e];
    [|intros Hin; apply elem_of_nil in Hin; contradiction].
  destruct (detect_loop image detections []) as [faces|e] eqn:Hloop;
    [|intros Hin; apply elem_of_nil in Hin; contradiction].
  intros Hin.
  destruct (detect_loop_inside image detections [] faces
              (fun face => exists rows cols channels,
                   shape image = [rows; cols; channels] /\
                   box_inside rows cols (face_bbox face) /\
                   face_landmarks face = None)) as [Hall _]; auto.
  - intros d f. apply detect_one_inside.
  - rewrite Forall_forall in Hall. apply Hall, Hin.
Qed.

Lemma detect_faces_count (image : Image) (detections : list detection) :
  face_detection_process image = Ok detections ->
  (length (detect_faces image) <= length detections)%nat.
Proof.
  intros Hd. unfold detect_faces. rewrite Hd.
  destruct (detect_loop image detections []) as [faces|e] eqn:Hloop;
    [|cbn; lia].
  destruct (detect_loop_inside image detections [] faces (fun _ => True))
    as [_ Hlen]; auto.
Qed.

(** X10.  Every face [detect_faces] returns comes from an image of
    exactly three dimensions and its padded box lies inside that image:
    [x >= 0], [y >= 0], [x + width <= columns], [y + height <= rows].
    There are never more faces than detections, and when the detector
    raises there is none. *)
Theorem detect_faces_boxes_inside (image : Image) :
  (forall face, face ∈ detect_faces image ->
     exists rows cols channels,
       shape image = [rows; cols; channels] /\
       box_inside rows cols (face_bbox face)) /\
  (forall detections, face_detection_process image = Ok detections ->
     (length (detect_faces image) <= length detections)%nat) /\
  (forall e, face_detection_process image = Raise e -> detect_faces image = []).
Proof.
  split; [|split].
  - intros face Hin.
    destruct (detect_faces_inside image face Hin)
      as (rows & cols & channels & Hs & Hb & _).
    exists rows, cols, channels. split; assumption.
  - apply detect_faces_count.
  - intros e He. unfold detect_faces. rewrite He. reflexivity.
Qed.

Lemma roi_in_image_inside (image : Image) (rows cols channels : Z)
    (box : Z * Z * Z * Z) :
  shape image = [rows; cols; channels] -> box_inside rows cols box ->
  roi_in_image image box = Ok true.
Proof.
  intros Hs. destruct box as [[[x y] w] h]. cbn [box_inside].
  intros (Hx & Hy & Hw & Hh). unfold roi_in_image, getitem. rewrite Hs. cbn.
  rewrite (proj2 (Z.leb_le 0 x) Hx), (proj2 (Z.leb_le 0 y) Hy).
  cbn. rewrite (proj2 (Z.leb_le _ _) Hw). cbn.
  rewrite (proj2 (Z.leb_le _ _) Hh). reflexivity.
Qed.

(** X11.  On an aligned gallery, whenever [detect_faces] reports at
    least one face, [recognize_face_in_image] returns exactly one
    result: the box test that follows the loop cannot fail on a box that
    [detect_faces] produced.  The result is the one of the last face. *)
Theorem recognize_face_in_image_one_result (self : KaleidoRecognizer)
    (image : Image) (extract_landmarks : bool) :
  aligned self -> detect_faces image <> [] ->
  exists face r,
    last (detect_faces image) = Some face /\
    recognize_face_in_image self image extract_landmarks = Ok [r] /\
    rec_bbox r = face_bbox face /\
    rec_detection_confidence r = face_confidence face.
Proof.
  intros Hal Hne. unfold recognize_face_in_image.
  destruct (last (detect_faces image)) as [face|] eqn:Hlast.
  2:{ apply last_None in Hlast. contradiction. }
  destruct (detect_faces_inside image face (last_Some_elem_of _ _ Hlast))
    as (rows & cols & channels & Hs & Hb & _).
  rewrite (recognize_detected_last _ _ _ _ _ Hlast).
  unfold recognize_detected. cbn [bbox_loop foldl].
  destruct (face_bbox face) as [[[x y] w] h] eqn:Hbox.
  rewrite (roi_in_image_inside image rows cols channels (x, y, w, h) Hs Hb).
  cbn [mbind result_bind].
  destruct (if extract_landmarks
            then extract_embedding_with_landmarks
                   (slice image y (y + h) x (x + w))
            else (extract_embedding (slice image y (y + h) x (x + w)),
                  face_landmarks face)) as [embedding landmarks].
  destruct (recognize_face_total self embedding Hal) as [[[pid conf] photo] ->].
  cbn [mbind result_bind]. eexists face, _. split; [reflexivity|].
  split; [reflexivity|]. cbn. split; [rewrite Hbox|]; reflexivity.
Qed.

End Extraction.

Lemma extract_embedding_first_face_witness :
  @extract_embedding sample_vision mesh_frame
  = Some (_normalize_embedding
            (@flatten_landmarks (replicate 468 (0.5, 0.25, 0)))).
Proof.
  apply (proj1 (@extract_embedding_first_face sample_vision mesh_frame)).
  exists (replicate 468 (0.5, 0.25, 0)), [].
  split; [reflexivity|]. split; [apply length_replicate | reflexivity].
Defined.

Lemma extract_embedding_with_landmarks_agrees_witness :
  fst (@extract_embedding_with_landmarks sample_vision mesh_frame)
  = @extract_embedding sample_vision mesh_frame.
Proof.
  apply (proj1 (@extract_embedding_with_landmarks_agrees sample_vision
                  mesh_frame)).
  cbn. lia.
Defined.

Lemma detect_faces_boxes_inside_witness :
  exists rows cols channels,
    @shape sample_vision two_face_frame = [rows; cols; channels] /\
    box_inside rows cols (face_bbox right_face).
Proof.
  apply (proj1 (@detect_faces_boxes_inside sample_vision two_face_frame)).
  rewrite detect_two_faces. apply list_elem_of_further, list_elem_of_here.
Defined.

Lemma recognize_face_in_image_one_result_witness :
  exists face r,
    last (@detect_faces sample_vision two_face_frame) = Some face /\
    @recognize_face_in_image sample_vision sample_two two_face_frame true
    = Ok [r] /\
    rec_bbox r = face_bbox face /\
    rec_detection_confidence r = face_confidence face.
Proof.
  apply (@recognize_face_in_image_one_result sample_vision sample_two
           two_face_frame true sample_two_aligned two_face_frame_detected).
Defined.

(** ** What every public operation keeps true *)

Section WellFormed.

Context `{Vision} {DB : Type} `{!Database DB}.

Lemma wf_add (self : KaleidoRecognizer) (e : vec) (person : person_data)
    (p : option Z) :
  well_formed self -> length e = embedding_size ->
  well_formed (fst (_add_embedding_to_memory self e person p)).
Proof.
  intros (Hal & Hd & Hc) Hlen. split; [apply add_aligned, Hal|].
  split; [|exact Hc]. cbn. apply Forall_app. split; [exact Hd|].
  constructor; [exact Hlen | constructor].
Qed.

Lemma wf_add_existing (self : KaleidoRecognizer) (embedding : option vec)
    (person : person_data) (p : option Z) :
  well_formed self ->
  well_formed (fst (add_existing_embedding self embedding person p)).
Proof.
  intros Hwf. unfold add_existing_embedding.
  destruct embedding as [e|]; [|exact Hwf].
  destruct (Nat.eqb_spec (length e) embedding_size) as [Hlen|_]; [|exact Hwf].
  apply wf_add; assumption.
Qed.

Lemma add_existing_true_length (self self' : KaleidoRecognizer)
    (e : vec) (person : person_data) (p : option Z) :
  add_existing_embedding self (Some e) person p = (self', true) ->
  length e = embedding_size.
Proof.
  unfold add_existing_embedding.
  destruct (Nat.eqb_spec (length e) embedding_size) as [Hlen|_];
    [auto | discriminate].
Qed.

Lemma wf_train_from_image (self : KaleidoRecognizer) (image : Image)
    (person : person_data) (p : option Z) :
  well_formed self -> well_formed (fst (train_from_image self image person p)).
Proof.
  intros Hwf. unfold train_from_image.
  destruct (extract_embedding image) as [e|] eqn:He; [|exact Hwf].
  apply wf_add; [exact Hwf | eapply extract_embedding_length, He].
Qed.

Lemma wf_train_from_pil (self : KaleidoRecognizer) (pil_image : PILImage)
    (person : person_data) (p : option Z) :
  well_formed self -> well_formed (fst (train_from_pil self pil_image person p)).
Proof.
  intros Hwf. unfold train_from_pil.
  destruct (extract_embedding_from_pil pil_image) as [e|] eqn:He; [|exact Hwf].
  apply wf_add; [exact Hwf | eapply extract_embedding_from_pil_length, He].
Qed.

Lemma wf_cache_insert (self : KaleidoRecognizer) (k : Z) (e : vec) :
  well_formed self -> length e = embedding_size ->
  well_formed (set_embedding_cache (<[k := e]> (_embedding_cache self)) self).
Proof.
  intros (Hal & Hd & Hc) Hlen. split; [exact Hal|]. split; [exact Hd|].
  cbn. apply map_Forall_insert_2; assumption.
Qed.

Lemma wf_batch_train_photo (person_id : Z) (person_name : string) (ph : photo)
    (self : KaleidoRecognizer) (database : DB) :
  well_formed self ->
  well_formed
    (fst (fst (batch_train_photo person_id person_name ph self database))).
Proof.
  intros Hwf. unfold batch_train_photo.
  destruct (_embedding_cache self !! photo_id ph) as [c|].
  { pose proof (wf_add_existing self (Some c)
                  {| pd_id := Some person_id; pd_last_name := Some person_name;
                     pd_first_name := None |} (Some (photo_id ph)) Hwf) as Hw.
    destruct (add_existing_embedding _ _ _ _) as [s ok]. exact Hw. }
  destruct (has_face_embedding ph).
  - destruct (get_photo_embedding database (photo_id ph)) as [[e|]|err];
      try exact Hwf.
    pose proof (wf_add_existing self (Some e)
                  {| pd_id := Some person_id; pd_last_name := Some person_name;
                     pd_first_name := None |} (Some (photo_id ph)) Hwf) as Hw.
    destruct (add_existing_embedding _ _ _ _) as [s ok] eqn:Hadd.
    destruct ok; [|exact Hw].
    cbn [fst]. apply wf_cache_insert; [exact Hw|].
    eapply add_existing_true_length, Hadd.
  - destruct (get_photo_as_image database (photo_id ph)) as [[pil|]|err];
      try exact Hwf.
    pose proof (wf_train_from_pil self pil
                  {| pd_id := Some person_id; pd_last_name := Some person_name;
                     pd_first_name := None |} (Some (photo_id ph)) Hwf) as Hw.
    destruct (train_from_pil _ _ _ _) as [s ok]. destruct ok; [|exact Hw].
    destruct (extract_embedding_from_pil pil) as [e|] eqn:He; [|exact Hw].
    destruct (update_photo_embedding _ _ _) as [database' b]. cbn [fst].
    apply wf_cache_insert; [exact Hw|].
    eapply extract_embedding_from_pil_length, He.
Qed.

Lemma wf_batch_train_loop (person_id : Z) (person_name : string)
    (photos : list photo) (self : KaleidoRecognizer) (database : DB) (n : nat) :
  well_formed self ->
  well_formed
    (fst (fst (batch_train_loop person_id person_name photos self database n))).
Proof.
  revert self database n.
  induction photos as [|ph photos IH]; intros self database n Hwf;
    [exact Hwf|].
  cbn [batch_train_loop].
  pose proof (wf_batch_train_photo person_id person_name ph self database Hwf)
    as Hw.
  destruct (batch_train_photo person_id person_name ph self database)
    as [[self1 database1] [counted|e]]; [apply IH, Hw | exact Hw].
Qed.

Lemma wf_batch_train_person (self : KaleidoRecognizer) (person_id : Z)
    (person_name : string) (database : DB) :
  well_formed self ->
  well_formed
    (fst (fst (batch_train_person self person_id person_name database))).
Proof.
  intros Hwf. unfold batch_train_person.
  destruct (get_person_photos database person_id) as [photos|e]; [|exact Hwf].
  pose proof (wf_batch_train_loop person_id person_name photos self database 0
                Hwf) as Hw.
  destruct (batch_train_loop person_id person_name photos self database 0)
    as [[self1 database1] [n|e]]; exact Hw.
Qed.

Lemma wf_batch_train_all_loop (people : list person_data)
    (self : KaleidoRecognizer) (database : DB) (n : nat) :
  well_formed self ->
  well_formed (fst (fst (batch_train_all_loop people self database n))).
Proof.
  revert self database n.
  induction people as [|person people IH]; intros self database n Hwf;
    [exact Hwf|].
  cbn [batch_train_all_loop].
  destruct (pd_id person) as [person_id|]; [|exact Hwf].
  match goal with
  | |- context [batch_train_person self person_id ?name database] =>
      pose proof (wf_batch_train_person self person_id name database Hwf) as Hw;
      destruct (batch_train_person self person_id name database)
        as [[self1 database1] count]
  end.
  apply IH, Hw.
Qed.

Lemma wf_batch_train_all (self : KaleidoRecognizer) (database : DB) :
  well_formed self -> well_formed (fst (fst (batch_train_all self database))).
Proof.
  intros Hwf. unfold batch_train_all.
  destruct (get_all_people database) as [people|e]; [|exact Hwf].
  apply wf_batch_train_all_loop, Hwf.
Qed.

Lemma load_photos_cache (database : DB) (person : person_data) (person_id : Z)
    (photos : list photo) (self : KaleidoRecognizer) (n : nat) :
  map_Forall (fun (_ : Z) (e : vec) => length e = embedding_size)
             (_embedding_cache self) ->
  map_Forall (fun (_ : Z) (e : vec) => length e = embedding_size)
             (_embedding_cache
                (fst (load_photos database person person_id photos self n))).
Proof.
  revert self n. induction photos as [|ph photos IH]; intros self n Hc;
    [exact Hc|].
  cbn [load_photos].
  destruct (get_photo_embedding database (photo_id ph)) as [[e|]|err];
    [|apply IH, Hc|exact Hc].
  destruct (Nat.eqb_spec (length e) embedding_size) as [Hlen|_];
    [|apply IH, Hc].
  apply IH. cbn. apply map_Forall_insert_2; assumption.
Qed.

Lemma load_people_cache (database : DB) (people : list person_data)
    (self : KaleidoRecognizer) (n : nat) :
  map_Forall (fun (_ : Z) (e : vec) => length e = embedding_size)
             (_embedding_cache self) ->
  map_Forall (fun (_ : Z) (e : vec) => length e = embedding_size)
             (_embedding_cache (fst (load_people database people self n))).
Proof.
  revert self n. induction people as [|person people IH]; intros self n Hc;
    [exact Hc|].
  cbn [load_people].
  destruct (pd_id person) as [person_id|]; [|exact Hc].
  destruct (get_person_photos database person_id) as [photos|e]; [|exact Hc].
  pose proof (load_photos_cache database person person_id photos self n Hc)
    as Hc1.
  destruct (load_photos database person person_id photos self n)
    as [self1 [n1|e]]; [apply IH, Hc1 | exact Hc1].
Qed.

Lemma wf_load (self : KaleidoRecognizer) (database : DB) :
  well_formed (fst (load_embeddings_from_database self database)).
Proof.
  split; [apply load_refines|]. rewrite load_from_fresh.
  destruct (get_all_people database) as [people|e].
  2:{ split; [constructor | apply map_Forall_empty]. }
  destruct (load_people_refines database people (fresh self) 0
              (fresh_aligned self)) as ((_ & _ & Hd & _) & _).
  pose proof (load_people_cache database people (fresh self) 0
                (map_Forall_empty _)) as Hc.
  destruct (load_people database people (fresh self) 0) as [self' [n|e]];
    (split; [apply Hd; constructor | exact Hc]).
Qed.

Lemma wf_import_rows (rows : list export_row) (self : KaleidoRecognizer)
    (n : nat) :
  well_formed self -> well_formed (fst (import_rows self rows n)).
Proof.
  revert self n. induction rows as [|data rows IH]; intros self n Hwf;
    [exact Hwf|].
  cbn [import_rows].
  match goal with
  | |- context [add_existing_embedding self ?e ?person ?p] =>
      pose proof (wf_add_existing self e person p Hwf) as Hw;
      destruct (add_existing_embedding self e person p) as [self1 ok]
  end.
  apply IH, Hw.
Qed.

Lemma Forall_delete_index {A : Type} (P : A -> Prop) (l : list A) (k : nat) :
  Forall P l -> Forall P (delete k l).
Proof.
  intros Hl. revert k. induction Hl as [|x l Hx Hl IH]; intros [|k]; cbn.
  - constructor.
  - constructor.
  - exact Hl.
  - constructor; [exact Hx | apply IH].
Qed.

Lemma wf_remove (self : KaleidoRecognizer) (p : option Z) :
  well_formed self -> well_formed (fst (remove_embedding_by_photo_id self p)).
Proof.
  intros (Hal & Hd & Hc).
  split; [apply remove_aligned_gallery, Hal|].
  pose proof (list_index_first p (known_photo_ids self)) as Hspec.
  destruct (list_index p (known_photo_ids self)) as [k|] eqn:Hk.
  - rewrite (remove_found self p k Hal Hk). cbn.
    split; [apply Forall_delete_index, Hd|].
    destruct p as [q|]; [apply map_Forall_delete, Hc | exact Hc].
  - rewrite (remove_absent self p Hspec). split; assumption.
Qed.

Lemma wf_apply_operation (state : KaleidoRecognizer * DB) (op : operation) :
  well_formed (fst state) -> well_formed (fst (apply_operation state op)).
Proof.
  destruct state as [self database]. cbn [fst]. intros Hwf.
  destruct op; cbn [apply_operation fst].
  - apply wf_train_from_image, Hwf.
  - apply wf_train_from_pil, Hwf.
  - apply wf_add_existing, Hwf.
  - apply wf_batch_train_person, Hwf.
  - apply wf_batch_train_all, Hwf.
  - apply wf_load.
  - apply wf_import_rows, Hwf.
  - apply wf_remove, Hwf.
  - destruct Hwf as (_ & _ & Hc).
    split; [repeat split|]. split; [constructor | exact Hc].
  - destruct (set_recognition_threshold self threshold) as [self'|e] eqn:Hset;
      [|exact Hwf].
    unfold set_recognition_threshold in Hset.
    destruct (safe_float threshold 0.6) as [x|e]; [|discriminate Hset].
    injection Hset as <-. exact Hwf.
Qed.

(** X12.  Whatever sequence of public operations is run on a freshly
    constructed recognizer (training from an image, a PIL image or an
    existing vector, batch training of a person or of everybody,
    reloading, importing, removing a photo, clearing, setting the
    threshold), the four lists stay aligned and every vector in the
    gallery and in the cache has [embedding_size] coordinates. *)
Theorem public_operations_well_formed (ops : list operation) (database : DB) :
  well_formed (fst (foldl apply_operation (init, database) ops)).
Proof.
  assert (Hgen : forall state,
             well_formed (fst state) ->
             well_formed (fst (foldl apply_operation state ops))).
  { induction ops as [|op ops IH]; intros state Hwf; [exact Hwf|].
    cbn [foldl]. apply IH, wf_apply_operation, Hwf. }
  apply Hgen. cbn [fst].
  split; [apply init_aligned|]. split; [constructor | apply map_Forall_empty].
Qed.

End WellFormed.

(** ** Batch training only appends *)

Section BatchGrowth.

Context `{Vision} {DB : Type} `{!Database DB}.

Lemma grows_by_refl (Q : entry -> Prop) (self : KaleidoRecognizer) :
  aligned self -> grows_by Q self self [].
Proof.
  intros Hal. split; [exact Hal|]. split; [|constructor].
  rewrite app_nil_r. reflexivity.
Qed.

Lemma grows_by_trans (Q : entry -> Prop) (s1 s2 s3 : KaleidoRecognizer)
    (a1 a2 : list entry) :
  grows_by Q s1 s2 a1 -> grows_by Q s2 s3 a2 -> grows_by Q s1 s3 (a1 ++ a2).
Proof.
  intros (_ & Hg1 & Hq1) (Hal & Hg2 & Hq2). split; [exact Hal|]. split.
  - rewrite Hg2, Hg1, app_assoc. reflexivity.
  - apply Forall_app. split; assumption.
Qed.

Lemma grows_by_cache (Q : entry -> Prop) (s1 s2 : KaleidoRecognizer)
    (added : list entry) (m : gmap Z vec) :
  grows_by Q s1 s2 added -> grows_by Q s1 (set_embedding_cache m s2) added.
Proof. intros Hg. exact Hg. Qed.

Lemma add_grows (self : KaleidoRecognizer) (e : vec) (person_id : Z)
    (name : option string) (p : option Z) :
  aligned self ->
  let person := {| pd_id := Some person_id; pd_last_name := name;
                   pd_first_name := None |} in
  grows_by (fun en => entry_id en = person_id /\
                      entry_name en = display_name_of person /\
                      entry_photo_id en = p)
    self (fst (_add_embedding_to_memory self e person p))
    [ {| entry_embedding := e; entry_name := display_name_of person;
         entry_id := person_id; entry_photo_id := p |} ].
Proof.
  intros Hal person. split; [apply add_aligned, Hal|]. split.
  - rewrite (add_gallery self e person p Hal). reflexivity.
  - constructor; [|constructor]. cbn. auto.
Qed.

Lemma add_existing_grows (self : KaleidoRecognizer) (e : vec)
    (person_id : Z) (person_name : string) (p : Z) :
  aligned self ->
  exists added,
    grows_by (batch_entry person_id person_name) self
      (fst (add_existing_embedding self (Some e)
              {| pd_id := Some person_id; pd_last_name := Some person_name;
                 pd_first_name := None |} (Some p)))
      added /\
    length added
    = (if snd (add_existing_embedding self (Some e)
                 {| pd_id := Some person_id; pd_last_name := Some person_name;
                    pd_first_name := None |} (Some p))
       then 1 else 0)%nat.
Proof.
  intros Hal. unfold add_existing_embedding.
  destruct (Nat.eqb_spec (length e) embedding_size) as [Hlen|_].
  - destruct (add_grows self e person_id (Some person_name) (Some p) Hal)
      as (Ha & Hg & Hq).
    eexists. split.
    + split; [exact Ha|]. split; [exact Hg|].
      constructor; [|constructor]. cbn. repeat split; eauto.
    + reflexivity.
  - exists []. split; [apply grows_by_refl, Hal | reflexivity].
Qed.

Lemma train_from_pil_grows (self : KaleidoRecognizer) (pil_image : PILImage)
    (person_id : Z) (person_name : string) (p : Z) :
  aligned self ->
  exists added,
    grows_by (batch_entry person_id person_name) self
      (fst (train_from_pil self pil_image
              {| pd_id := Some person_id; pd_last_name := Some person_name;
                 pd_first_name := None |} (Some p)))
      added /\
    length added
    = (if snd (train_from_pil self pil_image
                 {| pd_id := Some person_id; pd_last_name := Some person_name;
                    pd_first_name := None |} (Some p))
       then 1 else 0)%nat.
Proof.
  intros Hal. unfold train_from_pil.
  destruct (extract_embedding_from_pil pil_image) as [e|] eqn:He.
  - destruct (add_grows self e person_id (Some person_name) (Some p) Hal)
      as (Ha & Hg & Hq).
    eexists. split.
    + split; [exact Ha|]. split; [exact Hg|].
      constructor; [|constructor]. cbn. repeat split; eauto.
      eapply extract_embedding_from_pil_length, He.
    + reflexivity.
  - exists []. split; [apply grows_by_refl, Hal | reflexivity].
Qed.

Lemma batch_train_photo_grows (person_id : Z) (person_name : string)
    (ph : photo) (self : KaleidoRecognizer) (database : DB) :
  aligned self ->
  exists added,
    grows_by (batch_entry person_id person_name) self
      (fst (fst (batch_train_photo person_id person_name ph self database)))
      added /\
    length added
    = match snd (batch_train_photo person_id person_name ph self database) with
      | Ok true => 1%nat
      | _ => 0%nat
      end.
Proof.
  intros Hal. unfold batch_train_photo.
  destruct (_embedding_cache self !! photo_id ph) as [c|].
  { destruct (add_existing_grows self c person_id person_name (photo_id ph) Hal)
      as (added & Hg & Hlen).
    destruct (add_existing_embedding _ _ _ _) as [s ok]. cbn [fst snd] in *.
    exists added. split; [exact Hg|]. destruct ok; exact Hlen. }
  destruct (has_face_embedding ph).
  - destruct (get_photo_embedding database (photo_id ph)) as [[e|]|err];
      try (exists []; split; [apply grows_by_refl, Hal | reflexivity]).
    destruct (add_existing_grows self e person_id person_name (photo_id ph) Hal)
      as (added & Hg & Hlen).
    destruct (add_existing_embedding _ _ _ _) as [s ok]. cbn [fst snd] in *.
    exists added. destruct ok; cbn [fst snd]; split; assumption.
  - destruct (get_photo_as_image database (photo_id ph)) as [[pil|]|err];
      try (exists []; split; [apply grows_by_refl, Hal | reflexivity]).
    destruct (train_from_pil_grows self pil person_id person_name (photo_id ph)
                Hal) as (added & Hg & Hlen).
    destruct (train_from_pil _ _ _ _) as [s ok]. cbn [fst snd] in *.
    exists added. destruct ok; cbn [fst snd]; [|split; assumption].
    destruct (extract_embedding_from_pil pil) as [e|];
      [destruct (update_photo_embedding _ _ _) as [database' b]|];
      cbn [fst snd]; split; assumption.
Qed.

Lemma batch_train_loop_grows (person_id : Z) (person_name : string)
    (photos : list photo) (self : KaleidoRecognizer) (database : DB) (n : nat) :
  aligned self ->
  exists added,
    grows_by (batch_entry person_id person_name) self
      (fst (fst (batch_train_loop person_id person_name photos self database n)))
      added /\
    (length added <= length photos)%nat /\
    (forall n',
       snd (batch_train_loop person_id person_name photos self database n)
       = Ok n' -> n' = (n + length added)%nat).
Proof.
  revert self database n.
  induction photos as [|ph photos IH]; intros self database n Hal.
  - exists []. split; [apply grows_by_refl, Hal|]. split; [cbn; lia|].
    cbn. intros n' [= <-]. lia.
  - cbn [batch_train_loop].
    destruct (batch_train_photo_grows person_id person_name ph self database
                Hal) as (a1 & Hg1 & Hl1).
    destruct (batch_train_photo person_id person_name ph self database)
      as [[self1 database1] [counted|e]]; cbn [fst snd] in *.
    + destruct (IH self1 database1 (if counted then n + 1 else n)%nat
                  (proj1 Hg1)) as (a2 & Hg2 & Hl2 & Hc2).
      exists (a1 ++ a2). split; [eapply grows_by_trans; eassumption|].
      rewrite length_app. split; [destruct counted; cbn; lia|].
      intros n' Hn'. specialize (Hc2 n' Hn'). destruct counted; lia.
    + exists a1. split; [exact Hg1|]. split; [cbn; lia|]. intros n' [=].
Qed.

Lemma batch_train_person_grows (self : KaleidoRecognizer) (person_id : Z)
    (person_name : string) (database : DB) :
  aligned self ->
  exists added,
    grows_by (batch_entry person_id person_name) self
      (fst (fst (batch_train_person self person_id person_name database)))
      added /\
    (snd (batch_train_person self person_id person_name database)
     <= length added)%nat /\
    (snd (batch_train_person self person_id person_name database) <> 0%nat ->
     snd (batch_train_person self person_id person_name database)
     = length added) /\
    (forall photos, get_person_photos database person_id = Ok photos ->
       (length added <= length photos)%nat).
Proof.
  intros Hal. unfold batch_train_person.
  destruct (get_person_photos database person_id) as [photos|e].
  - destruct (batch_train_loop_grows person_id person_name photos self database
                0 Hal) as (added & Hg & Hl & Hc).
    destruct (batch_train_loop person_id person_name photos self database 0)
      as [[self1 database1] [n|e]]; cbn [fst snd] in *.
    + specialize (Hc n eq_refl). exists added. split; [exact Hg|].
      split; [lia|]. split; [lia|]. intros photos' [= <-]. exact Hl.
    + exists added. split; [exact Hg|]. split; [lia|].
      split; [congruence|]. intros photos' [= <-]. exact Hl.
  - exists []. split; [apply grows_by_refl, Hal|]. cbn.
    split; [lia|]. split; [congruence|]. intros photos [=].
Qed.

(** X13.  [batch_train_person] only appends: on an aligned gallery the
    entries present before the call stay where they are, and the entries
    added all carry the given person id, the display name made from the
    given name, a photo id and a vector of [embedding_size]
    coordinates.  The count returned never exceeds the number of entries
    added nor the number of photos, and it equals the number of entries
    added as soon as it is not zero. *)
Theorem batch_train_person_appends (self : KaleidoRecognizer) (person_id : Z)
    (person_name : string) (database : DB) :
  aligned self ->
  exists added,
    grows_by (batch_entry person_id person_name) self
      (fst (fst (batch_train_person self person_id person_name database)))
      added /\
    (snd (batch_train_person self person_id person_name database)
     <= length added)%nat /\
    (snd (batch_train_person self person_id person_name database) <> 0%nat ->
     snd (batch_train_person self person_id person_name database)
     = length added) /\
    (forall photos, get_person_photos database person_id = Ok photos ->
       (length added <= length photos)%nat).
Proof. apply batch_train_person_grows. Qed.

Lemma grows_by_weaken (Q : entry -> Prop) (s1 s2 : KaleidoRecognizer)
    (added : list entry) :
  grows_by Q s1 s2 added -> grows_by (fun _ => True) s1 s2 added.
Proof.
  intros (Ha & Hg & _). split; [exact Ha|]. split; [exact Hg|].
  apply Forall_forall. auto.
Qed.

Lemma batch_train_all_loop_grows (people : list person_data)
    (self : KaleidoRecognizer) (database : DB) (n : nat) :
  aligned self ->
  Forall (fun person => is_Some (pd_id person)) people ->
  exists added total,
    grows_by (fun _ => True) self
      (fst (fst (batch_train_all_loop people self database n))) added /\
    snd (batch_train_all_loop people self database n) = Ok total /\
    (total <= n + length added)%nat.
Proof.
  intros Hal Hpeople. revert self database n Hal.
  induction Hpeople as [|person people [person_id Hid] _ IH];
    intros self database n Hal.
  - exists [], n. split; [apply grows_by_refl, Hal|]. split; [reflexivity|].
    cbn. lia.
  - cbn [batch_train_all_loop]. rewrite Hid.
    match goal with
    | |- context [batch_train_person self person_id ?name database] =>
        destruct (batch_train_person_grows self person_id name database
                    Hal) as (a1 & Hg1 & Hle1 & _);
        apply grows_by_weaken in Hg1;
        destruct (batch_train_person self person_id name database)
          as [[self1 database1] count]
    end.
    cbn [fst snd] in *.
    destruct (IH self1 database1 (n + count)%nat (proj1 Hg1))
      as (a2 & total & Hg2 & Ht & Hle2).
    exists (a1 ++ a2), total.
    split; [eapply grows_by_trans; eassumption|]. split; [exact Ht|].
    rewrite length_app. lia.
Qed.

End BatchGrowth.

Section BatchAll.

Context `{Vision} {DB : Type} `{!Database DB}.

Lemma store_after_trans (d1 d2 d3 : DB) :
  store_after d1 d2 -> store_after d2 d3 -> store_after d1 d3.
Proof.
  intros H12 H23. induction H23; [exact H12 | constructor; assumption].
Qed.

Lemma add_existing_ok (self : KaleidoRecognizer) (e : vec) (person_id : Z)
    (person_name : string) (p : Z) :
  aligned self -> length e = embedding_size ->
  exists self' en,
    add_existing_embedding self (Some e)
      {| pd_id := Some person_id; pd_last_name := Some person_name;
         pd_first_name := None |} (Some p)
    = (self', true) /\
    gallery self' = gallery self ++ [en] /\
    batch_entry person_id person_name en /\
    entry_photo_id en = Some p.
Proof.
  intros Hal Hlen. unfold add_existing_embedding.
  rewrite (proj2 (Nat.eqb_eq _ _) Hlen).
  eexists _, _. split; [reflexivity|]. split.
  - exact (add_gallery self e _ (Some p) Hal).
  - cbn. repeat split; eauto.
Qed.

Lemma train_from_pil_ok (self : KaleidoRecognizer) (pil_image : PILImage)
    (e : vec) (person_id : Z) (person_name : string) (p : Z) :
  aligned self -> extract_embedding_from_pil pil_image = Some e ->
  exists self' en,
    train_from_pil self pil_image
      {| pd_id := Some person_id; pd_last_name := Some person_name;
         pd_first_name := None |} (Some p)
    = (self', true) /\
    gallery self' = gallery self ++ [en] /\
    batch_entry person_id person_name en /\
    entry_photo_id en = Some p.
Proof.
  intros Hal He. unfold train_from_pil. rewrite He.
  eexists _, _. split; [reflexivity|]. split.
  - exact (add_gallery self e _ (Some p) Hal).
  - cbn. repeat split; eauto.
    eapply extract_embedding_from_pil_length, He.
Qed.

(** The store only changes by write-backs. *)
Lemma batch_train_photo_store (person_id : Z) (person_name : string)
    (ph : photo) (self : KaleidoRecognizer) (d : DB) :
  store_after d (snd (fst (batch_train_photo person_id person_name ph self d))).
Proof.
  unfold batch_train_photo.
  destruct (_embedding_cache self !! photo_id ph) as [c|].
  { destruct (add_existing_embedding _ _ _ _) as [s ok]. constructor. }
  destruct (has_face_embedding ph).
  - destruct (get_photo_embedding d (photo_id ph)) as [[e|]|err];
      try constructor.
    destruct (add_existing_embedding _ _ _ _) as [s ok].
    destruct ok; constructor.
  - destruct (get_photo_as_image d (photo_id ph)) as [[pil|]|err];
      try constructor.
    destruct (train_from_pil _ _ _ _) as [s ok].
    destruct ok; [|constructor].
    destruct (extract_embedding_from_pil pil) as [e|] eqn:He; [|constructor].
    pose proof (store_after_update d d (photo_id ph) e (store_after_refl d)
                  (extract_embedding_from_pil_length pil e He)) as Hs.
    destruct (update_photo_embedding d (photo_id ph) e) as [d' b]. exact Hs.
Qed.

Lemma batch_train_loop_store (person_id : Z) (person_name : string)
    (photos : list photo) (self : KaleidoRecognizer) (d : DB) (n : nat) :
  store_after d
    (snd (fst (batch_train_loop person_id person_name photos self d n))).
Proof.
  revert self d n. induction photos as [|ph photos IH]; intros self d n;
    [constructor|].
  cbn [batch_train_loop].
  pose proof (batch_train_photo_store person_id person_name ph self d) as Hs.
  destruct (batch_train_photo person_id person_name ph self d)
    as [[self1 d1] [counted|e]]; cbn [fst snd] in *; [|exact Hs].
  eapply store_after_trans; [exact Hs | apply IH].
Qed.

Lemma batch_train_person_store (self : KaleidoRecognizer) (person_id : Z)
    (person_name : string) (d : DB) :
  store_after d (snd (fst (batch_train_person self person_id person_name d))).
Proof.
  unfold batch_train_person.
  destruct (get_person_photos d person_id) as [photos|e]; [|constructor].
  pose proof (batch_train_loop_store person_id person_name photos self d 0)
    as Hs.
  destruct (batch_train_loop person_id person_name photos self d 0)
    as [[self1 d1] [n|e]]; exact Hs.
Qed.

(** A photo that can be read is trained on and counted. *)
Lemma batch_train_photo_trainable (person_id : Z) (person_name : string)
    (ph : photo) (self : KaleidoRecognizer) (d : DB) :
  well_formed self -> photo_trainable d ph ->
  exists self' d' en,
    batch_train_photo person_id person_name ph self d = (self', d', Ok true) /\
    gallery self' = gallery self ++ [en] /\
    batch_entry person_id person_name en /\
    entry_photo_id en = Some (photo_id ph).
Proof.
  intros (Hal & Hd & Hc) Htr. unfold batch_train_photo.
  destruct (_embedding_cache self !! photo_id ph) as [c|] eqn:Hcache.
  { destruct (add_existing_ok self c person_id person_name (photo_id ph) Hal
                (Hc _ _ Hcache)) as (self' & en & Hadd & Hg & Hq & Hp).
    rewrite Hadd. exists self', d, en. auto. }
  unfold photo_trainable in Htr. destruct (has_face_embedding ph).
  - destruct Htr as (e & He & Hlen). rewrite He.
    destruct (add_existing_ok self e person_id person_name (photo_id ph) Hal
                Hlen) as (self' & en & Hadd & Hg & Hq & Hp).
    rewrite Hadd. eexists _, d, en. split; [reflexivity|]. auto.
  - destruct Htr as (pil & Hpil & [e He]). rewrite Hpil.
    destruct (train_from_pil_ok self pil e person_id person_name (photo_id ph)
                Hal He) as (self' & en & Hadd & Hg & Hq & Hp).
    rewrite Hadd, He.
    destruct (update_photo_embedding d (photo_id ph) e) as [d' b].
    eexists _, d', en. split; [reflexivity|]. auto.
Qed.

Lemma batch_train_loop_trainable (person_id : Z) (person_name : string)
    (photos : list photo) (self : KaleidoRecognizer) (d : DB) (n : nat) :
  well_formed self ->
  Forall (fun ph => forall d', store_after d d' -> photo_trainable d' ph)
         photos ->
  exists self' d' added,
    batch_train_loop person_id person_name photos self d n
    = (self', d', Ok (n + length photos)%nat) /\
    gallery self' = gallery self ++ added /\
    Forall2 (fun ph en => batch_entry person_id person_name en /\
                          entry_photo_id en = Some (photo_id ph))
            photos added.
Proof.
  revert self d n.
  induction photos as [|ph photos IH]; intros self d n Hwf Hall.
  - exists self, d, []. split; [cbn; f_equal; f_equal; lia|].
    split; [rewrite app_nil_r; reflexivity | constructor].
  - apply Forall_cons in Hall as [Hph Hall]. cbn [batch_train_loop].
    pose proof (wf_batch_train_photo person_id person_name ph self d Hwf)
      as Hwf1.
    pose proof (batch_train_photo_store person_id person_name ph self d) as Hs1.
    destruct (batch_train_photo_trainable person_id person_name ph self d Hwf
                (Hph d (store_after_refl d)))
      as (self1 & d1 & en & Hstep & Hg1 & Hq1 & Hp1).
    rewrite Hstep in *. cbn [fst snd] in Hwf1, Hs1.
    assert (Hall1 : Forall (fun ph => forall d', store_after d1 d' ->
                                        photo_trainable d' ph) photos).
    { eapply Forall_impl; [exact Hall|]. intros ph' Hph' d' Hd'. cbn in Hph'.
      apply Hph'. eapply store_after_trans; eassumption. }
    destruct (IH self1 d1 (n + 1)%nat Hwf1 Hall1)
      as (self2 & d2 & added & Hloop & Hg2 & Hq2).
    rewrite Hloop. exists self2, d2, (en :: added).
    split; [cbn [length]; f_equal; f_equal; lia|].
    split; [rewrite Hg2, Hg1, <- app_assoc; reflexivity|].
    constructor; [split; assumption | exact Hq2].
Qed.

Lemma batch_train_person_trainable (self : KaleidoRecognizer) (person_id : Z)
    (person_name : string) (d : DB) (photos : list photo) :
  well_formed self ->
  get_person_photos d person_id = Ok photos ->
  Forall (fun ph => forall d', store_after d d' -> photo_trainable d' ph)
         photos ->
  snd (batch_train_person self person_id person_name d) = length photos /\
  Forall (trained_on
            (gallery (fst (fst (batch_train_person self person_id person_name
                                  d))))
            person_id person_name)
         (map photo_id photos).
Proof.
  intros Hwf Hphotos Hall. unfold batch_train_person. rewrite Hphotos.
  destruct (batch_train_loop_trainable person_id person_name photos self d 0
              Hwf Hall) as (self' & d' & added & Hloop & Hg & Hq).
  rewrite Hloop. cbn [fst snd]. split; [reflexivity|]. rewrite Hg.
  clear Hloop Hg Hall Hphotos.
  induction Hq as [|ph en photos added [Hq Hp] _ IH]; cbn [map]; constructor.
  - exists en. split; [|split; assumption].
    apply elem_of_app. right. apply list_elem_of_here.
  - eapply Forall_impl; [exact IH|]. intros ph' (en' & Hin & Hrest).
    exists en'. split; [|exact Hrest].
    apply elem_of_app in Hin as [Hin|Hin]; apply elem_of_app;
      [left; exact Hin | right; apply list_elem_of_further, Hin].
Qed.

Lemma trained_on_app (g added : list entry) (person_id : Z)
    (person_name : string) (p : Z) :
  trained_on g person_id person_name p ->
  trained_on (g ++ added) person_id person_name p.
Proof.
  intros (en & Hin & Hrest). exists en. split; [|exact Hrest].
  apply elem_of_app. left. exact Hin.
Qed.

(** The loop over the people returns a total that only grows, and keeps
    what the gallery held. *)
Lemma batch_train_all_loop_extends (people : list person_data)
    (self : KaleidoRecognizer) (d : DB) (n : nat) :
  aligned self ->
  Forall (fun person => is_Some (pd_id person)) people ->
  exists added total,
    gallery (fst (fst (batch_train_all_loop people self d n)))
    = gallery self ++ added /\
    snd (batch_train_all_loop people self d n) = Ok total /\
    (n <= total)%nat.
Proof.
  intros Hal Hpeople. revert self d n Hal.
  induction Hpeople as [|person people [person_id Hid] _ IH];
    intros self d n Hal.
  - exists [], n. split; [rewrite app_nil_r; reflexivity|].
    split; [reflexivity | lia].
  - cbn [batch_train_all_loop]. rewrite Hid.
    destruct (batch_train_person_grows self person_id (full_name_of person) d
                Hal) as (a1 & (Hal1 & Hg1 & _) & _).
    change (String.append (default EmptyString (pd_last_name person))
              (String.append " " (default EmptyString (pd_first_name person))))
      with (full_name_of person).
    destruct (batch_train_person self person_id (full_name_of person) d)
      as [[self1 d1] count]. cbn [fst snd] in *.
    destruct (IH self1 d1 (n + count)%nat Hal1)
      as (a2 & total & Hg2 & Ht & Hle).
    exists (a1 ++ a2), total.
    split; [rewrite Hg2, Hg1, <- app_assoc; reflexivity|].
    split; [exact Ht | lia].
Qed.

(** A person of the list whose photos can be read is trained on in
    full, whatever the calls for the others did. *)
Lemma batch_train_all_loop_member (people : list person_data)
    (self : KaleidoRecognizer) (d : DB) (n : nat) (person : person_data)
    (person_id : Z) (ids : list Z) :
  well_formed self ->
  Forall (fun person => is_Some (pd_id person)) people ->
  person ∈ people -> pd_id person = Some person_id ->
  person_trainable d person_id ids ->
  exists total,
    snd (batch_train_all_loop people self d n) = Ok total /\
    (n + length ids <= total)%nat /\
    Forall (trained_on (gallery (fst (fst (batch_train_all_loop people self d
                                             n))))
              person_id (full_name_of person))
           ids.
Proof.
  intros Hwf Hpeople. revert self d n Hwf.
  induction Hpeople as [|person' people [person_id' Hid'] Hpeople IH];
    intros self d n Hwf Hin Hid Htr.
  { apply elem_of_nil in Hin. destruct Hin. }
  cbn [batch_train_all_loop]. rewrite Hid'.
  change (String.append (default EmptyString (pd_last_name person'))
            (String.append " " (default EmptyString (pd_first_name person'))))
    with (full_name_of person').
  pose proof (wf_batch_train_person self person_id' (full_name_of person') d
                Hwf) as Hwf1.
  pose proof (batch_train_person_store self person_id' (full_name_of person') d)
    as Hs1.
  apply elem_of_cons in Hin as [Heq|Hin].
  - subst person'. rewrite Hid in Hid'. injection Hid' as <-.
    destruct (Htr d (store_after_refl d)) as (photos & Hphotos & Hids & Hall).
    destruct (batch_train_person_trainable self person_id (full_name_of person)
                d photos Hwf Hphotos Hall) as (Hcount & Htrained).
    rewrite Hids in Htrained.
    assert (Hlen : length photos = length ids)
      by (rewrite <- Hids, length_map; reflexivity).
    destruct (batch_train_person self person_id (full_name_of person) d)
      as [[self1 d1] count]. cbn [fst snd] in *. subst count.
    destruct (batch_train_all_loop_extends people self1 d1
                (n + length photos)%nat (proj1 Hwf1) Hpeople)
      as (added & total & Hg & Ht & Hle).
    exists total. split; [exact Ht|]. split; [lia|].
    rewrite Hg. eapply Forall_impl; [exact Htrained|].
    intros p. apply trained_on_app.
  - destruct (batch_train_person self person_id' (full_name_of person') d)
      as [[self1 d1] count]. cbn [fst snd] in *.
    assert (Htr1 : person_trainable d1 person_id ids).
    { intros d' Hd'. apply Htr. eapply store_after_trans; eassumption. }
    destruct (IH self1 d1 (n + count)%nat Hwf1 Hin Hid Htr1)
      as (total & Ht & Hle & Htrained).
    exists total. split; [exact Ht|]. split; [lia | exact Htrained].
Qed.

(** X14.  [batch_train_all] goes through every person whatever happens
    to the photos of another.  Once [get_all_people] has answered with
    people that all have an id, it returns a total, even when the store
    raises while a person's photos are read, because that person then
    counts for 0 and the loop goes on; it only appends to an aligned
    gallery, and the total never exceeds the number of entries added.
    On a well-formed recognizer, every listed person whose photos the
    store can read (the list of photos, and for each photo its stored
    embedding of [embedding_size] coordinates or else an image with a
    face) ends with a gallery entry for each of these photos, carrying
    the person's id, name and the photo id, and the total counts all
    these photos; nothing is asked of the other people.  When
    [get_all_people] raises, the exception leaves the function and
    nothing has changed. *)
Theorem batch_train_all_continues (self : KaleidoRecognizer) (database : DB) :
  aligned self ->
  (forall people,
     get_all_people database = Ok people ->
     Forall (fun person => is_Some (pd_id person)) people ->
     (exists added total,
        grows_by (fun _ => True) self
          (fst (fst (batch_train_all self database))) added /\
        snd (batch_train_all self database) = Ok total /\
        (total <= length added)%nat) /\
     (well_formed self ->
      forall person person_id ids,
        person ∈ people -> pd_id person = Some person_id ->
        person_trainable database person_id ids ->
        exists total,
          snd (batch_train_all self database) = Ok total /\
          (length ids <= total)%nat /\
          Forall (trained_on (gallery (fst (fst (batch_train_all self
                                                   database))))
                    person_id (full_name_of person))
                 ids)) /\
  (forall e, get_all_people database = Raise e ->
     batch_train_all self database = (self, database, Raise e)).
Proof.
  intros Hal. split.
  - intros people Hpeople Hids. unfold batch_train_all. rewrite Hpeople. split.
    + destruct (batch_train_all_loop_grows people self database 0 Hal Hids)
        as (added & total & Hg & Ht & Hle).
      exists added, total. split; [exact Hg|]. split; [exact Ht | lia].
    + intros Hwf person person_id ids Hin Hid Htr.
      destruct (batch_train_all_loop_member people self database 0 person
                  person_id ids Hwf Hids Hin Hid Htr)
        as (total & Ht & Hle & Htrained).
      exists total. split; [exact Ht|]. split; [lia | exact Htrained].
  - intros e He. unfold batch_train_all. rewrite He. reflexivity.
Qed.

End BatchAll.


Lemma batch_train_person_appends_witness :
  exists added,
    grows_by (batch_entry 7 "Ivanov") init
      (fst (fst (batch_train_person init 7 "Ivanov" readable_store))) added /\
    (snd (batch_train_person init 7 "Ivanov" readable_store)
     <= length added)%nat.
Proof.
  destruct (batch_train_person_appends init 7 "Ivanov" readable_store
              init_aligned) as (added & Hg & Hle & _).
  exists added. split; assumption.
Defined.

(** On [readable_store] two of the three photos are trained on; on
    [faulty_store] one entry is added and 0 is returned. *)
Example batch_train_person_counts :
  snd (batch_train_person init 7 "Ivanov" readable_store) = 2%nat /\
  known_photo_ids (fst (fst (batch_train_person init 7 "Ivanov" readable_store)))
  = [Some 10%Z; Some 12%Z] /\
  snd (batch_train_person init 7 "Ivanov" faulty_store) = 0%nat /\
  known_photo_ids (fst (fst (batch_train_person init 7 "Ivanov" faulty_store)))
  = [Some 10%Z].
Proof. repeat split; reflexivity. Qed.

(** Whatever is written back to [two_people_store], the photo of the
    second person stays readable. *)
Lemma two_people_store_petrov :
  @person_trainable sample_vision sample_store sample_database
    two_people_store 9 [20%Z].
Proof.
  assert (Hinv : forall d,
             @store_after sample_vision sample_store sample_database
               two_people_store d ->
             store_photos d = store_photos two_people_store /\
             exists v, store_embedding d 20 = Ok (Some v) /\
                       length v = embedding_size).
  { intros d Hd. induction Hd as [|d p e Hd [IHp (v & IHe & IHl)] Hlen].
    - split; [reflexivity|]. exists unit_vec2.
      split; [reflexivity | exact unit_vec2_length].
    - split; [exact IHp|]. cbn [update_photo_embedding sample_database fst
                                 store_embedding].
      destruct (decide (20%Z = p)) as [_|_]; [exists e | exists v]; auto. }
  intros d Hd. destruct (Hinv d Hd) as (Hp & _).
  exists [ {| photo_id := 20; photo_face_embedding := Some "blob"%string |} ].
  split; [|split; [reflexivity|]].
  - cbn [get_person_photos sample_database]. rewrite Hp. reflexivity.
  - constructor; [|constructor]. intros d' Hd'.
    destruct (Hinv d' (store_after_trans _ _ _ Hd Hd')) as (_ & v & Hv & Hl).
    exists v. split; assumption.
Qed.

Lemma init_well_formed : well_formed init.
Proof.
  split; [apply init_aligned|]. split; [constructor | apply map_Forall_empty].
Qed.

Lemma batch_train_all_continues_witness :
  exists total,
    snd (batch_train_all init two_people_store) = Ok total /\
    (length [20%Z] <= total)%nat /\
    Forall (trained_on
              (gallery (fst (fst (batch_train_all init two_people_store))))
              9 (full_name_of petrov))
           [20%Z].
Proof.
  destruct (proj1 (batch_train_all_continues init two_people_store
                     init_aligned) [ivanov; petrov]) as [_ Hmember].
  - reflexivity.
  - repeat constructor; eexists; reflexivity.
  - apply (Hmember init_well_formed petrov 9%Z [20%Z]).
    + apply list_elem_of_further, list_elem_of_here.
    + reflexivity.
    + exact two_people_store_petrov.
Defined.

(** In [two_people_store] reading the second photo of the first person
    raises: that person counts for 0 although one entry was added, and
    the second person is still trained on. *)
Example batch_train_all_two_people :
  snd (batch_train_all init two_people_store) = Ok 1%nat /\
  known_ids (fst (fst (batch_train_all init two_people_store))) = [7%Z; 9%Z] /\
  known_photo_ids (fst (fst (batch_train_all init two_people_store)))
  = [Some 10%Z; Some 20%Z].
Proof. repeat split; reflexivity. Qed.

(** ** Export and import of the gallery *)

Section ExportImport.

Lemma export_rows_suffix (self : KaleidoRecognizer)
    (es2 : list vec) :
  forall (es1 : list vec) (ns1 ns2 : list string) (ids1 ids2 : list Z)
         (ps1 ps2 : list (option Z)),
    known_embeddings self = es1 ++ es2 ->
    known_names self = ns1 ++ ns2 ->
    known_ids self = ids1 ++ ids2 ->
    known_photo_ids self = ps1 ++ ps2 ->
    length ns1 = length es1 -> length ids1 = length es1 ->
    length ps1 = length es1 ->
    length ns2 = length es2 -> length ids2 = length es2 ->
    length ps2 = length es2 ->
    export_rows self (seq (length es1) (length es2))
    = Ok (map row_of_entry (entries_of es2 ns2 ids2 ps2)).
Proof.
  induction es2 as [|e es2 IH];
    intros es1 ns1 [|n ns2] ids1 [|i ids2] ps1 [|p ps2]
      He Hn Hi Hp Hn1 Hi1 Hp1 Hn2 Hi2 Hp2;
    cbn in Hn2, Hi2, Hp2; try discriminate; [reflexivity|].
  cbn [length seq export_rows entries_of map].
  unfold getitem.
  rewrite Hi, Hp, He, Hn.
  rewrite (lookup_app_r ids1) by lia. rewrite Hi1, Nat.sub_diag.
  rewrite (lookup_app_r ps1) by lia. rewrite Hp1, Nat.sub_diag.
  rewrite (lookup_app_r es1) by lia. rewrite Nat.sub_diag.
  rewrite (lookup_app_r ns1) by lia. rewrite Hn1, Nat.sub_diag.
  cbn [lookup list_lookup mbind result_bind].
  replace (S (length es1)) with (length (es1 ++ [e]))
    by (rewrite length_app; cbn [length]; lia).
  rewrite (IH (es1 ++ [e]) (ns1 ++ [n]) ns2 (ids1 ++ [i]) ids2
             (ps1 ++ [p]) ps2); [reflexivity|..];
    rewrite <- ?app_assoc; cbn [app]; try assumption;
    rewrite ?length_app; cbn [length]; lia.
Qed.

Lemma export_gallery (self : KaleidoRecognizer) :
  aligned self ->
  export_embeddings_data self = Ok (map row_of_entry (gallery self)).
Proof.
  intros (Hn & Hi & Hp). unfold export_embeddings_data, gallery.
  apply (export_rows_suffix self (known_embeddings self) [] [] _ [] _ [] _);
    try reflexivity; assumption.
Qed.

Lemma gallery_embeddings (P : vec -> Prop) (es : list vec) (ns : list string)
    (ids : list Z) (ps : list (option Z)) :
  Forall P es ->
  Forall (fun en => P (entry_embedding en)) (entries_of es ns ids ps).
Proof.
  intros Hes. revert ns ids ps.
  induction Hes as [|e es He _ IH]; intros [|n ns] [|i ids] [|p ps];
    cbn; try constructor; [exact He | apply IH].
Qed.

Lemma import_rows_gallery (rows : list export_row) (self : KaleidoRecognizer)
    (n : nat) :
  aligned self ->
  Forall (fun data => length (row_embedding data) = embedding_size) rows ->
  aligned (fst (import_rows self rows n)) /\
  gallery (fst (import_rows self rows n))
  = gallery self ++ map entry_of_row rows /\
  snd (import_rows self rows n) = (n + length rows)%nat.
Proof.
  intros Hal Hrows. revert self n Hal.
  induction Hrows as [|data rows Hlen _ IH]; intros self n Hal.
  - cbn. rewrite app_nil_r. split; [exact Hal|]. split; [reflexivity | lia].
  - cbn [import_rows]. unfold add_existing_embedding.
    rewrite (proj2 (Nat.eqb_eq _ _) Hlen).
    match goal with
    | |- context [_add_embedding_to_memory self ?e ?person ?p] =>
        pose proof (add_aligned self e person p Hal) as Ha;
        pose proof (add_gallery self e person p Hal) as Hg;
        destruct (_add_embedding_to_memory self e person p) as [self1 ok] eqn:E
    end.
    assert (ok = true) as -> by (unfold _add_embedding_to_memory in E; congruence).
    cbn [fst] in Ha, Hg.
    destruct (IH self1 (n + 1)%nat Ha) as (Ha' & Hg' & Hc').
    split; [exact Ha'|]. split.
    + rewrite Hg', Hg. unfold Gallery.insert. cbn [pd_id map].
      rewrite <- app_assoc. reflexivity.
    + rewrite Hc'. cbn [length]. lia.
Qed.

(** X15.  Exporting an aligned gallery whose vectors have
    [embedding_size] coordinates gives one row per entry, and importing
    these rows into an aligned recognizer appends one entry per row, in
    the same order, with the same vector, person id and photo id; nothing
    is skipped and nothing is deduplicated.  Only the display name is not
    preserved: it becomes the text before its first space. *)
Theorem export_import_round_trip (self target : KaleidoRecognizer) :
  aligned self ->
  Forall (fun e => length e = embedding_size) (known_embeddings self) ->
  aligned target ->
  exists rows,
    export_embeddings_data self = Ok rows /\
    length rows = length (known_embeddings self) /\
    snd (import_embeddings_data target rows) = length rows /\
    aligned (fst (import_embeddings_data target rows)) /\
    gallery (fst (import_embeddings_data target rows))
    = gallery target
      ++ map (fun en => {| entry_embedding := entry_embedding en;
                           entry_name := imported_name (entry_name en);
                           entry_id := entry_id en;
                           entry_photo_id := entry_photo_id en |})
             (gallery self).
Proof.
  intros Hal Hd Hat. exists (map row_of_entry (gallery self)).
  split; [apply export_gallery, Hal|].
  split; [rewrite length_map; apply gallery_covers, Hal|].
  assert (Hrows : Forall (fun data => length (row_embedding data)
                                      = embedding_size)
                         (map row_of_entry (gallery self))).
  { apply Forall_map.
    apply (gallery_embeddings (fun e => length e = embedding_size)), Hd. }
  destruct (import_rows_gallery (map row_of_entry (gallery self)) target 0
              Hat Hrows) as (Ha & Hg & Hc).
  unfold import_embeddings_data.
  split; [rewrite Hc; reflexivity|]. split; [exact Ha|].
  rewrite Hg, map_map. reflexivity.
Qed.

Lemma sample_two_sized :
  Forall (fun e => length e = embedding_size) (known_embeddings sample_two).
Proof. repeat constructor; apply unit_vec_length. Qed.

Lemma export_import_round_trip_witness :
  exists rows,
    export_embeddings_data sample_two = Ok rows /\
    snd (import_embeddings_data init rows) = length rows.
Proof.
  destruct (export_import_round_trip sample_two init sample_two_aligned
              sample_two_sized init_aligned) as (rows & He & _ & Hc & _).
  exists rows. split; assumption.
Defined.

(** The names of [sample_two] after a round trip. *)
Example imported_names :
  imported_name "Ivanov Ivan" = "Ivanov"%string /\
  imported_name "Petrov" = "Petrov"%string.
Proof. split; reflexivity. Qed.

End ExportImport.

(** ** Removal and recognition *)

Section RemoveRecognize.

Lemma recognize_face_total_plain (self : KaleidoRecognizer) (q : option vec) :
  aligned self -> exists r, recognize_face self q = Ok r.
Proof.
  intros Hal. destruct q as [e|].
  - destruct (recognize_face_outcome self e Hal) as (r & Hr & _). eauto.
  - cbn. eauto.
Qed.

Lemma NoDup_delete_not_in {A : Type} (l : list A) (k : nat) (x : A) :
  NoDup l -> l !! k = Some x -> x ∉ delete k l.
Proof.
  intros Hnd. revert k. induction Hnd as [|y l Hy Hnd IH]; intros [|k] Hk;
    cbn in *; try discriminate.
  - injection Hk as ->. exact Hy.
  - apply not_elem_of_cons. split; [|apply IH, Hk].
    intros ->. apply Hy. eapply list_elem_of_lookup_2, Hk.
Qed.

Lemma remove_photo_gone (self : KaleidoRecognizer) (p : option Z) :
  aligned self -> NoDup (known_photo_ids self) ->
  p ∉ known_photo_ids (fst (remove_embedding_by_photo_id self p)).
Proof.
  intros Hal Hnd.
  pose proof (list_index_first p (known_photo_ids self)) as Hspec.
  destruct (list_index p (known_photo_ids self)) as [k|] eqn:Hk.
  - rewrite (remove_found self p k Hal Hk). cbn.
    apply NoDup_delete_not_in; [exact Hnd | apply Hspec].
  - rewrite (remove_absent self p Hspec). exact Hspec.
Qed.

(** X16.  When the photo ids of an aligned gallery are pairwise
    distinct, a photo removed by [remove_embedding_by_photo_id] is never
    returned again: every later [recognize_face] returns, and the photo
    id of a match is not the removed one. *)
Theorem removed_photo_not_recognized (self : KaleidoRecognizer)
    (photo_id : option Z) :
  aligned self -> NoDup (known_photo_ids self) ->
  (forall q, exists r,
     recognize_face (fst (remove_embedding_by_photo_id self photo_id)) q
     = Ok r) /\
  (forall q id c p,
     recognize_face (fst (remove_embedding_by_photo_id self photo_id)) q
     = Ok (Some id, c, p) ->
     p <> photo_id).
Proof.
  intros Hal Hnd.
  pose proof (proj1 (remove_aligned_gallery self photo_id Hal)) as Hal'.
  pose proof (remove_photo_gone self photo_id Hal Hnd) as Hgone.
  set (self' := fst (remove_embedding_by_photo_id self photo_id)) in *.
  split; [intros q; apply (recognize_face_total_plain self' q Hal')|].
  intros q id c p Hr. destruct q as [e|]; [|discriminate Hr].
  destruct (recognize_face_outcome self' e Hal') as (r & Hr' & Hout).
  rewrite Hr in Hr'. injection Hr' as <-.
  destruct Hout as [[Hnone _]|Hbest]; [discriminate Hnone|].
  destruct Hbest as (i & k & id' & p' & _ & _ & Hp & Heq & _).
  injection Heq as _ _ ->. intros ->. apply Hgone.
  eapply list_elem_of_lookup_2, Hp.
Qed.

End RemoveRecognize.

Lemma sample_two_distinct : NoDup (known_photo_ids sample_two).
Proof.
  cbn. apply NoDup_cons. split; [|apply NoDup_singleton].
  intros Hin. apply list_elem_of_singleton in Hin. discriminate Hin.
Qed.

Lemma removed_photo_not_recognized_witness :
  exists r,
    recognize_face (fst (remove_embedding_by_photo_id sample_two (Some 101%Z)))
      (Some unit_vec) = Ok r.
Proof.
  apply (proj1 (removed_photo_not_recognized sample_two (Some 101%Z)
                  sample_two_aligned sample_two_distinct)).
Defined.

(** ** The cache after a reload *)

Section CacheSync.

Context `{Vision} {DB : Type} `{!Database DB}.

Lemma cache_synced_load_step (self : KaleidoRecognizer) (e : vec) (n : string)
    (id : Z) (k : Z) :
  aligned self -> cache_synced self ->
  cache_synced
    {| known_embeddings := known_embeddings self ++ [e];
       known_names := known_names self ++ [n];
       known_ids := known_ids self ++ [id];
       known_photo_ids := known_photo_ids self ++ [Some k];
       recognition_threshold := recognition_threshold self;
       _embedding_cache := <[k := e]> (_embedding_cache self) |}.
Proof.
  intros (Hn & Hi & Hp) Hsync p. cbn.
  destruct (decide (k = p)) as [->|Hne].
  - rewrite lookup_insert_eq. exists (length (known_embeddings self)). split.
    + rewrite lookup_app_r by lia. rewrite Hp, Nat.sub_diag. reflexivity.
    + rewrite lookup_app_r by lia. rewrite Nat.sub_diag. reflexivity.
  - rewrite lookup_insert_ne by exact Hne. specialize (Hsync p).
    destruct (_embedding_cache self !! p) as [c|].
    + destruct Hsync as (i & Hpi & Hei). exists i.
      pose proof (lookup_lt_Some _ _ _ Hpi). pose proof (lookup_lt_Some _ _ _ Hei).
      rewrite !lookup_app_l by lia. split; assumption.
    + intros Hin. apply elem_of_app in Hin as [Hin|Hin]; [contradiction|].
      apply list_elem_of_singleton in Hin. congruence.
Qed.

Lemma load_photos_synced (database : DB) (person : person_data) (person_id : Z)
    (photos : list photo) (self : KaleidoRecognizer) (n : nat) :
  aligned self -> cache_synced self ->
  cache_synced (fst (load_photos database person person_id photos self n)).
Proof.
  revert self n. induction photos as [|ph photos IH]; intros self n Hal Hs;
    [exact Hs|].
  cbn [load_photos].
  destruct (get_photo_embedding database (photo_id ph)) as [[e|]|err];
    [|apply IH; assumption|exact Hs].
  destruct (length e =? embedding_size)%nat; [|apply IH; assumption].
  apply IH.
  - destruct Hal as (Hn & Hi & Hp). unfold aligned. cbn.
    rewrite !length_app. cbn. lia.
  - apply (cache_synced_load_step self e (display_name_of person) person_id
             (photo_id ph) Hal Hs).
Qed.

Lemma load_people_synced (database : DB) (people : list person_data)
    (self : KaleidoRecognizer) (n : nat) :
  aligned self -> cache_synced self ->
  cache_synced (fst (load_people database people self n)).
Proof.
  revert self n. induction people as [|person people IH]; intros self n Hal Hs;
    [exact Hs|].
  cbn [load_people].
  destruct (pd_id person) as [person_id|]; [|exact Hs].
  destruct (get_person_photos database person_id) as [photos|e]; [|exact Hs].
  pose proof (load_photos_synced database person person_id photos self n Hal Hs)
    as Hs1.
  destruct (load_photos_refines database person person_id photos self n Hal)
    as ((Ha1 & _) & _).
  destruct (load_photos database person person_id photos self n)
    as [self1 [n1|e]]; [apply IH; assumption | exact Hs1].
Qed.

(** X17.  After [load_embeddings_from_database], whether or not the
    store raised on the way, the cache and the gallery agree: a photo id
    is cached exactly when some gallery entry carries it, and the cached
    vector is the vector of one of these entries. *)
Theorem load_cache_synced (self : KaleidoRecognizer) (database : DB) :
  let self' := fst (load_embeddings_from_database self database) in
  (forall p : Z,
     is_Some (_embedding_cache self' !! p) <-> Some p ∈ known_photo_ids self') /\
  (forall (p : Z) (e : vec),
     _embedding_cache self' !! p = Some e ->
     exists i : nat,
       known_photo_ids self' !! i = Some (Some p) /\
       known_embeddings self' !! i = Some e).
Proof.
  intros self'.
  assert (Hs : cache_synced self').
  { unfold self'. rewrite load_from_fresh.
    assert (Hfresh : cache_synced (fresh self)).
    { intros p. cbn. rewrite lookup_empty. apply not_elem_of_nil. }
    destruct (get_all_people database) as [people|e]; [|exact Hfresh].
    pose proof (load_people_synced database people (fresh self) 0
                  (fresh_aligned self) Hfresh) as Hsync.
    destruct (load_people database people (fresh self) 0) as [s [n|e]];
      exact Hsync. }
  split.
  - intros p. specialize (Hs p).
    destruct (_embedding_cache self' !! p) as [e|].
    + destruct Hs as (i & Hi & _). split; [|eauto].
      intros _. eapply list_elem_of_lookup_2, Hi.
    + split; [intros [e He]; discriminate He | contradiction].
  - intros p e He. specialize (Hs p). rewrite He in Hs. exact Hs.
Qed.

End CacheSync.

Lemma load_cache_synced_witness :
  is_Some (_embedding_cache
             (fst (load_embeddings_from_database init readable_store))
           !! 12%Z).
Proof.
  apply (proj1 (load_cache_synced init readable_store) 12%Z).
  cbn. apply list_elem_of_further, list_elem_of_here.
Defined.

(** ** Model statistics *)

Section ModelInfo.

Lemma size_ids_le (l : list Z) : (size (list_to_set l : gset Z) <= length l)%nat.
Proof.
  induction l as [|x l IH]; [rewrite list_to_set_nil, size_empty; cbn; lia|].
  rewrite list_to_set_cons. cbn [length].
  rewrite size_union_alt, size_singleton.
  assert (Hle : (size (list_to_set l ∖ {[x]} : gset Z)
                 <= size (list_to_set l : gset Z))%nat).
  { apply subseteq_size, subseteq_difference_l. reflexivity. }
  lia.
Qed.

Lemma size_ids_pos (x : Z) (l : list Z) :
  (0 < size (list_to_set (x :: l) : gset Z))%nat.
Proof. rewrite list_to_set_cons, size_union_alt, size_singleton. lia. Qed.

(** X18.  On an aligned gallery [get_model_info] reports the number of
    entries, a number of distinct people that is at most that number
    and is zero only for the empty gallery, and the status ["ready"]
    exactly when the gallery is not empty, ["needs_training"]
    otherwise. *)
Theorem get_model_info_consistent (self : KaleidoRecognizer)
    (min_detection_confidence : R) (show_landmarks : bool) :
  aligned self ->
  let info := get_model_info self min_detection_confidence show_landmarks in
  info_loaded_embeddings info = length (gallery self) /\
  (info_unique_people info <= info_loaded_embeddings info)%nat /\
  (info_unique_people info = 0%nat <-> info_loaded_embeddings info = 0%nat) /\
  (info_loaded_embeddings info <> 0%nat -> info_status info = "ready"%string) /\
  (info_loaded_embeddings info = 0%nat ->
   info_status info = "needs_training"%string).
Proof.
  intros Hal info. pose proof Hal as (Hn & Hi & Hp).
  unfold info, get_model_info. cbn.
  split; [symmetry; apply gallery_covers, Hal|].
  destruct (known_ids self) as [|x ids] eqn:Hids.
  - cbn in Hi. rewrite <- Hi. cbn.
    split; [lia|]. split; [tauto|]. split; [congruence | reflexivity].
  - pose proof (size_ids_le (x :: ids)) as Hle.
    pose proof (size_ids_pos x ids) as Hpos.
    rewrite <- Hi. cbn [length] in *.
    split; [exact Hle|]. split; [split; lia|].
    split; [reflexivity | discriminate].
Qed.

Lemma get_model_info_consistent_witness :
  (info_unique_people (get_model_info sample_two 0.5 true)
   <= info_loaded_embeddings (get_model_info sample_two 0.5 true))%nat /\
  info_status (get_model_info sample_two 0.5 true) = "ready"%string.
Proof.
  destruct (get_model_info_consistent sample_two 0.5 true sample_two_aligned)
    as (_ & Hle & _ & Hready & _).
  split; [exact Hle|]. apply Hready. cbn. discriminate.
Defined.

End ModelInfo.

(** ** The decorators *)

Section Decorators.

Import ErrorHandler.

(** X19.  A function wrapped by [safe_unpack_three] or
    [safe_unpack_two] always hands back something of the wanted length,
    provided the defaults have it: the function's own result when that
    result has a length and the length is the wanted one, the defaults
    in every other case, be it a result of another length, a result
    without length or an exception. *)
Theorem safe_unpack_shape (n : nat) (defaults : py_value) (call : outcome) :
  (py_len defaults = Some n ->
   py_len (safe_unpack n defaults call) = Some n) /\
  (forall v, call = Returns v -> py_len v = Some n ->
     safe_unpack n defaults call = v) /\
  (forall v, call = Returns v -> py_len v <> Some n ->
     safe_unpack n defaults call = defaults) /\
  (forall e, call = Raises e -> safe_unpack n defaults call = defaults) /\
  safe_unpack_three defaults call = safe_unpack 3 defaults call /\
  safe_unpack_two defaults call = safe_unpack 2 defaults call.
Proof.
  split; [|split; [|split; [|split; [|split; reflexivity]]]].
  - intros Hd. unfold safe_unpack. destruct call as [v|e]; [|exact Hd].
    destruct (py_len v) as [len|] eqn:Hv; [|exact Hd].
    destruct (Nat.eqb_spec len n) as [->|_]; [exact Hv | exact Hd].
  - intros v -> Hv. unfold safe_unpack. rewrite Hv, Nat.eqb_refl. reflexivity.
  - intros v -> Hv. unfold safe_unpack.
    destruct (py_len v) as [len|]; [|reflexivity].
    destruct (Nat.eqb_spec len n) as [->|_]; [contradiction | reflexivity].
  - intros e ->. reflexivity.
Qed.

Lemma safe_unpack_shape_witness :
  py_len (safe_unpack_three default_three (Returns (PyTuple [PyNone; PyNone])))
  = Some 3%nat /\
  safe_unpack_three default_three (Returns (PyStr "abc")) = PyStr "abc".
Proof.
  split.
  - apply (proj1 (safe_unpack_shape 3 default_three
                    (Returns (PyTuple [PyNone; PyNone])))). reflexivity.
  - apply (proj1 (proj2 (safe_unpack_shape 3 default_three
                           (Returns (PyStr "abc")))) (PyStr "abc"));
      reflexivity.
Defined.

(** X20.  [handle_unpacking_errors] passes on every normal result and
    every exception that is not a [ValueError] about too few values to
    unpack; when it does swallow an exception it returns
    [(None, 0.0, None)] or [(None, None)].  Under [safe_unpack_three]
    with the standard defaults it makes no difference: the two
    decorators stacked behave as [safe_unpack_three] alone. *)
Theorem handle_unpacking_errors_cases (call : outcome) :
  (forall v, call = Returns v -> handle_unpacking_errors call = Returns v) /\
  (forall kind msg, call = Raises (PyException kind msg) ->
     handle_unpacking_errors call = call) /\
  (forall msg, call = Raises (PyValueError msg) ->
     contains "not enough values to unpack" msg = false ->
     handle_unpacking_errors call = call) /\
  (forall v, handle_unpacking_errors call = Returns v ->
     call = Returns v \/ v = default_three \/ v = default_two) /\
  (forall e, handle_unpacking_errors call = Raises e -> call = Raises e) /\
  safe_unpack_three default_three (handle_unpacking_errors call)
  = safe_unpack_three default_three call.
Proof.
  split; [intros v ->; reflexivity|].
  split; [intros kind msg ->; reflexivity|].
  split; [intros msg -> Hc; cbn; rewrite Hc; reflexivity|].
  destruct call as [v|[msg|kind msg]]; cbn.
  - split; [intros v' [= <-]; auto|]. split; [intros e [=] | reflexivity].
  - destruct (contains "not enough values to unpack" msg);
      [|split; [intros v [=] | split; [intros e [= <-]; reflexivity
                                      | reflexivity]]].
    destruct (contains "expected 3" msg);
      [split; [intros v [= <-]; auto | split; [intros e [=] | reflexivity]]|].
    destruct (contains "expected 2" msg);
      [split; [intros v [= <-]; auto | split; [intros e [=] | reflexivity]]|].
    split; [intros v [=] | split; [intros e [= <-]; reflexivity | reflexivity]].
  - split; [intros v [=] | split; [intros e [= <-]; reflexivity | reflexivity]].
Qed.

Lemma handle_unpacking_errors_cases_witness :
  handle_unpacking_errors
    (Raises (PyValueError "too many values to unpack (expected 3)"))
  = Raises (PyValueError "too many values to unpack (expected 3)").
Proof.
  apply (proj1 (proj2 (proj2 (handle_unpacking_errors_cases
           (Raises (PyValueError "too many values to unpack (expected 3)")))))
           "too many values to unpack (expected 3)"%string eq_refl).
  reflexivity.
Defined.

(** The message Python gives when two values are unpacked into three
    names. *)
Example handle_unpacking_errors_python :
  handle_unpacking_errors
    (Raises (PyValueError "not enough values to unpack (expected 3, got 2)"))
  = Returns default_three /\
  handle_unpacking_errors
    (Raises (PyValueError "not enough values to unpack (expected 2, got 1)"))
  = Returns default_two.
Proof. split; reflexivity. Qed.

End Decorators.

(** ** Training calls and provisional ids *)

Section Training.

Context `{Vision}.

Lemma add_existing_cases (self : KaleidoRecognizer) (embedding : option vec)
    (person : person_data) (p : option Z) :
  (snd (add_existing_embedding self embedding person p) = false /\
   fst (add_existing_embedding self embedding person p) = self /\
   (forall e, embedding = Some e -> length e <> embedding_size)) \/
  (exists e,
     embedding = Some e /\ length e = embedding_size /\
     add_existing_embedding self embedding person p
     = _add_embedding_to_memory self e person p).
Proof.
  unfold add_existing_embedding. destruct embedding as [e|].
  - destruct (Nat.eqb_spec (length e) embedding_size) as [Hlen|Hlen].
    + right. exists e. auto.
    + left. repeat split. intros e' [= <-]. exact Hlen.
  - left. repeat split. intros e [=].
Qed.

(** X21.  A training call either fails and leaves the recognizer exactly
    as it was, or succeeds and appends exactly one entry to an aligned
    gallery: [add_existing_embedding] succeeds exactly when a vector of
    [embedding_size] coordinates is given, [train_from_image] and
    [train_from_pil] exactly when the extractor returns an embedding,
    and the entry appended holds that vector, the display name of the
    person and the photo id given. *)
Theorem training_call_all_or_nothing (self : KaleidoRecognizer)
    (person : person_data) (p : option Z) :
  aligned self ->
  (forall embedding,
     (snd (add_existing_embedding self embedding person p) = false /\
      fst (add_existing_embedding self embedding person p) = self /\
      (forall e, embedding = Some e -> length e <> embedding_size)) \/
     (exists e,
        embedding = Some e /\ length e = embedding_size /\
        snd (add_existing_embedding self embedding person p) = true /\
        gallery (fst (add_existing_embedding self embedding person p))
        = Gallery.insert (gallery self) e person p)) /\
  (forall image,
     (snd (train_from_image self image person p) = false /\
      fst (train_from_image self image person p) = self /\
      extract_embedding image = None) \/
     (exists e,
        extract_embedding image = Some e /\ length e = embedding_size /\
        snd (train_from_image self image person p) = true /\
        gallery (fst (train_from_image self image person p))
        = Gallery.insert (gallery self) e person p)) /\
  (forall pil_image,
     (snd (train_from_pil self pil_image person p) = false /\
      fst (train_from_pil self pil_image person p) = self /\
      extract_embedding_from_pil pil_image = None) \/
     (exists e,
        extract_embedding_from_pil pil_image = Some e /\
        length e = embedding_size /\
        snd (train_from_pil self pil_image person p) = true /\
        gallery (fst (train_from_pil self pil_image person p))
        = Gallery.insert (gallery self) e person p)).
Proof.
  intros Hal. split; [|split].
  - intros embedding.
    destruct (add_existing_cases self embedding person p)
      as [Hfail|(e & -> & Hlen & Heq)]; [left; exact Hfail|].
    right. exists e. split; [reflexivity|]. split; [exact Hlen|].
    rewrite Heq. split; [reflexivity | apply add_gallery, Hal].
  - intros image. unfold train_from_image.
    destruct (extract_embedding image) as [e|] eqn:He.
    + right. exists e. split; [reflexivity|].
      split; [eapply extract_embedding_length, He|].
      split; [reflexivity | apply add_gallery, Hal].
    + left. repeat split.
  - intros pil_image. unfold train_from_pil.
    destruct (extract_embedding_from_pil pil_image) as [e|] eqn:He.
    + right. exists e. split; [reflexivity|].
      split; [eapply extract_embedding_from_pil_length, He|].
      split; [reflexivity | apply add_gallery, Hal].
    + left. repeat split.
Qed.

End Training.

Section ProvisionalIds.

Lemma list_index_app_l {A : Type} `{EqDecision A} (x : A) (l l' : list A) :
  x ∈ l -> list_index x (l ++ l') = list_index x l.
Proof.
  induction l as [|y l IH]; intros Hin.
  - apply elem_of_nil in Hin. contradiction.
  - cbn. destruct (decide (x = y)) as [_|Hne]; [reflexivity|].
    apply elem_of_cons in Hin as [Heq|Hin]; [contradiction|].
    rewrite (IH Hin). reflexivity.
Qed.

Lemma delete_app_lt {A : Type} (l l' : list A) (k : nat) :
  (k < length l)%nat -> delete k (l ++ l') = delete k l ++ l'.
Proof.
  revert k. induction l as [|y l IH]; intros [|k] Hk; cbn in *; try lia.
  - reflexivity.
  - f_equal. apply IH. lia.
Qed.

Lemma entries_of_photo (p : option Z) (es : list vec) (ns : list string)
    (ids : list Z) (ps : list (option Z)) :
  length ns = length es -> length ids = length es -> length ps = length es ->
  p ∈ ps ->
  Exists (fun en => p = entry_photo_id en) (entries_of es ns ids ps).
Proof.
  revert ns ids ps.
  induction es as [|e es IH]; intros [|n ns] [|i ids] [|q ps] Hn Hi Hp Hin;
    cbn in *; try discriminate.
  - apply elem_of_nil in Hin. contradiction.
  - apply elem_of_cons in Hin as [->|Hin].
    + apply Exists_cons_hd. reflexivity.
    + apply Exists_cons_tl. apply IH; auto.
Qed.

Lemma removeByPhotoId_app (p : option Z) (g1 g2 : list entry) :
  Exists (fun en => p = entry_photo_id en) g1 ->
  Gallery.removeByPhotoId (g1 ++ g2) p = Gallery.removeByPhotoId g1 p ++ g2 /\
  S (length (Gallery.removeByPhotoId g1 p)) = length g1.
Proof.
  induction g1 as [|e g1 IH]; intros Hex.
  - apply Exists_nil in Hex. contradiction.
  - cbn. destruct (decide (p = entry_photo_id e)) as [_|Hne].
    + split; reflexivity.
    + apply Exists_cons in Hex as [Hhd|Htl]; [contradiction|].
      destruct (IH Htl) as [Happ Hlen]. cbn. rewrite Happ, Hlen.
      split; reflexivity.
Qed.

Lemma remove_before_last (g : list entry) (en : entry) (p : option Z)
    (self : KaleidoRecognizer) :
  aligned self -> gallery self = g ->
  p ∈ known_photo_ids self ->
  exists g',
    Gallery.removeByPhotoId (g ++ [en]) p = g' ++ [en] /\
    S (length g') = length g.
Proof.
  intros (Hn & Hi & Hp) <- Hin.
  exists (Gallery.removeByPhotoId (gallery self) p).
  apply removeByPhotoId_app. apply entries_of_photo; assumption.
Qed.

(** X22.  The id given to a person enrolled without an id is the size
    of the gallery plus one, so it is not unique: enrol such a person on
    an aligned gallery, remove an older photo, enrol a second such
    person, and the two people stand in the gallery under the same id. *)
Theorem provisional_ids_collide (self : KaleidoRecognizer) (eA eB : vec)
    (nameA nameB : option string) (pA pB p : option Z) :
  aligned self ->
  length eA = embedding_size -> length eB = embedding_size ->
  p ∈ known_photo_ids self ->
  let anonA := {| pd_id := None; pd_last_name := nameA;
                  pd_first_name := None |} in
  let anonB := {| pd_id := None; pd_last_name := nameB;
                  pd_first_name := None |} in
  let selfA := fst (add_existing_embedding self (Some eA) anonA pA) in
  let selfR := fst (remove_embedding_by_photo_id selfA p) in
  let selfB := fst (add_existing_embedding selfR (Some eB) anonB pB) in
  exists g,
    gallery selfB
    = g ++ [ {| entry_embedding := eA;
                entry_name := display_name_of anonA;
                entry_id := Z.of_nat (length (gallery self)) + 1;
                entry_photo_id := pA |};
             {| entry_embedding := eB;
                entry_name := display_name_of anonB;
                entry_id := Z.of_nat (length (gallery self)) + 1;
                entry_photo_id := pB |} ].
Proof.
  intros Hal HlA HlB Hin anonA anonB selfA selfR selfB.
  assert (HA : add_existing_embedding self (Some eA) anonA pA
               = _add_embedding_to_memory self eA anonA pA).
  { unfold add_existing_embedding.
    rewrite (proj2 (Nat.eqb_eq _ _) HlA). reflexivity. }
  assert (HalA : aligned selfA).
  { unfold selfA. rewrite HA. apply add_aligned, Hal. }
  assert (HgA : gallery selfA = Gallery.insert (gallery self) eA anonA pA).
  { unfold selfA. rewrite HA. apply add_gallery, Hal. }
  destruct (remove_aligned_gallery selfA p HalA) as [HalR HgR].
  fold selfR in HalR, HgR.
  assert (HB : add_existing_embedding selfR (Some eB) anonB pB
               = _add_embedding_to_memory selfR eB anonB pB).
  { unfold add_existing_embedding.
    rewrite (proj2 (Nat.eqb_eq _ _) HlB). reflexivity. }
  assert (HgB : gallery selfB = Gallery.insert (gallery selfR) eB anonB pB).
  { unfold selfB. rewrite HB. apply add_gallery, HalR. }
  unfold Gallery.insert in HgA. cbn [pd_id anonA] in HgA.
  rewrite HgA in HgR.
  match type of HgR with
  | _ = Gallery.removeByPhotoId (_ ++ [?en]) _ =>
      destruct (remove_before_last (gallery self) en p self Hal eq_refl Hin)
        as (g' & Hrem & Hlen)
  end.
  rewrite Hrem in HgR.
  exists g'. rewrite HgB, HgR. unfold Gallery.insert. cbn [pd_id anonB].
  rewrite <- app_assoc. cbn [app]. rewrite length_app. cbn [length].
  repeat f_equal. lia.
Qed.

End ProvisionalIds.

Lemma training_call_all_or_nothing_witness :
  (snd (add_existing_embedding sample_one (Some [1; 2; 3]) ivanov None) = false /\
   fst (add_existing_embedding sample_one (Some [1; 2; 3]) ivanov None)
   = sample_one /\
   (forall e, Some [1; 2; 3] = Some e -> length e <> embedding_size)) \/
  (exists e,
     Some [1; 2; 3] = Some e /\ length e = embedding_size /\
     snd (add_existing_embedding sample_one (Some [1; 2; 3]) ivanov None)
     = true /\
     gallery (fst (add_existing_embedding sample_one (Some [1; 2; 3]) ivanov
                     None))
     = Gallery.insert (gallery sample_one) e ivanov None).
Proof.
  apply (proj1 (@training_call_all_or_nothing sample_vision sample_one ivanov
                  None sample_one_aligned) (Some [1; 2; 3])).
Defined.

Lemma provisional_ids_collide_witness :
  exists g,
    gallery
      (fst (add_existing_embedding
              (fst (remove_embedding_by_photo_id
                      (fst (add_existing_embedding sample_two (Some unit_vec)
                              {| pd_id := None;
                                 pd_last_name := Some "Sidorov"%string;
                                 pd_first_name := None |} None))
                      (Some 101%Z)))
              (Some unit_vec2)
              {| pd_id := None; pd_last_name := Some "Orlov"%string;
                 pd_first_name := None |} None))
    = g ++ [ {| entry_embedding := unit_vec;
                entry_name := "Sidorov";
                entry_id := 3;
                entry_photo_id := None |};
             {| entry_embedding := unit_vec2;
                entry_name := "Orlov";
                entry_id := 3;
                entry_photo_id := None |} ].
Proof.
  apply (provisional_ids_collide sample_two unit_vec unit_vec2
           (Some "Sidorov"%string) (Some "Orlov"%string) None None
           (Some 101%Z) sample_two_aligned unit_vec_length unit_vec2_length).
  cbn. apply list_elem_of_here.
Defined.
